(** * slack-to-md: the archive reader, the thread assembler and the markup
    engine, embedded from [parser.py], [formatter.py] and [models.py].

    Python values are embedded as follows.
    - [str]: a Rocq [string]; the text functions work on its list of
      characters.  A character is a code point below 256.
    - [dict[str, User]]: a [gmap string User.t].
    - an exception: the [Raise] constructor of [result]; a function that
      mutates the caller's user table returns the table next to its result,
      so that the mutation survives an exception as it does in Python.
    - [Message] objects are mutable and shared between [top_level],
      [parents] and the [replies] lists: they live in a heap (a list indexed
      by object reference) and the lists hold references. *)

From Stdlib Require Import ZArith Ascii String.
From stdpp Require Import gmap strings list fin_maps sorting.

Local Open Scope string_scope.
Local Open Scope list_scope.

(** ** Exceptions *)

Inductive exn : Type :=
| KeyError (key : string)
| ValueError
| OverflowError
| TypeError.

Inductive result (A : Type) : Type :=
| Ok (a : A)
| Raise (e : exn).
Arguments Ok {A} a.
Arguments Raise {A} e.

#[global] Instance result_ret : MRet result := fun A a => Ok a.
#[global] Instance result_bind : MBind result := fun A B k r =>
  match r with
  | Ok a => k a
  | Raise e => Raise e
  end.

(** [for x in xs: ...] with a body that may raise and builds a list. *)
Fixpoint mapM_result {A B : Type} (f : A -> result B) (xs : list A) : result (list B) :=
  match xs with
  | [] => Ok []
  | x :: xs' => y ← f x; ys ← mapM_result f xs'; Ok (y :: ys)
  end.

(** ** Strings *)

Abbreviation chars := (list ascii).

Definition str_chars (s : string) : chars := list_ascii_of_string s.
Definition chars_str (l : chars) : string := string_of_list_ascii l.

Definition code (c : ascii) : N := N_of_ascii c.

Definition chr_eqb (a b : ascii) : bool := Ascii.eqb a b.
Arguments chr_eqb : simpl never.

(** Python truthiness of a [str], and [a or b] on strings. *)
Definition truthy (s : string) : bool := negb (String.eqb s EmptyString).
Definition py_or (a b : string) : string := if truthy a then a else b.

Fixpoint take_while {A : Type} (f : A -> bool) (l : list A) : list A :=
  match l with
  | x :: l' => if f x then x :: take_while f l' else []
  | [] => []
  end.

Fixpoint drop_while {A : Type} (f : A -> bool) (l : list A) : list A :=
  match l with
  | x :: l' => if f x then drop_while f l' else l
  | [] => []
  end.

(** [s.startswith(p)] on character lists. *)
Fixpoint starts_with (p l : chars) : bool :=
  match p, l with
  | [], _ => true
  | a :: p', b :: l' => chr_eqb a b && starts_with p' l'
  | _ :: _, [] => false
  end.

(** [s.find(p, i)] relative to the suffix that starts at [i]: the offset of
    the first occurrence of [p], [None] for Python's -1. *)
Fixpoint find_sub (p l : chars) : option nat :=
  if starts_with p l then Some 0
  else match l with
       | [] => None
       | _ :: l' => S <$> find_sub p l'
       end.

(** [<] on [str]: lexicographic by code point. *)
Fixpoint chars_ltb (a b : chars) : bool :=
  match a, b with
  | [], [] => false
  | [], _ :: _ => true
  | _ :: _, [] => false
  | x :: a', y :: b' =>
      if (code x <? code y)%N then true
      else if (code y <? code x)%N then false
      else chars_ltb a' b'
  end.

Definition str_ltb (a b : string) : bool := chars_ltb (str_chars a) (str_chars b).

(** ** [list.sort(key=...)]

    [list.sort] is stable and compares keys with [<] only.  It is embedded
    as the insertion sort below: each element, in input order, moves left
    past the elements it is [<] than.  Where [<] is a strict weak order on
    the keys every stable sort returns the same list.  A list in which no
    key is [<] than its predecessor is returned as it is, by this sort and
    by CPython's (the whole list is one run).  Where [<] is no strict weak
    order, as on float keys with a NaN among them, and the list is not one
    run, the arrangement of CPython's sort may differ from the one of this
    sort. *)

Section Sort.
Context {A K : Type} (key : A -> K) (lt : K -> K -> bool).

(** The sorted prefix is kept in reverse, greatest element first. *)
Fixpoint insert_rev (x : A) (racc : list A) : list A :=
  match racc with
  | [] => [x]
  | y :: r => if lt (key x) (key y) then y :: insert_rev x r else x :: y :: r
  end.

Definition py_sort (l : list A) : list A :=
  rev (foldl (fun racc x => insert_rev x racc) [] l).

(** [x] may stand before [y]: the key of [y] is not below the key of [x]. *)
Definition key_le (x y : A) : Prop := lt (key y) (key x) = false.
End Sort.

(** ** [float(s)]

    A finite binary64 value is an integer multiple of 2^-1074: [FFin n] is
    the float [n * 2^-1074]. *)

Inductive pyfloat : Type :=
| FNaN
| FInf (negative : bool)
| FFin (n : Z).

Definition float_zero : pyfloat := FFin 0.

(** [a < b] on floats: every comparison with NaN is false. *)
Definition float_lt (a b : pyfloat) : bool :=
  match a, b with
  | FNaN, _ | _, FNaN => false
  | FInf true, FInf true => false
  | FInf true, _ => true
  | _, FInf true => false
  | FInf false, _ => false
  | _, FInf false => true
  | FFin x, FFin y => (x <? y)%Z
  end.

(** Round a non-negative rational p/q to the nearest integer, ties to even. *)
Definition rne (p q : Z) : Z :=
  let f := (p / q)%Z in
  let r := (p mod q)%Z in
  if (2 * r <? q)%Z then f
  else if (q <? 2 * r)%Z then (f + 1)%Z
  else if Z.even f then f else (f + 1)%Z.

Definition two_1074 : Z := 2 ^ 1074.

(** Round the non-negative rational a/d to binary64, round-half-even:
    the result in units of 2^-1074, [None] on overflow to infinity. *)
Definition round_b64 (a d : Z) : option Z :=
  let x := (a * two_1074 / d)%Z in
  let k := (Z.log2 x + 1 - 53)%Z in
  let n := if (k <=? 0)%Z then rne (a * two_1074) d
           else (rne (a * two_1074) (d * 2 ^ k) * 2 ^ k)%Z in
  if (n <? 2 ^ 2098)%Z then Some n else None.

(** The float nearest to [sign * m * 10^e]. *)
Definition float_of_decimal (negative : bool) (m e : Z) : pyfloat :=
  let r := if (0 <=? e)%Z then round_b64 (m * 10 ^ e) 1
           else round_b64 m (10 ^ (- e)) in
  match r with
  | Some n => FFin (if negative then - n else n)
  | None => FInf negative
  end.

Definition is_digit (c : ascii) : bool := (48 <=? code c)%N && (code c <=? 57)%N.
Definition digit_val (c : ascii) : Z := Z.of_N (code c) - 48.

(** The characters [float] strips from both ends. *)
Definition is_float_space (c : ascii) : bool :=
  let n := code c in
  ((9 <=? n)%N && (n <=? 13)%N) || (n =? 32)%N || (n =? 133)%N || (n =? 160)%N.

Definition strip_float_space (l : chars) : chars :=
  rev (drop_while is_float_space (rev (drop_while is_float_space l))).

(** An underscore is accepted only between two digits, and is dropped. *)
Fixpoint drop_underscores (prev_digit : bool) (l : chars) : option chars :=
  match l with
  | [] => Some []
  | c :: l' =>
      if chr_eqb c "_" then
        match l' with
        | d :: _ => if prev_digit && is_digit d then drop_underscores false l' else None
        | [] => None
        end
      else cons c <$> drop_underscores (is_digit c) l'
  end.

Definition lower (c : ascii) : ascii :=
  if (65 <=? code c)%N && (code c <=? 90)%N then ascii_of_N (code c + 32) else c.

Definition take_digits (l : chars) : chars * chars :=
  (take_while is_digit l, drop_while is_digit l).

Definition digits_val (ds : chars) : Z :=
  foldl (fun acc c => acc * 10 + digit_val c)%Z 0%Z ds.

Definition take_sign (l : chars) : bool * chars :=
  match l with
  | c :: l' => if chr_eqb c "-" then (true, l')
               else if chr_eqb c "+" then (false, l') else (false, l)
  | [] => (false, l)
  end.

(** The exponent part: [e] or [E], an optional sign, at least one digit. *)
Definition parse_exponent (l : chars) : option Z :=
  match l with
  | [] => Some 0%Z
  | c :: l' =>
      if chr_eqb (lower c) "e" then
        let '(neg, l2) := take_sign l' in
        let '(ds, rest) := take_digits l2 in
        match ds, rest with
        | _ :: _, [] => Some (if neg then - digits_val ds else digits_val ds)%Z
        | _, _ => None
        end
      else None
  end.

(** [float(s)] for a [str]; [None] is ValueError. *)
Definition float_of_chars (l : chars) : option pyfloat :=
  l1 ← drop_underscores false (strip_float_space l);
  let '(neg, l2) := take_sign l1 in
  let low := map lower l2 in
  if bool_decide (low = str_chars "inf") || bool_decide (low = str_chars "infinity")
  then Some (FInf neg)
  else if bool_decide (low = str_chars "nan") then Some FNaN
  else
    let '(ip, l3) := take_digits l2 in
    let '(fp, l4) :=
      match l3 with
      | c :: l3' => if chr_eqb c "." then take_digits l3' else ([], l3)
      | [] => ([], l3)
      end in
    match ip ++ fp with
    | [] => None
    | _ :: _ =>
        e ← parse_exponent l4;
        Some (float_of_decimal neg (digits_val (ip ++ fp)) (e - Z.of_nat (length fp)))
    end.

Definition py_float (s : string) : result pyfloat :=
  match float_of_chars (str_chars s) with
  | Some f => Ok f
  | None => Raise ValueError
  end.

(** ** [datetime.fromtimestamp(x, tz=timezone.utc)] and [strftime] *)

Record datetime : Type := mk_datetime {
  year : Z; month : Z; day : Z; hour : Z; minute : Z; second : Z; microsecond : Z
}.

(** Seconds and microseconds of a finite float, as CPython computes them:
    the integral part truncates toward zero, the fraction times 1e6 is a
    float product, rounded half-even to an integer, and a fraction that
    leaves [0, 1e6) carries into the seconds. *)
Definition to_timeval (n : Z) : Z * Z :=
  let intpart := Z.quot n two_1074 in
  let frac := Z.abs (Z.rem n two_1074) in
  let prod := default 0%Z (round_b64 (frac * 1000000) two_1074) in
  let us := rne prod two_1074 in
  let us := if (n <? 0)%Z then (- us)%Z else us in
  if (1000000 <=? us)%Z then (intpart + 1, us - 1000000)%Z
  else if (us <? 0)%Z then (intpart - 1, us + 1000000)%Z
  else (intpart, us).

(** The proleptic Gregorian date of a day number (days since 1970-01-01). *)
Definition civil_from_days (days : Z) : Z * Z * Z :=
  let z := (days + 719468)%Z in
  let era := (z / 146097)%Z in
  let doe := (z - era * 146097)%Z in
  let yoe := ((doe - doe / 1460 + doe / 36524 - doe / 146096) / 365)%Z in
  let doy := (doe - (365 * yoe + yoe / 4 - yoe / 100))%Z in
  let mp := ((5 * doy + 2) / 153)%Z in
  let d := (doy - (153 * mp + 2) / 5 + 1)%Z in
  let m := if (mp <? 10)%Z then (mp + 3)%Z else (mp - 9)%Z in
  let y := (yoe + era * 400)%Z in
  (if (m <=? 2)%Z then y + 1 else y, m, d)%Z.

(** The conversion raises ValueError on NaN and on a year outside 1..9999
    (where the C library cannot represent the year it is OSError, which the
    callers catch together with ValueError), and OverflowError on infinity
    and beyond a 64-bit [time_t]. *)
Definition fromtimestamp_utc (x : pyfloat) : result datetime :=
  match x with
  | FNaN => Raise ValueError
  | FInf _ => Raise OverflowError
  | FFin n =>
      let '(sec, us) := to_timeval n in
      if (sec <? - 2 ^ 63)%Z || (2 ^ 63 <? sec)%Z then Raise OverflowError
      else
        let '(y, m, d) := civil_from_days (sec / 86400) in
        let sod := (sec mod 86400)%Z in
        if (y <? 1)%Z || (9999 <? y)%Z then Raise ValueError
        else Ok (mk_datetime y m d (sod / 3600) (sod mod 3600 / 60) (sod mod 60) us)
  end.

Definition digit_chr (d : Z) : ascii := ascii_of_N (Z.to_N (48 + d mod 10)).

(** Zero-padded decimal fields of [strftime]. *)
Definition pad2 (n : Z) : chars := [digit_chr (n / 10); digit_chr n].
Definition pad4 (n : Z) : chars :=
  [digit_chr (n / 1000); digit_chr (n / 100); digit_chr (n / 10); digit_chr n].

Definition hour12 (h : Z) : Z := if (h mod 12 =? 0)%Z then 12%Z else (h mod 12)%Z.

(** [dt.strftime("%I:%M %p")] *)
Definition strftime_I_M_p (dt : datetime) : chars :=
  pad2 (hour12 (hour dt)) ++ str_chars ":" ++ pad2 (minute dt) ++ str_chars " "
  ++ str_chars (if (hour dt <? 12)%Z then "AM" else "PM").

(** [dt.strftime("%Y-%m-%d")], the year padded to four digits. *)
Definition strftime_Y_m_d (dt : datetime) : chars :=
  pad4 (year dt) ++ str_chars "-" ++ pad2 (month dt) ++ str_chars "-" ++ pad2 (day dt).

(** [s.lstrip("0")] *)
Definition lstrip0 (l : chars) : chars := drop_while (fun c => chr_eqb c "0") l.

(** [try: ... except ValueError, OSError: handler] (the clause without
    parentheses is Python 3.14 syntax for both classes): OverflowError and
    the other exceptions propagate. *)
Definition except_ValueError {A : Type} (r : result A) (handler : A) : result A :=
  match r with
  | Raise ValueError => Ok handler
  | _ => r
  end.

Definition _format_timestamp (ts : string) : result string :=
  except_ValueError
    (x ← py_float ts;
     dt ← fromtimestamp_utc x;
     Ok (chars_str (lstrip0 (strftime_I_M_p dt))))
    ts.

Definition _format_date (ts : string) : result string :=
  except_ValueError
    (x ← py_float ts;
     dt ← fromtimestamp_utc x;
     Ok (chars_str (strftime_Y_m_d dt)))
    EmptyString.

(** ** models.py *)

Module User.
Record t : Type := mk {
  id : string;
  name : string;
  display_name : string;
  real_name : string
}.

(** [self.display_name or self.real_name or self.name] *)
Definition label (self : t) : string :=
  py_or (py_or (display_name self) (real_name self)) (name self).
End User.

Module Attachment.
Record t : Type := mk {
  title : string;
  fallback : string;
  text : string;
  from_url : string
}.
End Attachment.

Module File.
Record t : Type := mk {
  name : string;
  url_private : string;
  permalink : string
}.
End File.

(** A reference to a [Message] object: its index in the heap. *)
Abbreviation ref := nat (only parsing).

Module Message.
Record t : Type := mk {
  user : string;
  text : string;
  ts : string;
  thread_ts : string;
  replies : list ref;
  attachments : list Attachment.t;
  files : list File.t;
  subtype : string
}.

(** [self.replies.append(r)] *)
Definition append_reply (r : ref) (self : t) : t :=
  mk (user self) (text self) (ts self) (thread_ts self) (replies self ++ [r])
     (attachments self) (files self) (subtype self).
End Message.

Module Channel.
Record t : Type := mk {
  id : string;
  name : string;
  topic : string;
  purpose : string
}.
End Channel.

(** ** JSON values, as [json.loads] returns them

    An object is the list of its items, one per key.  The dataclass fields
    are typed: where a record holds a value of another JSON type than the
    field read from it, Python stores it or fails later with AttributeError
    or TypeError; the embedding reports [TypeError] at the read. *)

#[local] Unset Elimination Schemes.
Inductive json : Type :=
| JNull
| JBool (b : bool)
| JNum (n : Z)
| JStr (s : string)
| JArr (items : list json)
| JObj (items : list (string * json)).
#[local] Set Elimination Schemes.

Abbreviation dict := (list (string * json)).

(** [key in d], [d.get(key)] *)
Fixpoint dict_lookup (key : string) (d : dict) : option json :=
  match d with
  | [] => None
  | (k, v) :: d' => if String.eqb k key then Some v else dict_lookup key d'
  end.

Definition as_dict (v : json) : result dict :=
  match v with JObj d => Ok d | _ => Raise TypeError end.

Definition as_list (v : json) : result (list json) :=
  match v with JArr l => Ok l | _ => Raise TypeError end.

Definition as_str (v : json) : result string :=
  match v with JStr s => Ok s | _ => Raise TypeError end.

(** [d.get(key, default)] with the empty string as default *)
Definition get_str (key : string) (d : dict) : result string :=
  match dict_lookup key d with
  | Some v => as_str v
  | None => Ok EmptyString
  end.

(** [d.get(key, {})] *)
Definition get_dict (key : string) (d : dict) : result dict :=
  match dict_lookup key d with
  | Some v => as_dict v
  | None => Ok []
  end.

(** [d.get(key, [])] *)
Definition get_list (key : string) (d : dict) : result (list json) :=
  match dict_lookup key d with
  | Some v => as_list v
  | None => Ok []
  end.

(** [d[key]] *)
Definition subscript_str (key : string) (d : dict) : result string :=
  match dict_lookup key d with
  | Some v => as_str v
  | None => Raise (KeyError key)
  end.

(** ** The archive: [zipfile.ZipFile]

    The members in archive order, each with its decoded JSON content
    (a member that is not valid JSON is a fatal error outside this model).
    [zf.read(name)] returns the last member of that name. *)

Definition archive : Type := list (string * json).

Definition namelist (zf : archive) : list string := zf.*1.

Definition zf_read (zf : archive) (name : string) : result json :=
  match dict_lookup name (rev zf) with
  | Some v => Ok v
  | None => Raise (KeyError name)
  end.

(** [s.split("/")] *)
Fixpoint split_on (sep : ascii) (cur : chars) (l : chars) : list chars :=
  match l with
  | [] => [rev cur]
  | c :: l' => if chr_eqb c sep then rev cur :: split_on sep [] l'
               else split_on sep (c :: cur) l'
  end.

(** [PurePosixPath(name).name]: the last component that is neither empty
    nor ".", the empty string when there is none. *)
Definition posix_name (name : string) : string :=
  let parts := filter (fun p => p ≠ [] ∧ p ≠ str_chars ".")
                      (split_on "/" [] (str_chars name)) in
  chars_str (default [] (last parts)).

(** ** parser.py *)

Definition load_user (u : json) : result User.t :=
  u ← as_dict u;
  profile ← get_dict "profile" u;
  id ← subscript_str "id" u;
  name ← get_str "name" u;
  display_name ← get_str "display_name" profile;
  real_name ← get_str "real_name" u;
  Ok (User.mk id name display_name real_name).

(** The loop [for u in data: users[u["id"]] = User(...)]. *)
Fixpoint load_user_records (data : list json) (users : gmap string User.t)
  : result (gmap string User.t) :=
  match data with
  | [] => Ok users
  | u :: data' =>
      user ← load_user u;
      load_user_records data' (<[User.id user := user]> users)
  end.

(** [next(name for name in zf.namelist() if PurePosixPath(name).name == base)] *)
Definition first_named (base : string) (zf : archive) : option string :=
  head (filter (fun name => posix_name name = base) (namelist zf)).

Definition load_users (zf : archive) : result (gmap string User.t) :=
  match first_named "users.json" zf with
  | Some name =>
      data ← zf_read zf name;
      data ← as_list data;
      load_user_records data ∅
  | None => Ok ∅
  end.

Definition load_channel (c : json) : result Channel.t :=
  c ← as_dict c;
  topic_obj ← get_dict "topic" c;
  topic ← get_str "value" topic_obj;
  purpose_obj ← get_dict "purpose" c;
  purpose ← get_str "value" purpose_obj;
  id ← subscript_str "id" c;
  name ← subscript_str "name" c;
  Ok (Channel.mk id name topic purpose).

Definition load_channels (zf : archive) : result (list Channel.t) :=
  match first_named "channels.json" zf with
  | Some name =>
      data ← zf_read zf name;
      data ← as_list data;
      mapM_result load_channel data
  | None => Ok []
  end.

Definition parse_attachment (a : json) : result Attachment.t :=
  a ← as_dict a;
  title ← get_str "title" a;
  fallback ← get_str "fallback" a;
  text ← get_str "text" a;
  from_url ← get_str "from_url" a;
  Ok (Attachment.mk title fallback text from_url).

Definition parse_file (f : json) : result File.t :=
  f ← as_dict f;
  name ← get_str "name" f;
  url_private ← get_str "url_private" f;
  permalink ← get_str "permalink" f;
  Ok (File.mk name url_private permalink).

Definition _parse_message (raw : dict) : result Message.t :=
  attachments ← get_list "attachments" raw;
  attachments ← mapM_result parse_attachment attachments;
  files ← get_list "files" raw;
  files ← mapM_result parse_file files;
  user ← get_str "user" raw;
  text ← get_str "text" raw;
  ts ← get_str "ts" raw;
  thread_ts ← get_str "thread_ts" raw;
  subtype ← get_str "subtype" raw;
  Ok (Message.mk user text ts thread_ts [] attachments files subtype).

(** *** [load_channel_messages]

    The function reads and extends the caller's user table: a [loader] is a
    computation over that table which may raise, and the table it leaves
    behind is returned also when it raises. *)

Definition loader (A : Type) : Type :=
  gmap string User.t -> gmap string User.t * result A.

#[global] Instance loader_ret : MRet loader := fun A a users => (users, Ok a).
#[global] Instance loader_bind : MBind loader := fun A B k c users =>
  match c users with
  | (users', Ok a) => k a users'
  | (users', Raise e) => (users', Raise e)
  end.

Definition lift {A : Type} (r : result A) : loader A := fun users => (users, r).
Definition contains_user (uid : string) : loader bool :=
  fun users => (users, Ok (bool_decide (is_Some (users !! uid)))).
Definition set_user (uid : string) (u : User.t) : loader unit :=
  fun users => (<[uid := u]> users, Ok tt).

Definition newline : ascii := ascii_of_N 10.

Definition is_date (d : chars) : bool :=
  match d with
  | [y1; y2; y3; y4; h1; m1; m2; h2; d1; d2] =>
      forallb is_digit [y1; y2; y3; y4; m1; m2; d1; d2]
      && chr_eqb h1 "-" && chr_eqb h2 "-"
  | _ => false
  end.

(** [date_pattern.match(name)] for the pattern
    [^(?:.+/)?CHANNEL/(\d{4}-\d{2}-\d{2})\.json$]: the date group of a
    match.  [$] also matches before a final newline; [.] is any character
    but a newline. *)
Definition match_date_file (channel_name name : string) : option string :=
  let s := str_chars name in
  let s := match last s with
           | Some c => if chr_eqb c newline then removelast s else s
           | None => s
           end in
  let tail := str_chars channel_name ++ str_chars "/" in
  let k := length s - (length tail + 15) in
  let prefix := take k s in
  let date := take 10 (drop (k + length tail) s) in
  let prefix_ok :=
    match rev prefix with
    | [] => true
    | c :: x => chr_eqb c "/" && bool_decide (x ≠ [])
                && forallb (fun c => negb (chr_eqb c newline)) x
    end in
  if bool_decide (s = prefix ++ tail ++ date ++ str_chars ".json")
     && is_date date && prefix_ok
  then Some (chars_str date) else None.

(** The matched day files, as (date, name) pairs in date order. *)
Definition date_files (zf : archive) (channel_name : string) : list (string * string) :=
  py_sort fst str_ltb
    (omap (fun name => (fun d => (d, name)) <$> match_date_file channel_name name)
          (namelist zf)).

(** The body of [for raw in data], without the append. *)
Definition scan_record (raw : json) : loader Message.t :=
  raw ← lift (as_dict raw);
  msg ← lift (_parse_message raw);
  uid ← lift (get_str "user" raw);
  known ← contains_user uid;
  _ ← (if truthy uid && negb known then
         profile ← lift (get_dict "user_profile" raw);
         match profile with
         | [] => mret tt
         | _ :: _ =>
             name ← lift (get_str "name" profile);
             display_name ← lift (get_str "display_name" profile);
             real_name ← lift (get_str "real_name" profile);
             set_user uid (User.mk uid name display_name real_name)
         end
       else mret tt);
  mret msg.

Fixpoint scan_records (data : list json) : loader (list Message.t) :=
  match data with
  | [] => mret []
  | raw :: data' =>
      msg ← scan_record raw;
      msgs ← scan_records data';
      mret (msg :: msgs)
  end.

Fixpoint scan_files (zf : archive) (files : list (string * string))
  : loader (list Message.t) :=
  match files with
  | [] => mret []
  | (_, filepath) :: files' =>
      data ← lift (zf_read zf filepath);
      data ← lift (as_list data);
      msgs ← scan_records data;
      more ← scan_files zf files';
      mret (msgs ++ more)
  end.

(** [lambda m: float(m.ts) if m.ts else 0.0] *)
Definition sort_key (m : Message.t) : result pyfloat :=
  if truthy (Message.ts m) then py_float (Message.ts m) else Ok float_zero.

(** [all_messages.sort(key=...)]: the keys of all the messages are computed
    first; the result lists the references in sorted order.  With a NaN
    among the keys this is the order of [list.sort] only where [py_sort] is
    (see above); [sort_messages_by] below leaves the arrangement open. *)
Definition sort_messages (heap : list Message.t) : result (list ref) :=
  keys ← mapM_result sort_key heap;
  Ok (py_sort fst float_lt (zip keys (seq 0 (length heap)))).*2.

(** [msg.thread_ts and msg.thread_ts != msg.ts] *)
Definition is_reply (msg : Message.t) : bool :=
  truthy (Message.thread_ts msg)
  && negb (String.eqb (Message.thread_ts msg) (Message.ts msg)).

Record assembly : Type := mk_assembly {
  heap : list Message.t;
  top_level : list ref;
  parents : gmap string ref
}.

(** The body of [for msg in all_messages]. *)
Definition assemble_step (st : assembly) (r : ref) : assembly :=
  match heap st !! r with
  | None => st
  | Some msg =>
      if negb (is_reply msg) then
        mk_assembly (heap st) (top_level st ++ [r])
                    (<[Message.ts msg := r]> (parents st))
      else
        match parents st !! Message.thread_ts msg with
        | Some parent =>
            mk_assembly (alter (Message.append_reply r) parent (heap st))
                        (top_level st) (parents st)
        | None =>
            mk_assembly (heap st) (top_level st ++ [r]) (parents st)
        end
  end.

Definition assemble (h : list Message.t) (all_messages : list ref) : assembly :=
  foldl assemble_step (mk_assembly h [] ∅) all_messages.

(** The result is the list [top_level] of references together with the heap
    that holds the objects. *)
Definition load_channel_messages (zf : archive) (channel_name : string)
  : loader (list Message.t * list ref) :=
  all_messages ← scan_files zf (date_files zf channel_name);
  sorted ← lift (sort_messages all_messages);
  let st := assemble all_messages sorted in
  mret (heap st, top_level st).

(** *** The load, with the arrangement of [list.sort] left open

    [all_messages.sort(key=...)] computes the keys of all the messages and
    then arranges the messages by comparing keys with [<].  Where a key is
    NaN, [<] is no strict weak order on the keys and the arrangement is a
    matter of the algorithm of the interpreter, which is no part of this
    program: [algo] stands for it.  The statements that hold for every
    input, NaN keys included, are made for every [algo] that [rearranges]
    its input, which is all they need of [list.sort]; [sort_messages] and
    [load_channel_messages] above are the instances at [py_sort]. *)

Definition rearranges {A : Type} (algo : list A -> list A) : Prop :=
  forall l, algo l ≡ₚ l.

Definition sort_messages_by (algo : list (pyfloat * ref) -> list (pyfloat * ref))
    (heap : list Message.t) : result (list ref) :=
  keys ← mapM_result sort_key heap;
  Ok (algo (zip keys (seq 0 (length heap)))).*2.

Definition load_channel_messages_by (algo : list (pyfloat * ref) -> list (pyfloat * ref))
    (zf : archive) (channel_name : string) : loader (list Message.t * list ref) :=
  all_messages ← scan_files zf (date_files zf channel_name);
  sorted ← lift (sort_messages_by algo all_messages);
  let st := assemble all_messages sorted in
  mret (heap st, top_level st).

(** The replies of the object at [r]. *)
Definition replies_of (h : list Message.t) (r : ref) : list ref :=
  default [] (Message.replies <$> h !! r).

(** ** formatter.py: the markup engine *)

(** [\w] on code points below 256. *)
Definition is_word (c : ascii) : bool :=
  let n := code c in
  is_digit c
  || ((65 <=? n)%N && (n <=? 90)%N) || ((97 <=? n)%N && (n <=? 122)%N)
  || (n =? 95)%N
  || (n =? 170)%N || (n =? 178)%N || (n =? 179)%N || (n =? 181)%N
  || (n =? 185)%N || (n =? 186)%N || ((188 <=? n)%N && (n <=? 190)%N)
  || ((192 <=? n)%N && (n <=? 214)%N) || ((216 <=? n)%N && (n <=? 246)%N)
  || (248 <=? n)%N.

Definition not_gt (c : ascii) : bool := negb (chr_eqb c ">").

(** [re.sub(pattern, repl, text)] for a pattern that matches no empty
    string.  [matcher prev l] tries the pattern at the position where the
    text [l] remains and [prev] is the character before it; a match gives
    its replacement and its length.  After a match the search resumes
    behind it. *)
Section ReSub.
Variable matcher : option ascii -> chars -> option (chars * nat).

Fixpoint re_sub_from (prev : option ascii) (skip : nat) (l : chars) : chars :=
  match l with
  | [] => []
  | c :: l' =>
      match skip with
      | S k => re_sub_from (Some c) k l'
      | O =>
          match matcher prev l with
          | Some (repl, n) => repl ++ re_sub_from (Some c) (n - 1) l'
          | None => c :: re_sub_from (Some c) 0 l'
          end
      end
  end.

Definition re_sub (l : chars) : chars := re_sub_from None 0 l.
End ReSub.

(** The text behind a literal prefix. *)
Fixpoint strip_prefix (p l : chars) : option chars :=
  match p, l with
  | [], _ => Some l
  | a :: p', b :: l' => if chr_eqb a b then strip_prefix p' l' else None
  | _ :: _, [] => None
  end.

(** The common tail of the mention patterns: an optional group of [\|] and
    [[^>]*], then [>].  The length of the match. *)
Definition match_opt_tail (l : chars) : option nat :=
  match l with
  | c :: l' =>
      if chr_eqb c ">" then Some 1
      else if chr_eqb c "|" then
        match drop_while not_gt l' with
        | _ :: _ => Some (2 + length (take_while not_gt l'))
        | [] => None
        end
      else None
  | [] => None
  end.

(** The user mention: [<@(\w+)], the optional tail group, [>]; replaced by
    [replace_user_mention]. *)
Definition match_user_mention (users : gmap string User.t)
    (_ : option ascii) (l : chars) : option (chars * nat) :=
  l1 ← strip_prefix (str_chars "<@") l;
  let uid := take_while is_word l1 in
  if bool_decide (uid = []) then None
  else
    n ← match_opt_tail (drop_while is_word l1);
    let label := match users !! chars_str uid with
                 | Some user => User.label user
                 | None => chars_str uid
                 end in
    Some (str_chars "**@" ++ str_chars label ++ str_chars "**", 2 + length uid + n).

(** [<#\w+\|([^>]+)>] replaced by [#\1]. *)
Definition match_channel_mention (_ : option ascii) (l : chars) : option (chars * nat) :=
  l1 ← strip_prefix (str_chars "<#") l;
  let w := take_while is_word l1 in
  l2 ← strip_prefix (str_chars "|") (drop_while is_word l1);
  let g := take_while not_gt l2 in
  if bool_decide (w = []) || bool_decide (g = [])
     || bool_decide (drop_while not_gt l2 = []) then None
  else Some (str_chars "#" ++ g, 2 + length w + 1 + length g + 1).

(** [<!subteam\^\w+\|(@[^>]+)>] replaced by [\1]. *)
Definition match_subteam (_ : option ascii) (l : chars) : option (chars * nat) :=
  l1 ← strip_prefix (str_chars "<!subteam^") l;
  let w := take_while is_word l1 in
  l2 ← strip_prefix (str_chars "|@") (drop_while is_word l1);
  let g := take_while not_gt l2 in
  if bool_decide (w = []) || bool_decide (g = [])
     || bool_decide (drop_while not_gt l2 = []) then None
  else Some (str_chars "@" ++ g, 10 + length w + 2 + length g + 1).

(** [<!WORD], the optional tail group, [>]; replaced by [@WORD], for here,
    channel and everyone. *)
Definition match_special (word : string) (_ : option ascii) (l : chars)
  : option (chars * nat) :=
  l1 ← strip_prefix (str_chars "<!" ++ str_chars word) l;
  n ← match_opt_tail l1;
  Some (str_chars "@" ++ str_chars word, 2 + String.length word + n).

(** [content.split("|", 1)] when ["|" in content]. *)
Definition split_pipe (content : chars) : option (chars * chars) :=
  let url := take_while (fun c => negb (chr_eqb c "|")) content in
  match drop_while (fun c => negb (chr_eqb c "|")) content with
  | _ :: label => Some (url, label)
  | [] => None
  end.

Definition replace_link (content : chars) : chars :=
  match split_pipe content with
  | Some (url, label) =>
      str_chars "[" ++ label ++ str_chars "](" ++ url ++ str_chars ")"
  | None => content
  end.

(** [<(https?://[^>]+)>] with [replace_link]. *)
Definition match_link (_ : option ascii) (l : chars) : option (chars * nat) :=
  l1 ← strip_prefix (str_chars "<") l;
  l2 ← strip_prefix (str_chars "http") l1;
  let l3 := default l2 (strip_prefix (str_chars "s") l2) in
  l4 ← strip_prefix (str_chars "://") l3;
  let content := take_while not_gt l1 in
  if bool_decide (take_while not_gt l4 = [])
     || bool_decide (drop_while not_gt l1 = []) then None
  else Some (replace_link content, 1 + length content + 1).

(** The emphasis patterns [(?<!B1)D(?!A1)(.+?)(?<!B2)D(?!A2)], where [B1],
    [A1], [B2], [A2] are character classes and [D] is the delimiter. *)
Section Emphasis.
Variables (delim : ascii) (b1 a1 b2 a2 : ascii -> bool) (left right : chars).

Definition next_not (cls : ascii -> bool) (l : chars) : bool :=
  match l with
  | c :: _ => negb (cls c)
  | [] => true
  end.

(** The lazy group [(.+?)] followed by the closing delimiter: the shortest
    body that works.  [body] holds the characters taken so far, last one
    first. *)
Fixpoint find_close (body : chars) (l : chars) : option chars :=
  match l with
  | [] => None
  | c :: l' =>
      let closes :=
        match body with
        | last_chr :: _ => chr_eqb c delim && negb (b2 last_chr) && next_not a2 l'
        | [] => false
        end in
      if closes then Some (rev body)
      else if chr_eqb c newline then None
      else find_close (c :: body) l'
  end.

Definition match_emphasis (prev : option ascii) (l : chars) : option (chars * nat) :=
  match l with
  | c :: l' =>
      if chr_eqb c delim
         && match prev with Some p => negb (b1 p) | None => true end
         && next_not a1 l'
      then
        body ← find_close [] l';
        Some (left ++ body ++ right, 1 + length body + 1)
      else None
  | [] => None
  end.
End Emphasis.

Definition is_chr (d : ascii) (c : ascii) : bool := chr_eqb c d.

(** Slack bold: the delimiter and the four excluded classes are the
    asterisk; the body is put between doubled asterisks. *)
Definition sub_bold : chars -> chars :=
  re_sub (match_emphasis "*" (is_chr "*") (is_chr "*") (is_chr "*") (is_chr "*")
                         (str_chars "**") (str_chars "**")).

(** Slack italic, [(?<![_\w])_(?!_)(.+?)(?<!_)_(?![_\w])]: the body is put
    between asterisks. *)
Definition sub_italic : chars -> chars :=
  re_sub (match_emphasis "_" is_word (is_chr "_") (is_chr "_") is_word
                         (str_chars "*") (str_chars "*")).

(** Slack strike, [(?<!~)~(?!~)(.+?)(?<!~)~(?!~)]: the body is put between
    doubled tildes. *)
Definition sub_strike : chars -> chars :=
  re_sub (match_emphasis "~" (is_chr "~") (is_chr "~") (is_chr "~") (is_chr "~")
                         (str_chars "~~") (str_chars "~~")).

(** The three rewrites of a part that is not code. *)
Definition rewrite_plain (part : chars) : chars :=
  sub_strike (sub_italic (sub_bold part)).

Definition backtick : ascii := "`".
Definition fence : chars := [backtick; backtick; backtick].

(** [parts.append(text[buf_start:i])] when [i > buf_start]. *)
Definition flush (buf : chars) : list chars :=
  match buf with
  | [] => []
  | _ :: _ => [buf]
  end.

(** The [while i < n] loop.  [l] is the text from [i] on, [buf] is
    [text[buf_start:i]]; [skip] counts the characters of a code part that
    was appended and over which [i] has jumped. *)
Fixpoint scan_parts (skip : nat) (buf : chars) (l : chars) : list chars :=
  match l with
  | [] => flush buf
  | c :: l' =>
      match skip with
      | S k => scan_parts k buf l'
      | O =>
          if starts_with fence l then
            match find_sub fence (drop 3 l) with
            | Some e =>
                flush buf ++ take (e + 6) l :: scan_parts (e + 5) [] l'
            | None => flush buf ++ [l]
            end
          else if chr_eqb c backtick then
            match find_sub [backtick] l' with
            | Some e =>
                flush buf ++ take (e + 2) l :: scan_parts (e + 1) [] l'
            | None => scan_parts 0 (buf ++ [c]) l'
            end
          else scan_parts 0 (buf ++ [c]) l'
      end
  end.

(** The loop [for part in parts]. *)
Definition render_part (part : chars) : chars :=
  if starts_with [backtick] part then part else rewrite_plain part.

Definition convert_slack_formatting_chars (text : chars) : chars :=
  concat (map render_part (scan_parts 0 [] text)).

Definition _convert_slack_formatting (text : string) : string :=
  chars_str (convert_slack_formatting_chars (str_chars text)).

Definition sub_user_mentions (users : gmap string User.t) : chars -> chars :=
  re_sub (match_user_mention users).

Definition convert_mrkdwn (text : string) (users : gmap string User.t) : string :=
  let text := sub_user_mentions users (str_chars text) in
  let text := re_sub match_channel_mention text in
  let text := re_sub match_subteam text in
  let text := re_sub (match_special "here") text in
  let text := re_sub (match_special "channel") text in
  let text := re_sub (match_special "everyone") text in
  let text := re_sub match_link text in
  chars_str (convert_slack_formatting_chars text).

(** ** formatter.py: a single message *)

Definition render_attachment (prefix : string) (att : Attachment.t) : list string :=
  let title_or_fallback := py_or (Attachment.title att) (Attachment.fallback att) in
  if truthy (Attachment.from_url att) then
    [prefix +:+ "[" +:+ py_or title_or_fallback "Link" +:+ "]("
       +:+ Attachment.from_url att +:+ ")"]
  else if truthy title_or_fallback then
    [prefix +:+ "[Attachment: " +:+ title_or_fallback +:+ "]"]
  else [].

Definition render_file (prefix : string) (f : File.t) : string :=
  let url := py_or (File.permalink f) (File.url_private f) in
  if truthy url then
    prefix +:+ "[" +:+ py_or (File.name f) "File" +:+ "](" +:+ url +:+ ")"
  else
    prefix +:+ "[Attachment: " +:+ py_or (File.name f) "File" +:+ "]".

(** [user.label if user else msg.user or "unknown"] *)
Definition author_of (msg : Message.t) (users : gmap string User.t) : string :=
  match users !! Message.user msg with
  | Some user => User.label user
  | None => py_or (Message.user msg) "unknown"
  end.

Definition header_line (prefix author time_str thread_label : string) : string :=
  prefix +:+ "**@" +:+ author +:+ "** (" +:+ time_str +:+ ")" +:+ thread_label +:+ ":".

Definition format_message (msg : Message.t) (users : gmap string User.t)
    (indent : bool) : result string :=
  let author := author_of msg users in
  time_str ← _format_timestamp (Message.ts msg);
  let text := convert_mrkdwn (Message.text msg) users in
  let prefix := if indent then "  " else EmptyString in
  let thread_label := if indent then " [thread]" else EmptyString in
  let lines := [header_line prefix author time_str thread_label] in
  let lines :=
    if truthy text then
      lines ++ map (fun line => prefix +:+ chars_str line)
                   (split_on newline [] (str_chars text))
    else lines in
  let lines := lines ++ concat (map (render_attachment prefix) (Message.attachments msg)) in
  let lines := lines ++ map (render_file prefix) (Message.files msg) in
  Ok (String.concat (String newline EmptyString) lines).
(** A loader that only adds entries to the table. *)
Definition extends_table {A} (c : loader A) : Prop :=
  forall users, users ⊆ (c users).1.


(** ** Vocabulary of the statements about thread assembly *)

(** The number of replies held by the top-level messages. *)
Definition total_replies (h : list Message.t) (top : list ref) : nat :=
  sum_list_with (fun t => length (replies_of h t)) top.

(** The fields that assembly never writes. *)
Definition same_static (m m0 : Message.t) : Prop :=
  Message.ts m = Message.ts m0 /\ Message.thread_ts m = Message.thread_ts m0.

(** A message of timestamp [key] was registered as a parent before position
    [i] of the pass [order]: it is not a reply and stands before [i]. *)
Definition registered (h : list Message.t) (order : list ref) (i : nat)
    (key : string) : Prop :=
  exists j p mp, j < i /\ order !! j = Some p /\ h !! p = Some mp
                 /\ is_reply mp = false /\ Message.ts mp = key.

(** What holds after the pass has visited the references [done], none twice,
    starting from the heap [h0] of freshly parsed messages. *)
Record assembly_inv (h0 : list Message.t) (done : list ref) (st : assembly) : Prop := {
  inv_static : Forall2 same_static (heap st) h0;
  inv_top_done : forall r, r ∈ top_level st -> r ∈ done;
  inv_top_nodup : NoDup (top_level st);
  inv_replies : forall t r, r ∈ replies_of (heap st) t ->
      r ∈ done /\ t ∈ top_level st
      /\ (exists m, h0 !! r = Some m /\ is_reply m = true)
      /\ (exists m, h0 !! t = Some m /\ is_reply m = false);
  inv_parents : forall k p, parents st !! k = Some p ->
      p ∈ top_level st
      /\ exists m, h0 !! p = Some m /\ is_reply m = false /\ Message.ts m = k;
  inv_registered : forall p m, p ∈ done -> h0 !! p = Some m -> is_reply m = false ->
      is_Some (parents st !! Message.ts m);
  inv_count : length (top_level st) + total_replies (heap st) (top_level st) = length done;
  inv_sub : forall t, replies_of (heap st) t `sublist_of` done;
  inv_placed : forall i r m, done !! i = Some r -> h0 !! r = Some m -> is_reply m = true ->
      (registered h0 done i (Message.thread_ts m)
       /\ (r ∉ top_level st)
       /\ exists t, t ∈ top_level st /\ r ∈ replies_of (heap st) t
                    /\ (forall t', r ∈ replies_of (heap st) t' -> t' = t))
      \/ (~ registered h0 done i (Message.thread_ts m)
          /\ r ∈ top_level st
          /\ (forall t', r ∉ replies_of (heap st) t'))
}.

(** Where the reply-classified messages of the heap [h] stand after the pass
    [order]: each in the replies of exactly one message, a top-level one,
    when a parent was registered for it, and else in [top] only. *)
Definition placed_once (h : list Message.t) (top order : list ref) : Prop :=
  forall r m, h !! r = Some m -> is_reply m = true ->
    exists i, order !! i = Some r /\
      ((registered h order i (Message.thread_ts m)
        /\ (r ∉ top)
        /\ exists t, t ∈ top /\ r ∈ replies_of h t
                     /\ (forall t', r ∈ replies_of h t' -> t' = t))
       \/ (~ registered h order i (Message.thread_ts m)
           /\ r ∈ top
           /\ (forall t', r ∉ replies_of h t'))).

(** The raw records of the day files [files], in the order they are read. *)
Definition input_records (zf : archive) (files : list (string * string)) : list json :=
  flat_map (fun file => match zf_read zf file.2 with
                        | Ok (JArr data) => data
                        | _ => []
                        end) files.

(** No message in a replies list has replies of its own. *)
Definition replies_depth_one (h : list Message.t) : Prop :=
  forall t r, r ∈ replies_of h t -> replies_of h r = [].

(** The replies of [t] stand in ascending order of their sort keys: no reply
    has a key below the key of a reply before it. *)
Definition replies_ascending (h : list Message.t) (t : ref) : Prop :=
  forall i j ri rj mi mj ki kj,
    i < j -> replies_of h t !! i = Some ri -> replies_of h t !! j = Some rj ->
    h !! ri = Some mi -> h !! rj = Some mj ->
    sort_key mi = Ok ki -> sort_key mj = Ok kj ->
    float_lt kj ki = false.

(** ** Sample archives *)

Definition raw_message (user text ts thread_ts : string) : json :=
  JObj ([("user", JStr user); ("text", JStr text); ("ts", JStr ts)]
        ++ if truthy thread_ts then [("thread_ts", JStr thread_ts)] else []).

(** A thread starter, its reply, and an orphan reply. *)
Definition thread_archive : archive :=
  [("general/2024-01-15.json",
    JArr [raw_message "U001" "parent" "1705307400.000" "1705307400.000";
          raw_message "U002" "reply" "1705307500.000" "1705307400.000";
          raw_message "U002" "orphan" "1705307450.000" "9999.000"])].

(** A parent with three replies, one of which carries the timestamp "nan". *)
Definition nan_archive : archive :=
  [("general/2024-01-15.json",
    JArr [raw_message "U001" "parent" "1" EmptyString;
          raw_message "U001" "a" "3" "1";
          raw_message "U001" "b" "nan" "1";
          raw_message "U001" "c" "2" "1"])].

(** A message whose timestamp is not a number, with an inline profile. *)
Definition bad_ts_archive : archive :=
  [("general/2024-01-15.json",
    JArr [raw_message "U001" "first" "1705307400.000" EmptyString;
          JObj [("user", JStr "U999"); ("text", JStr "hello");
                ("ts", JStr "not-a-number");
                ("user_profile", JObj [("name", JStr "ext_user")])]])].

Definition alice : User.t := User.mk "U001" "alice" "alice" "Alice Smith".

(** A message of a known user that carries another inline profile. *)
Definition profile_archive : archive :=
  [("general/2024-01-15.json",
    JArr [JObj [("user", JStr "U001"); ("text", JStr "hi");
                ("ts", JStr "1705307400.000");
                ("user_profile", JObj [("name", JStr "wrong");
                                       ("display_name", JStr "Wrong Name");
                                       ("real_name", JStr "Wrong")])]])].

(** The heaps that the loads of the sample archives return. *)
Definition loaded_heap (zf : archive) : list Message.t :=
  match (load_channel_messages zf "general" ∅).2 with
  | Ok (h, _) => h
  | Raise _ => []
  end.

Definition thread_heap : list Message.t := Eval vm_compute in loaded_heap thread_archive.
Definition nan_heap : list Message.t := Eval vm_compute in loaded_heap nan_archive.

(** ** Vocabulary of the statements about missing fields

    A record is well typed when every expected key that is present holds a
    value of the JSON type that the code reads from it. *)

Definition str_field (d : dict) (key : string) : bool :=
  match dict_lookup key d with
  | None | Some (JStr _) => true
  | Some _ => false
  end.

Definition dict_field (ok : dict -> bool) (d : dict) (key : string) : bool :=
  match dict_lookup key d with
  | None => true
  | Some (JObj o) => ok o
  | Some _ => false
  end.

Definition list_field (ok : json -> bool) (d : dict) (key : string) : bool :=
  match dict_lookup key d with
  | None => true
  | Some (JArr l) => forallb ok l
  | Some _ => false
  end.

Definition str_fields (keys : list string) (d : dict) : bool :=
  forallb (str_field d) keys.

Definition record_of (keys : list string) (v : json) : bool :=
  match v with
  | JObj d => str_fields keys d
  | _ => false
  end.

Definition typed_message (raw : dict) : bool :=
  str_fields ["user"; "text"; "ts"; "thread_ts"; "subtype"] raw
  && list_field (record_of ["title"; "fallback"; "text"; "from_url"]) raw "attachments"
  && list_field (record_of ["name"; "url_private"; "permalink"]) raw "files"
  && dict_field (str_fields ["name"; "display_name"; "real_name"]) raw "user_profile".

Definition typed_user (u : dict) : bool :=
  str_fields ["id"; "name"; "real_name"] u
  && dict_field (str_fields ["display_name"]) u "profile".

Definition typed_channel (c : dict) : bool :=
  str_fields ["id"; "name"] c
  && dict_field (str_fields ["value"]) c "topic"
  && dict_field (str_fields ["value"]) c "purpose".

Definition missing (key : string) (d : dict) : Prop := dict_lookup key d = None.

(** A users file whose only record lacks the id. *)
Definition no_id_archive : archive :=
  [("users.json", JArr [JObj [("name", JStr "alice"); ("real_name", JStr "Alice Smith")]])].

(** A message record with no field at all, and a user record with its id only. *)
Definition empty_record : dict := [].
Definition bare_user : dict := [("id", JStr "U001")].
Definition bare_channel : dict := [("id", JStr "C001"); ("name", JStr "bare")].

(** What the parse of a record with missing fields must give. *)
Definition message_defaults (raw : dict) (m : Message.t) : Prop :=
  (missing "user" raw -> Message.user m = EmptyString)
  /\ (missing "text" raw -> Message.text m = EmptyString)
  /\ (missing "ts" raw -> Message.ts m = EmptyString)
  /\ (missing "thread_ts" raw -> Message.thread_ts m = EmptyString)
  /\ (missing "subtype" raw -> Message.subtype m = EmptyString)
  /\ (missing "attachments" raw -> Message.attachments m = [])
  /\ (missing "files" raw -> Message.files m = []).

Definition user_defaults (u : dict) (user : User.t) : Prop :=
  (missing "name" u -> User.name user = EmptyString)
  /\ (missing "real_name" u -> User.real_name user = EmptyString)
  /\ (missing "profile" u -> User.display_name user = EmptyString)
  /\ (forall p, dict_lookup "profile" u = Some (JObj p) ->
        missing "display_name" p -> User.display_name user = EmptyString).

Definition channel_defaults (c : dict) (channel : Channel.t) : Prop :=
  (missing "topic" c -> Channel.topic channel = EmptyString)
  /\ (missing "purpose" c -> Channel.purpose channel = EmptyString)
  /\ (forall t, dict_lookup "topic" c = Some (JObj t) ->
        missing "value" t -> Channel.topic channel = EmptyString)
  /\ (forall p, dict_lookup "purpose" c = Some (JObj p) ->
        missing "value" p -> Channel.purpose channel = EmptyString).

Definition attachment_defaults (a : dict) (att : Attachment.t) : Prop :=
  (missing "title" a -> Attachment.title att = EmptyString)
  /\ (missing "fallback" a -> Attachment.fallback att = EmptyString)
  /\ (missing "text" a -> Attachment.text att = EmptyString)
  /\ (missing "from_url" a -> Attachment.from_url att = EmptyString).

Definition file_defaults (f : dict) (file : File.t) : Prop :=
  (missing "name" f -> File.name file = EmptyString)
  /\ (missing "url_private" f -> File.url_private file = EmptyString)
  /\ (missing "permalink" f -> File.permalink file = EmptyString).

(** The user built from the inline profile [p]. *)
Definition profile_defaults (p : dict) (user : User.t) : Prop :=
  (missing "name" p -> User.name user = EmptyString)
  /\ (missing "display_name" p -> User.display_name user = EmptyString)
  /\ (missing "real_name" p -> User.real_name user = EmptyString).

(** The attachments, the files and the inline profile of a parsed message
    record: each attachment and file of the record is parsed in its place
    with its missing fields defaulted; without an inline profile no user is
    added, and the user added from a profile has its missing names
    defaulted. *)
Definition nested_defaults (raw : dict) (m : Message.t) : Prop :=
  (forall l, dict_lookup "attachments" raw = Some (JArr l) ->
     Forall2 (fun a att => exists d, a = JObj d /\ parse_attachment a = Ok att
                                     /\ attachment_defaults d att)
             l (Message.attachments m))
  /\ (forall l, dict_lookup "files" raw = Some (JArr l) ->
        Forall2 (fun f file => exists d, f = JObj d /\ parse_file f = Ok file
                                         /\ file_defaults d file)
                l (Message.files m))
  /\ (missing "user_profile" raw ->
        forall users, (scan_record (JObj raw) users).1 = users)
  /\ (forall p users,
        dict_lookup "user_profile" raw = Some (JObj p) -> p <> [] ->
        Message.user m <> EmptyString -> users !! Message.user m = None ->
        exists user, (scan_record (JObj raw) users).1 = <[Message.user m := user]> users
                     /\ User.id user = Message.user m /\ profile_defaults p user).

(** A message record whose attachment, file and inline profile lack
    fields. *)
Definition sparse_record : dict :=
  [("user", JStr "U777");
   ("attachments", JArr [JObj [("title", JStr "doc")]]);
   ("files", JArr [JObj []]);
   ("user_profile", JObj [("real_name", JStr "Ext User")])].

Definition has_key (key : string) (d : dict) : bool :=
  match dict_lookup key d with
  | Some _ => true
  | None => false
  end.

(** Well-typed records; a user record with its id, a channel record with its
    id and name. *)
Definition message_record (v : json) : bool :=
  match v with
  | JObj raw => typed_message raw
  | _ => false
  end.

Definition complete_user (v : json) : bool :=
  match v with
  | JObj u => typed_user u && has_key "id" u
  | _ => false
  end.

Definition complete_channel (v : json) : bool :=
  match v with
  | JObj c => typed_channel c && has_key "id" c && has_key "name" c
  | _ => false
  end.

(** ** Vocabulary of the statements about the formatters *)

(** The hour of the 12-hour clock without a leading zero. *)
Definition hour_digits (h : Z) : chars :=
  if (h <? 10)%Z then [digit_chr h] else pad2 h.

(** "H:MM AM" or "H:MM PM". *)
Definition clock12 (dt : datetime) : chars :=
  hour_digits (hour12 (hour dt)) ++ str_chars ":" ++ pad2 (minute dt) ++ str_chars " "
  ++ str_chars (if (hour dt <? 12)%Z then "AM" else "PM").

(** The fields of a date of the form YYYY-MM-DD, read back as numbers. *)
Definition date_fields (d : chars) : Z * Z * Z :=
  (digits_val (take 4 d), digits_val (take 2 (drop 5 d)), digits_val (take 2 (drop 8 d))).

(** ** Sample messages and users *)

Definition sample_users : gmap string User.t :=
  <["U001" := alice]>
    (<["U002" := User.mk "U002" "bob" EmptyString "Bob Jones"]>
       (<["U003" := User.mk "U003" EmptyString EmptyString EmptyString]> ∅)).

Definition sample_message (user : string) : Message.t :=
  Message.mk user "hello" "1705307400.000100" EmptyString [] [] [] EmptyString.

(** A table whose only user carries the label "unknown". *)
Definition unknown_users : gmap string User.t :=
  {["U004" := User.mk "U004" "unknown" EmptyString EmptyString]}.

(** ** Vocabulary of the statements about the markup engine *)

(** The tail of a mention token: nothing, or a bar and characters other
    than [>]. *)
Definition mention_tail (tail : chars) : Prop :=
  tail = [] \/ exists junk, tail = "|"%char :: junk /\ forallb not_gt junk = true.

(** [user.label if user else uid] in [replace_user_mention]. *)
Definition mention_label (users : gmap string User.t) (uid : chars) : string :=
  match users !! chars_str uid with
  | Some user => User.label user
  | None => chars_str uid
  end.

Definition no_backtick (l : chars) : Prop := Forall (fun c => c <> backtick) l.

(** A character that no rule of the markup engine reacts to. *)
Definition is_inert (c : ascii) : bool :=
  negb (chr_eqb c "<" || chr_eqb c "*" || chr_eqb c "_" || chr_eqb c "~"
        || chr_eqb c backtick).

(** A table whose only user is labelled with an underscore on either side. *)
Definition underscore_bob : User.t := User.mk "U1" "_bob_" EmptyString EmptyString.
Definition underscore_users : gmap string User.t := {["U1" := underscore_bob]}.

(** The text [l] starts with a user mention token: [<@], an id of one or
    more word characters, nothing or a bar and characters other than [>],
    and [>]. *)
Definition starts_with_mention (l : chars) : Prop :=
  exists uid tail post,
    l = str_chars "<@" ++ uid ++ tail ++ ">"%char :: post
    /\ uid <> [] /\ forallb is_word uid = true /\ mention_tail tail.


(** ** formatter.py: a whole channel

    [messages] is a list of references into the heap [h], as
    [load_channel_messages] returns it. *)

(** The objects that a list of references holds. *)
Definition deref (h : list Message.t) (refs : list ref) : list Message.t :=
  omap (fun r => h !! r) refs.

Definition skipped_subtypes : list string :=
  ["channel_join"; "channel_leave"; "channel_purpose"; "channel_topic";
   "channel_name"; "bot_message"].

Definition is_skipped (msg : Message.t) : bool :=
  bool_decide (Message.subtype msg ∈ skipped_subtypes).

(** A loop whose body may raise, over an accumulator. *)
Fixpoint foldM_result {A S : Type} (f : S -> A -> result S) (s : S) (xs : list A)
  : result S :=
  match xs with
  | [] => Ok s
  | x :: xs' => s' ← f s x; foldM_result f s' xs'
  end.

(** The lines before the first message. *)
Definition channel_header (channel : Channel.t) : list string :=
  ["# #" +:+ Channel.name channel; EmptyString]
  ++ (if truthy (Channel.topic channel)
      then ["**Topic:** " +:+ Channel.topic channel] else [])
  ++ (if truthy (Channel.purpose channel)
      then ["**Purpose:** " +:+ Channel.purpose channel] else [])
  ++ (if truthy (Channel.topic channel) || truthy (Channel.purpose channel)
      then [EmptyString] else []).

(** The lines of the date heading, when [msg_date] opens a new date. *)
Definition date_heading (current_date msg_date : string) : list string :=
  (if truthy current_date then [EmptyString] else [])
  ++ ["---"; EmptyString; "## " +:+ msg_date; EmptyString].

(** The body of [for msg in messages]; the state is [lines] and
    [current_date]. *)
Definition channel_step (h : list Message.t) (users : gmap string User.t)
    (st : list string * string) (msg : Message.t) : result (list string * string) :=
  let '(lines, current_date) := st in
  if is_skipped msg then Ok st
  else
    msg_date ← _format_date (Message.ts msg);
    let '(lines, current_date) :=
      if truthy msg_date && negb (String.eqb msg_date current_date)
      then (lines ++ date_heading current_date msg_date, msg_date)
      else (lines, current_date) in
    block ← format_message msg users false;
    replies ← mapM_result (fun reply => format_message reply users true)
                          (deref h (Message.replies msg));
    Ok (lines ++ [block; EmptyString]
          ++ concat (map (fun b => [b; EmptyString]) replies),
        current_date).

Definition channel_lines (channel : Channel.t) (h : list Message.t)
    (messages : list ref) (users : gmap string User.t) : result (list string) :=
  st ← foldM_result (channel_step h users) (channel_header channel, EmptyString)
                    (deref h messages);
  Ok st.1.

Definition format_channel (channel : Channel.t) (h : list Message.t)
    (messages : list ref) (users : gmap string User.t) : result string :=
  lines ← channel_lines channel h messages users;
  Ok (String.concat (String newline EmptyString) lines).

(** ** cli.py: [main], from the opened archive on

    The console output is left out, except for the set of requested names
    that no channel carries; the documents written are returned as pairs of
    a file name and its content.  Where a channel raises, the result is the
    exception: the documents written before it are not recorded. *)

(** The characters that [str.strip()] removes. *)
Definition is_space (c : ascii) : bool :=
  let n := code c in
  ((9 <=? n)%N && (n <=? 13)%N) || ((28 <=? n)%N && (n <=? 32)%N)
  || (n =? 133)%N || (n =? 160)%N.

(** [s.strip()] *)
Definition py_strip (s : string) : string :=
  chars_str (rev (drop_while is_space (rev (drop_while is_space (str_chars s))))).

(** [{name.strip() for name in args.channels}] *)
Definition requested_names (names : list string) : gset string :=
  list_to_set (py_strip <$> names).

(** The selected channels and the requested names that are missing.
    [args_channels] is [None] when no [--channel] option was given. *)
Definition select_channels (all_channels : list Channel.t)
    (args_channels : option (list string)) : list Channel.t * gset string :=
  match args_channels with
  | Some (name :: names) =>
      let requested := requested_names (name :: names) in
      let selected := filter (fun c => Channel.name c ∈ requested) all_channels in
      (selected, requested ∖ list_to_set (Channel.name <$> selected))
  | _ => (all_channels, ∅)
  end.

(** The body of [for channel in selected]: the name and the content of the
    document. *)
Definition export_channel (zf : archive) (channel : Channel.t)
  : loader (string * string) :=
  '(h, messages) ← load_channel_messages zf (Channel.name channel);
  users ← (fun users => (users, Ok users));
  markdown ← lift (format_channel channel h messages users);
  mret (Channel.name channel +:+ ".md", markdown).

Fixpoint export_channels (zf : archive) (selected : list Channel.t)
  : loader (list (string * string)) :=
  match selected with
  | [] => mret []
  | channel :: selected' =>
      doc ← export_channel zf channel;
      docs ← export_channels zf selected';
      mret (doc :: docs)
  end.

Inductive run : Type :=
| SystemExit (code : Z)
| Exported (documents : list (string * string)) (missing : gset string).

Definition main (zf : archive) (args_channels : option (list string)) : result run :=
  users ← load_users zf;
  all_channels ← load_channels zf;
  match all_channels with
  | [] => Ok (SystemExit 1)
  | _ :: _ =>
      let '(selected, missing) := select_channels all_channels args_channels in
      match selected with
      | [] => Ok (SystemExit 1)
      | _ :: _ =>
          documents ← (export_channels zf selected users).2;
          Ok (Exported documents missing)
      end
  end.

(** ** Vocabulary of the further statements *)

(** Every entry of the table is stored under its own id. *)
Definition keyed_by_id (users : gmap string User.t) : Prop :=
  forall uid u, users !! uid = Some u -> User.id u = uid.

(** A loader that keeps a property of the table, also when it raises. *)
Definition keeps (P : gmap string User.t -> Prop) {A} (c : loader A) : Prop :=
  forall users, P users -> P (c users).1.

(** The records of the users file. *)
Definition users_records (zf : archive) : list json :=
  match first_named "users.json" zf with
  | Some name => match zf_read zf name with
                 | Ok (JArr data) => data
                 | _ => []
                 end
  | None => []
  end.

(** [m] is [m0] up to the replies list. *)
Definition same_content (m m0 : Message.t) : Prop :=
  Message.user m = Message.user m0 /\ Message.text m = Message.text m0
  /\ Message.ts m = Message.ts m0 /\ Message.thread_ts m = Message.thread_ts m0
  /\ Message.attachments m = Message.attachments m0
  /\ Message.files m = Message.files m0
  /\ Message.subtype m = Message.subtype m0.

(** The record [raw] is an object that parses to [m]. *)
Definition parses_to (raw : json) (m : Message.t) : Prop :=
  exists d, raw = JObj d /\ _parse_message d = Ok m.

(** The directory part of a day file's name: nothing, or a path that ends
    in a slash. *)
Definition dir_prefix (dir : chars) : Prop :=
  dir = [] \/ exists x, x <> [] /\ Forall (fun c => c <> newline) x
                        /\ dir = x ++ str_chars "/".

(** An archive with a users file and no other member. *)
Definition users_archive : archive :=
  [("export/users.json",
    JArr [JObj [("id", JStr "U001"); ("name", JStr "old")];
          JObj [("id", JStr "U002"); ("name", JStr "bob")];
          JObj [("id", JStr "U001"); ("name", JStr "alice")]])].

(** The user that the inline profile of the record [raw] describes. *)
Definition profile_user (raw : json) (u : User.t) : Prop :=
  exists d profile,
    raw = JObj d /\ get_dict "user_profile" d = Ok profile /\ profile <> []
    /\ get_str "user" d = Ok (User.id u) /\ User.id u <> EmptyString
    /\ get_str "name" profile = Ok (User.name u)
    /\ get_str "display_name" profile = Ok (User.display_name u)
    /\ get_str "real_name" profile = Ok (User.real_name u).

(** The messages at [refs] stand in ascending order of their sort keys: none
    has a key below the key of one before it. *)
Definition ascending (h : list Message.t) (refs : list ref) : Prop :=
  forall i j ri rj mi mj ki kj,
    i < j -> refs !! i = Some ri -> refs !! j = Some rj ->
    h !! ri = Some mi -> h !! rj = Some mj ->
    sort_key mi = Ok ki -> sort_key mj = Ok kj ->
    float_lt kj ki = false.

(** Two messages with an earlier one later in the day file. *)
Definition unsorted_archive : archive :=
  [("general/2024-01-16.json",
    JArr [raw_message "U001" "third" "1705393800.000" EmptyString]);
   ("general/2024-01-15.json",
    JArr [raw_message "U001" "second" "1705307500.000" EmptyString;
          raw_message "U002" "first" "1705307400.000" EmptyString])].

Definition unsorted_heap : list Message.t :=
  Eval vm_compute in loaded_heap unsorted_archive.

(** A character that is none of the emphasis delimiters. *)
Definition no_marker (c : ascii) : bool :=
  negb (chr_eqb c "*" || chr_eqb c "_" || chr_eqb c "~").

(** Every underscore of the text [l] stands behind a word character;
    [prev] is the character before [l]. *)
Fixpoint underscores_inside (prev : option ascii) (l : chars) : bool :=
  match l with
  | [] => true
  | c :: l' =>
      (negb (chr_eqb c "_") || match prev with Some p => is_word p | None => false end)
      && underscores_inside (Some c) l'
  end.

(** A character that is none of [<], [*], [~] and the backtick. *)
Definition is_plain (c : ascii) : bool :=
  negb (chr_eqb c "<" || chr_eqb c "*" || chr_eqb c "~" || chr_eqb c backtick).

(** The start of a link: "http://" or "https://". *)
Definition link_scheme (s : chars) : Prop :=
  s = str_chars "http://" \/ s = str_chars "https://".

(** The timestamp [ts] converts to a float that [datetime.fromtimestamp]
    rejects with OverflowError. *)
Definition overflows (ts : string) : Prop :=
  exists x, py_float ts = Ok x /\ fromtimestamp_utc x = Raise OverflowError.

(** The reference [r] holds a message that [format_channel] does not skip. *)
Definition shown (h : list Message.t) (r : ref) : bool :=
  match h !! r with
  | Some msg => negb (is_skipped msg)
  | None => false
  end.

(** A join notice with a timestamp that overflows, and a message. *)
Definition notice_heap : list Message.t :=
  [Message.mk "U001" "joined" "inf" EmptyString [] [] [] "channel_join";
   Message.mk "U001" "real message" "1705307401.000100" EmptyString [] [] [] EmptyString].

(** An export with two channels, one of them with a day file. *)
Definition export_archive : archive :=
  [("channels.json",
    JArr [JObj [("id", JStr "C1"); ("name", JStr "general")];
          JObj [("id", JStr "C2"); ("name", JStr "random")]]);
   ("users.json", JArr [JObj [("id", JStr "U001"); ("name", JStr "alice")]]);
   ("general/2024-01-15.json",
    JArr [raw_message "U001" "hello" "1705307400.000" EmptyString])].

(** The name of the document of a channel. *)
Definition document_name (channel : Channel.t) : string := Channel.name channel +:+ ".md".

(** A parent with two replies that stand before it in the day file, the
    later reply first. *)
Definition replies_archive : archive :=
  [("general/2024-01-15.json",
    JArr [raw_message "U002" "later reply" "3" "1";
          raw_message "U002" "earlier reply" "2" "1";
          raw_message "U001" "parent" "1" EmptyString])].

Definition replies_heap : list Message.t :=
  Eval vm_compute in loaded_heap replies_archive.

(** * Properties *)

(** ** The sort *)

Section SortFacts.
Context {A K : Type} (key : A -> K) (lt : K -> K -> bool).

Lemma insert_rev_Permutation x racc : insert_rev key lt x racc ≡ₚ x :: racc.
Proof.
  induction racc as [|y r IH]; simpl; [done|].
  destruct (lt (key x) (key y)); [|done].
  rewrite IH. apply Permutation_swap.
Qed.

Lemma foldl_insert_rev_Permutation l racc :
  foldl (fun racc x => insert_rev key lt x racc) racc l ≡ₚ l ++ racc.
Proof.
  revert racc. induction l as [|x l IH]; intros racc; simpl; [done|].
  rewrite IH, insert_rev_Permutation. by rewrite Permutation_middle.
Qed.

Lemma py_sort_Permutation l : py_sort key lt l ≡ₚ l.
Proof.
  unfold py_sort. rewrite <- Permutation_rev, foldl_insert_rev_Permutation.
  by rewrite app_nil_r.
Qed.

(** A list in which no key is below the key of its predecessor is one run:
    the sort returns it as it is. *)
Lemma foldl_insert_rev_run l racc :
(forall x y, head racc = Some y -> head l = Some x -> lt (key x) (key y) = false) ->
(forall i x y, l !! i = Some x -> l !! S i = Some y -> lt (key y) (key x) = false) ->
foldl (fun racc x => insert_rev key lt x racc) racc l = rev l ++ racc.
Proof.
revert racc. induction l as [|x l IH]; intros racc Hhd Hadj; simpl; [done|].
assert (insert_rev key lt x racc = x :: racc) as ->.
{ destruct racc as [|y r]; simpl; [done|]. by rewrite (Hhd x y). }
rewrite IH, <- app_assoc; [done| |].
- intros x' y' [= <-] Hx'. apply (Hadj 0); [done|]. by destruct l; simplify_eq/=.
- intros i x' y' ??. by apply (Hadj (S i)).
Qed.

Lemma py_sort_run l :
(forall i x y, l !! i = Some x -> l !! S i = Some y -> lt (key y) (key x) = false) ->
py_sort key lt l = l.
Proof.
intros Hadj. unfold py_sort. rewrite foldl_insert_rev_run; [|done|done].
by rewrite app_nil_r, rev_involutive.
Qed.

Section Ordered.
Variable good : K -> Prop.
Hypothesis lt_asym : forall a b, good a -> good b -> lt a b = true -> lt b a = false.
Hypothesis ge_trans : forall a b c, good a -> good b -> good c ->
  lt b a = false -> lt c b = false -> lt c a = false.

Lemma insert_rev_sorted x racc :
  good (key x) -> Forall (fun y => good (key y)) racc ->
  StronglySorted (flip (key_le key lt)) racc ->
  StronglySorted (flip (key_le key lt)) (insert_rev key lt x racc).
Proof.
  intros Hx Hgood Hs. induction Hs as [|y r Hs IH Hall]; simpl.
  - repeat constructor.
  - apply Forall_cons in Hgood as [Hy Hr].
    destruct (lt (key x) (key y)) eqn:Hlt.
    + constructor; [by apply IH|].
      rewrite insert_rev_Permutation. constructor; [|done].
      unfold flip, key_le. by apply lt_asym.
    + constructor; [by constructor|].
      constructor; [done|].
      rewrite Forall_forall in Hall, Hr. apply Forall_forall. intros z Hz.
      unfold flip, key_le in *.
      apply (ge_trans _ (key y)); auto.
Qed.

Lemma foldl_insert_rev_sorted l racc :
  Forall (fun y => good (key y)) l -> Forall (fun y => good (key y)) racc ->
  StronglySorted (flip (key_le key lt)) racc ->
  StronglySorted (flip (key_le key lt)) (foldl (fun racc x => insert_rev key lt x racc) racc l).
Proof.
  revert racc. induction l as [|x l IH]; intros racc Hl Hr Hs; simpl; [done|].
  apply Forall_cons in Hl as [Hx Hl]. apply IH; [done| |by apply insert_rev_sorted].
  rewrite insert_rev_Permutation. by constructor.
Qed.

Lemma StronglySorted_rev (R : relation A) l :
  StronglySorted (flip R) l -> StronglySorted R (rev l).
Proof.
  induction 1 as [|x l Hs IH Hall]; simpl; [constructor|].
  apply StronglySorted_app_2; [|done|repeat constructor].
  intros y z Hy ->%list_elem_of_singleton.
  rewrite Forall_forall in Hall. apply Hall.
  by apply list_elem_of_In, in_rev, list_elem_of_In.
Qed.

Lemma py_sort_sorted l :
  Forall (fun y => good (key y)) l -> StronglySorted (key_le key lt) (py_sort key lt l).
Proof.
  intros Hl. apply StronglySorted_rev, foldl_insert_rev_sorted; [done|done|constructor].
Qed.
End Ordered.
End SortFacts.

Lemma StronglySorted_sublist {A} (R : relation A) l1 l2 :
  l1 `sublist_of` l2 -> StronglySorted R l2 -> StronglySorted R l1.
Proof.
  induction 1 as [|x l1 l2 Hsub IH|x l1 l2 Hsub IH]; intros Hs.
  - constructor.
  - apply StronglySorted_inv in Hs as [Hs Hall]. constructor; [by apply IH|].
    rewrite Forall_forall in Hall. apply Forall_forall. intros y Hy.
    apply Hall. by eapply sublist_subseteq.
  - apply StronglySorted_inv in Hs as [Hs _]. by apply IH.
Qed.

Lemma float_lt_asym a b : float_lt a b = true -> float_lt b a = false.
Proof. destruct a as [|[]|x], b as [|[]|y]; simpl; try done. lia. Qed.

Lemma float_ge_trans a b c :
  a <> FNaN -> b <> FNaN -> c <> FNaN ->
  float_lt b a = false -> float_lt c b = false -> float_lt c a = false.
Proof. destruct a as [|[]|x], b as [|[]|y], c as [|[]|z]; simpl; try done. lia. Qed.

(** ** Thread assembly *)

Lemma is_reply_static m m0 : same_static m m0 -> is_reply m = is_reply m0.
Proof. intros [Hts Htts]. unfold is_reply. by rewrite Hts, Htts. Qed.

Lemma same_static_append r m m0 :
  same_static m m0 -> same_static (Message.append_reply r m) m0.
Proof. by intros [??]. Qed.

Lemma replies_of_alter h p r t :
  p < length h ->
  replies_of (alter (Message.append_reply r) p h) t =
  if decide (t = p) then replies_of h p ++ [r] else replies_of h t.
Proof.
  intros Hp. unfold replies_of. destruct (decide (t = p)) as [->|Hne].
  - rewrite list_lookup_alter_eq.
    destruct (lookup_lt_is_Some_2 h p Hp) as [m Hm]. by rewrite Hm.
  - by rewrite list_lookup_alter_ne.
Qed.

Lemma total_replies_alter h p r top :
  p < length h -> NoDup top -> p ∈ top ->
  total_replies (alter (Message.append_reply r) p h) top = S (total_replies h top).
Proof.
  intros Hp. unfold total_replies. induction top as [|t top IH]; intros Hnd Hin.
  - by apply elem_of_nil in Hin.
  - apply NoDup_cons in Hnd as [Hnotin Hnd]. simpl.
    rewrite replies_of_alter by done.
    destruct (decide (t = p)) as [->|Hne].
    + rewrite length_app. simpl.
      assert (sum_list_with (fun t => length (replies_of (alter (Message.append_reply r) p h) t)) top
              = sum_list_with (fun t => length (replies_of h t)) top) as ->; [|lia].
      clear IH Hin Hnd. induction top as [|t top IH]; [done|]. simpl.
      apply not_elem_of_cons in Hnotin as [Hne Hnotin].
      rewrite replies_of_alter by done.
      destruct (decide (t = p)); [congruence|]. by rewrite IH.
    + apply elem_of_cons in Hin as [->|Hin]; [done|]. rewrite IH by done. lia.
Qed.

Lemma registered_app h done extra i key :
  i <= length done -> registered h (done ++ extra) i key <-> registered h done i key.
Proof.
  intros Hi. unfold registered. split.
  - intros (j & p & mp & Hj & Hlook & Hrest). exists j, p, mp.
    rewrite lookup_app_l in Hlook by lia. done.
  - intros (j & p & mp & Hj & Hlook & Hrest). exists j, p, mp.
    rewrite lookup_app_l by lia. done.
Qed.

Lemma assembly_inv_init h0 :
  Forall (fun m => Message.replies m = []) h0 ->
  assembly_inv h0 [] (mk_assembly h0 [] ∅).
Proof.
  intros Hempty.
  assert (forall t r, r ∈ replies_of h0 t -> False) as Hno.
  { intros t r. unfold replies_of. destruct (h0 !! t) as [m|] eqn:Hm; simpl.
    - rewrite Forall_forall in Hempty. rewrite (Hempty m).
      + by intros ?%elem_of_nil.
      + by eapply list_elem_of_lookup_2.
    - by intros ?%elem_of_nil. }
  split; simpl.
  - apply Forall_Forall2_diag, Forall_true. done.
  - by intros r ?%elem_of_nil.
  - constructor.
  - intros t r Hr. by destruct (Hno t r).
  - intros k p. by rewrite lookup_empty.
  - by intros p m ?%elem_of_nil.
  - done.
  - intros t. destruct (replies_of h0 t) as [|r l] eqn:Hl; [done|].
    destruct (Hno t r). rewrite Hl. by left.
  - intros i r m. by rewrite lookup_nil.
Qed.

Lemma assembly_inv_step h0 done st r :
  assembly_inv h0 done st -> r ∉ done -> r < length h0 ->
  assembly_inv h0 (done ++ [r]) (assemble_step st r).
Proof.
  intros [Hstatic Htop Hnd Hrep Hpar Hreg Hcount Hsub Hplaced] Hfresh Hlt.
  assert (length (heap st) = length h0) as Hlen by by eapply Forall2_length.
  destruct (lookup_lt_is_Some_2 (heap st) r) as [m Hm]; [lia|].
  destruct (lookup_lt_is_Some_2 h0 r Hlt) as [m0 Hm0].
  assert (same_static m m0) as Hmm0 by by eapply Forall2_lookup_lr.
  assert (r ∉ top_level st) as Hrtop by (intros ?; by apply Hfresh, Htop).
  assert (forall t, r ∉ replies_of (heap st) t) as Hrrep.
  { intros t Hin. by apply Hrep in Hin as [? _]. }
  assert (replies_of (heap st) r = []) as Hrempty.
  { destruct (replies_of (heap st) r) as [|x l] eqn:Hl; [done|].
    destruct (Hrep r x) as (_ & ? & _); [rewrite Hl; by left|done]. }
  assert (forall i r', done !! i = Some r' -> r' <> r) as Hne.
  { intros i r' Hi ->. apply Hfresh. by eapply list_elem_of_lookup_2. }
  unfold assemble_step. rewrite Hm.
  destruct (is_reply m) eqn:Hisr; simpl.
  - (* a reply *)
    destruct (parents st !! Message.thread_ts m) as [p|] eqn:Hp.
    + (* appended to the replies of its parent *)
      destruct (Hpar _ _ Hp) as (Hptop & mp & Hmp & Hpnr & Hpts).
      assert (p < length (heap st)) as Hplt.
      { rewrite Hlen. apply lookup_lt_is_Some. eauto. }
      split; simpl.
      * apply Forall2_alter_l; [done|]. intros x y _ _. apply same_static_append.
      * intros r' Hr'. apply elem_of_app. left. by apply Htop.
      * done.
      * intros t r'. rewrite replies_of_alter by done.
        destruct (decide (t = p)) as [->|Hnep].
        -- intros [Hin| ->%list_elem_of_singleton]%elem_of_app.
           ++ destruct (Hrep _ _ Hin) as (? & ? & ? & ?). split_and!; try done.
              apply elem_of_app; by left.
           ++ split_and!; [apply elem_of_app; right; by left|done| |by eauto].
              exists m0. split; [done|]. by rewrite <- (is_reply_static m m0).
        -- intros Hin. destruct (Hrep _ _ Hin) as (? & ? & ? & ?). split_and!; try done.
           apply elem_of_app; by left.
      * done.
      * intros p' m' [Hin| ->%list_elem_of_singleton]%elem_of_app Hm' Hnr.
        -- by eapply Hreg.
        -- simplify_eq. rewrite (is_reply_static m m0) in Hisr by done. congruence.
      * rewrite total_replies_alter by done. rewrite length_app. simpl. lia.
      * intros t. rewrite replies_of_alter by done.
        destruct (decide (t = p)) as [->|Hnep].
        -- by apply sublist_app.
        -- by apply sublist_inserts_r.
      * intros i r' m' Hi Hm' Hr'.
        apply lookup_snoc_Some in Hi as [[Hi Hlook]|[-> ->]].
        -- rewrite registered_app by lia.
           assert (r' <> r) as Hr'r by by eapply Hne.
           destruct (Hplaced _ _ _ Hlook Hm' Hr') as
             [(Hregd & Hnot & t & Ht & Hin & Huniq)|(Hnreg & Hin & Hnone)]; [left|right].
           ++ split_and!; [done|done|]. exists t. split_and!; [done| |].
              ** rewrite replies_of_alter by done.
                 destruct (decide (t = p)) as [->|]; [|done]. apply elem_of_app; by left.
              ** intros t'. rewrite replies_of_alter by done.
                 destruct (decide (t' = p)) as [->|]; [|by apply Huniq].
                 intros [?| ->%list_elem_of_singleton]%elem_of_app; [by apply Huniq|done].
           ++ split_and!; [done|done|]. intros t'.
              rewrite replies_of_alter by done.
              destruct (decide (t' = p)) as [->|]; [|by apply Hnone].
              intros [?| ->%list_elem_of_singleton]%elem_of_app; [by eapply Hnone|done].
        -- simplify_eq. left. split_and!.
           ++ apply list_elem_of_lookup in Hptop as [j Hj].
              pose proof (Htop p (list_elem_of_lookup_2 _ _ _ Hj)) as [j' Hj']%list_elem_of_lookup.
              exists j', p, mp. split_and!; try done.
              ** by eapply lookup_lt_Some.
              ** rewrite lookup_app_l; [done|]. by eapply lookup_lt_Some.
              ** destruct Hmm0 as [_ <-]. done.
           ++ done.
           ++ exists p. split_and!; [done| |].
              ** rewrite replies_of_alter by done. rewrite decide_True by done.
                 apply elem_of_app; right; by left.
              ** intros t'. rewrite replies_of_alter by done.
                 destruct (decide (t' = p)) as [->|]; [done|]. intros Hin. by destruct (Hrrep t').
    + (* an orphan *)
      split; simpl.
      * done.
      * intros r' [?| ->%list_elem_of_singleton]%elem_of_app; apply elem_of_app;
          [left; by apply Htop|right; by left].
      * apply NoDup_app. split_and!; [done| |apply NoDup_singleton].
        intros x Hx ->%list_elem_of_singleton. done.
      * intros t r' Hin. destruct (Hrep _ _ Hin) as (? & ? & ? & ?).
        split_and!; try done; apply elem_of_app; by left.
      * intros k p Hk. destruct (Hpar _ _ Hk) as [? ?]. split; [|done].
        apply elem_of_app; by left.
      * intros p' m' [Hin| ->%list_elem_of_singleton]%elem_of_app Hm' Hnr.
        -- by eapply Hreg.
        -- simplify_eq. rewrite (is_reply_static m m0) in Hisr by done. congruence.
      * unfold total_replies in *. rewrite sum_list_with_app, !length_app. simpl.
        rewrite Hrempty. simpl. lia.
      * intros t. by apply sublist_inserts_r.
      * intros i r' m' Hi Hm' Hr'.
        apply lookup_snoc_Some in Hi as [[Hi Hlook]|[-> ->]].
        -- rewrite registered_app by lia.
           assert (r' <> r) as Hr'r by by eapply Hne.
           destruct (Hplaced _ _ _ Hlook Hm' Hr') as
             [(Hregd & Hnot & t & Ht & Hin & Huniq)|(Hnreg & Hin & Hnone)]; [left|right].
           ++ split_and!; [done| |].
              ** intros [?| ->%list_elem_of_singleton]%elem_of_app; done.
              ** exists t. split_and!; [apply elem_of_app; by left|done|done].
           ++ split_and!; [done|apply elem_of_app; by left|done].
        -- simplify_eq. right. split_and!; [|apply elem_of_app; right; by left|done].
           intros (j & p & mp & Hj & Hlook & Hmp & Hnr & Hts).
           rewrite lookup_app_l in Hlook by lia.
           destruct (Hreg p mp) as [x Hx]; [by eapply list_elem_of_lookup_2|done|done|].
           destruct Hmm0 as [_ Htts]. rewrite Hts, <- Htts, Hp in Hx. done.
  - (* not a reply: top level, and registered as a parent *)
    assert (is_reply m0 = false) as Hnr0 by by rewrite <- (is_reply_static m m0).
    split; simpl.
    * done.
    * intros r' [?| ->%list_elem_of_singleton]%elem_of_app; apply elem_of_app;
        [left; by apply Htop|right; by left].
    * apply NoDup_app. split_and!; [done| |apply NoDup_singleton].
      intros x Hx ->%list_elem_of_singleton. done.
    * intros t r' Hin. destruct (Hrep _ _ Hin) as (? & ? & ? & ?).
      split_and!; try done; apply elem_of_app; by left.
    * intros k p. rewrite lookup_insert. case_decide as Hk.
      -- intros [= <-]. split; [apply elem_of_app; right; by left|].
         exists m0. split_and!; [done|done|]. destruct Hmm0 as [<- _]. done.
      -- intros Hk'. destruct (Hpar _ _ Hk') as [? ?]. split; [|done].
         apply elem_of_app; by left.
    * intros p' m' [Hin| ->%list_elem_of_singleton]%elem_of_app Hm' Hnr.
      -- rewrite lookup_insert. case_decide; [by eauto|]. by eapply Hreg.
      -- simplify_eq. destruct Hmm0 as [-> _]. rewrite lookup_insert_eq. by eauto.
    * unfold total_replies in *. rewrite sum_list_with_app, !length_app. simpl.
      rewrite Hrempty. simpl. lia.
    * intros t. by apply sublist_inserts_r.
    * intros i r' m' Hi Hm' Hr'.
      apply lookup_snoc_Some in Hi as [[Hi Hlook]|[-> ->]].
      -- rewrite registered_app by lia.
         assert (r' <> r) as Hr'r by by eapply Hne.
         destruct (Hplaced _ _ _ Hlook Hm' Hr') as
           [(Hregd & Hnot & t & Ht & Hin & Huniq)|(Hnreg & Hin & Hnone)]; [left|right].
         ++ split_and!; [done| |].
            ** intros [?| ->%list_elem_of_singleton]%elem_of_app; done.
            ** exists t. split_and!; [apply elem_of_app; by left|done|done].
         ++ split_and!; [done|apply elem_of_app; by left|done].
      -- rewrite Hm0 in Hm'. injection Hm' as <-. congruence.
Qed.

Lemma assembly_inv_assemble h0 order :
  Forall (fun m => Message.replies m = []) h0 ->
  NoDup order -> (forall r, r ∈ order -> r < length h0) ->
  assembly_inv h0 order (assemble h0 order).
Proof.
  intros Hempty. unfold assemble.
  induction order as [|r done IH] using rev_ind; intros Hnd Hlt.
  - by apply assembly_inv_init.
  - rewrite foldl_snoc. apply NoDup_app in Hnd as (Hnd & Hdisj & _).
    apply assembly_inv_step.
    + apply IH; [done|]. intros r' Hr'. apply Hlt, elem_of_app. by left.
    + intros Hin. apply (Hdisj r Hin). by left.
    + apply Hlt, elem_of_app. right. by left.
Qed.

(** ** The loaders *)

Lemma bind_Ok {A B} (r : result A) (k : A -> result B) b :
  (x ← r; k x) = Ok b -> exists a, r = Ok a /\ k a = Ok b.
Proof. destruct r as [a|e]; [|done]. intros H. by exists a. Qed.

Lemma loader_bind_Ok {A B} (c : loader A) (k : A -> loader B) users users' b :
  (x ← c; k x) users = (users', Ok b) ->
  exists a users1, c users = (users1, Ok a) /\ k a users1 = (users', Ok b).
Proof.
  unfold mbind, loader_bind. destruct (c users) as [users1 [a|e]]; [|done].
  intros H. by exists a, users1.
Qed.

Lemma lift_Ok {A} (r : result A) users users' a :
  lift r users = (users', Ok a) -> users' = users /\ r = Ok a.
Proof. unfold lift. by intros [= -> ->]. Qed.

Lemma extends_ret {A} (a : A) : extends_table (mret a : loader A).
Proof. intros users. done. Qed.

Lemma extends_lift {A} (r : result A) : extends_table (lift r).
Proof. intros users. done. Qed.

Lemma extends_bind {A B} (c : loader A) (k : A -> loader B) :
  extends_table c -> (forall a, extends_table (k a)) -> extends_table (x ← c; k x).
Proof.
  intros Hc Hk users. unfold mbind, loader_bind.
  specialize (Hc users). destruct (c users) as [users1 [a|e]]; simpl in *; [|done].
  etrans; [done|]. apply Hk.
Qed.

Lemma extends_scan_record raw : extends_table (scan_record raw).
Proof.
  unfold scan_record.
  apply extends_bind; [apply extends_lift|intros d].
  apply extends_bind; [apply extends_lift|intros msg].
  apply extends_bind; [apply extends_lift|intros uid].
  intros users. unfold mbind at 1, loader_bind at 1, contains_user.
  destruct (bool_decide (is_Some (users !! uid))) eqn:Hknown.
  - rewrite andb_false_r. done.
  - apply bool_decide_eq_false in Hknown. apply eq_None_not_Some in Hknown.
    destruct (truthy uid); simpl; [|done].
    unfold mbind, loader_bind, lift, mret, loader_ret, set_user.
    repeat (case_match; simplify_eq/=; try done).
    by apply insert_subseteq.
Qed.

Lemma extends_scan_records data : extends_table (scan_records data).
Proof.
  induction data as [|raw data IH]; simpl; [apply extends_ret|].
  apply extends_bind; [apply extends_scan_record|intros msg].
  apply extends_bind; [done|intros msgs]. apply extends_ret.
Qed.

Lemma extends_scan_files zf files : extends_table (scan_files zf files).
Proof.
  induction files as [|[d path] files IH]; simpl; [apply extends_ret|].
  apply extends_bind; [apply extends_lift|intros data].
  apply extends_bind; [apply extends_lift|intros l].
  apply extends_bind; [apply extends_scan_records|intros msgs].
  apply extends_bind; [done|intros more]. apply extends_ret.
Qed.

Lemma extends_load_channel_messages zf channel_name :
  extends_table (load_channel_messages zf channel_name).
Proof.
  unfold load_channel_messages.
  apply extends_bind; [apply extends_scan_files|intros all].
  apply extends_bind; [apply extends_lift|intros sorted]. apply extends_ret.
Qed.

Lemma _parse_message_replies raw m : _parse_message raw = Ok m -> Message.replies m = [].
Proof.
  unfold _parse_message. intros H.
  repeat (apply bind_Ok in H as (? & _ & H)). by injection H as <-.
Qed.

Lemma scan_record_replies raw users users' m :
  scan_record raw users = (users', Ok m) -> Message.replies m = [].
Proof.
  unfold scan_record. intros H.
  apply loader_bind_Ok in H as (d & u1 & _ & H).
  apply loader_bind_Ok in H as (msg & u2 & [_ Hmsg]%lift_Ok & H).
  apply loader_bind_Ok in H as (uid & u3 & _ & H).
  apply loader_bind_Ok in H as (known & u4 & _ & H).
  apply loader_bind_Ok in H as (? & u5 & _ & H).
  injection H as _ <-. by eapply _parse_message_replies.
Qed.

Lemma scan_records_spec data users users' msgs :
  scan_records data users = (users', Ok msgs) ->
  length msgs = length data /\ Forall (fun m => Message.replies m = []) msgs.
Proof.
  revert users users' msgs. induction data as [|raw data IH]; intros users users' msgs; simpl.
  - intros [= _ <-]. by split.
  - intros H.
    apply loader_bind_Ok in H as (m & u1 & Hm & H).
    apply loader_bind_Ok in H as (ms & u2 & Hms & H).
    injection H as _ <-. destruct (IH _ _ _ Hms) as [Hlen Hall]. split; simpl.
    + by rewrite Hlen.
    + constructor; [by eapply scan_record_replies|done].
Qed.

Lemma scan_files_spec zf files users users' msgs :
  scan_files zf files users = (users', Ok msgs) ->
  length msgs = length (input_records zf files)
  /\ Forall (fun m => Message.replies m = []) msgs.
Proof.
  revert users users' msgs. induction files as [|[d path] files IH]; intros users users' msgs; simpl.
  - intros [= _ <-]. by split.
  - intros H.
    apply loader_bind_Ok in H as (data & u1 & [-> Hread]%lift_Ok & H).
    apply loader_bind_Ok in H as (l & u2 & [-> Hl]%lift_Ok & H).
    apply loader_bind_Ok in H as (ms & u3 & Hms & H).
    apply loader_bind_Ok in H as (more & u4 & Hmore & H).
    injection H as _ <-.
    destruct (scan_records_spec _ _ _ _ Hms) as [Hlen Hall].
    destruct (IH _ _ _ Hmore) as [Hlen' Hall'].
    rewrite Hread. destruct data; simplify_eq/=.
    split; [by rewrite !length_app, Hlen, Hlen'|by apply Forall_app].
Qed.

Lemma mapM_result_Forall2 {A B} (f : A -> result B) xs ys :
  mapM_result f xs = Ok ys -> Forall2 (fun x y => f x = Ok y) xs ys.
Proof.
  revert ys. induction xs as [|x xs IH]; intros ys; simpl.
  - intros [= <-]. constructor.
  - intros H. apply bind_Ok in H as (y & Hy & H).
    apply bind_Ok in H as (ys' & Hys & H). injection H as <-.
    constructor; [done|by apply IH].
Qed.

(** The pass order is a permutation of the references, and ascending in the
    sort keys when none of them is NaN. *)
Lemma sort_messages_spec all order :
  sort_messages all = Ok order ->
  order ≡ₚ seq 0 (length all)
  /\ exists keys,
       Forall2 (fun m k => sort_key m = Ok k) all keys
       /\ (Forall (fun k => k <> FNaN) keys ->
           StronglySorted (fun r1 r2 => forall k1 k2,
              keys !! r1 = Some k1 -> keys !! r2 = Some k2 -> float_lt k2 k1 = false) order).
Proof.
  unfold sort_messages. intros H. apply bind_Ok in H as (keys & Hkeys & H).
  injection H as <-. apply mapM_result_Forall2 in Hkeys.
  assert (length keys = length all) as Hlen by (symmetry; by eapply Forall2_length).
  split.
  - rewrite py_sort_Permutation. rewrite snd_zip; [done|]. rewrite length_seq. lia.
  - exists keys. split; [done|]. intros Hgood.
    set (pairs := zip keys (seq 0 (length all))).
    assert (forall k r, (k, r) ∈ pairs -> keys !! r = Some k) as Hpairs.
    { intros k r [i Hi]%list_elem_of_lookup. unfold pairs in Hi.
      apply lookup_zip_Some in Hi as [Hk Hr]. apply lookup_seq in Hr as [-> _]. done. }
    assert (StronglySorted (key_le fst float_lt) (py_sort fst float_lt pairs)) as Hs.
    { apply (py_sort_sorted fst float_lt (fun k => k <> FNaN)).
      - intros a b _ _. apply float_lt_asym.
      - apply float_ge_trans.
      - apply Forall_forall. intros [k r] Hin. simpl.
        rewrite Forall_forall in Hgood. apply Hgood.
        eapply list_elem_of_lookup_2, Hpairs, Hin. }
    assert (Forall (fun p => p ∈ pairs) (py_sort fst float_lt pairs)) as Hin.
    { apply Forall_forall. intros p. by rewrite py_sort_Permutation. }
    induction Hs as [|[k r] l Hs IH Hall]; simpl; [constructor|].
    apply Forall_cons in Hin as [Hp Hin]. constructor; [by apply IH|].
    apply Forall_fmap, Forall_forall. intros [k' r'] Hr'. simpl.
    intros k1 k2 Hk1 Hk2.
    rewrite Forall_forall in Hall, Hin.
    specialize (Hall _ Hr'). unfold key_le in Hall. simpl in Hall.
    rewrite (Hpairs _ _ Hp) in Hk1. rewrite (Hpairs _ _ (Hin _ Hr')) in Hk2.
    by simplify_eq.
Qed.

Lemma load_channel_messages_Ok zf channel_name users users' h top :
  load_channel_messages zf channel_name users = (users', Ok (h, top)) ->
  exists all order,
    scan_files zf (date_files zf channel_name) users = (users', Ok all)
    /\ sort_messages all = Ok order
    /\ h = heap (assemble all order) /\ top = top_level (assemble all order).
Proof.
  unfold load_channel_messages. intros H.
  apply loader_bind_Ok in H as (all & u1 & Hall & H).
  apply loader_bind_Ok in H as (order & u2 & [-> Horder]%lift_Ok & H).
  injection H as <- <- <-. by exists all, order.
Qed.

(** The invariant of the pass, at the result of a load. *)
Lemma load_channel_messages_inv zf channel_name users users' h top :
  load_channel_messages zf channel_name users = (users', Ok (h, top)) ->
  exists all order,
    scan_files zf (date_files zf channel_name) users = (users', Ok all)
    /\ sort_messages all = Ok order
    /\ order ≡ₚ seq 0 (length all)
    /\ assembly_inv all order (mk_assembly h top (parents (assemble all order))).
Proof.
  intros (all & order & Hscan & Hsort & -> & ->)%load_channel_messages_Ok.
  exists all, order. destruct (sort_messages_spec _ _ Hsort) as [Hperm _].
  split_and!; [done|done|done|].
  destruct (scan_files_spec _ _ _ _ _ Hscan) as [_ Hempty].
  pose proof (assembly_inv_assemble all order Hempty) as Hinv.
  destruct (assemble all order) as [h top ps]. apply Hinv.
  - rewrite Hperm. apply NoDup_seq.
  - intros r. rewrite Hperm, elem_of_seq. lia.
Qed.

(** *** The load for every arrangement of the sort *)

Lemma py_sort_rearranges {A K} (key : A -> K) (lt : K -> K -> bool) :
  rearranges (py_sort key lt).
Proof. intros l. apply py_sort_Permutation. Qed.

Lemma sort_messages_by_py_sort all :
  sort_messages all = sort_messages_by (py_sort fst float_lt) all.
Proof. reflexivity. Qed.

Lemma load_channel_messages_by_py_sort zf channel_name users :
  load_channel_messages zf channel_name users
  = load_channel_messages_by (py_sort fst float_lt) zf channel_name users.
Proof. reflexivity. Qed.

Lemma sort_messages_by_Permutation algo all order :
  rearranges algo -> sort_messages_by algo all = Ok order ->
  order ≡ₚ seq 0 (length all).
Proof.
  intros Halgo. unfold sort_messages_by. intros (keys & Hkeys & [= <-])%bind_Ok.
  apply mapM_result_Forall2, Forall2_length in Hkeys.
  rewrite Halgo. rewrite snd_zip; [done|]. rewrite length_seq. lia.
Qed.

Lemma load_channel_messages_by_Ok algo zf channel_name users users' h top :
  load_channel_messages_by algo zf channel_name users = (users', Ok (h, top)) ->
  exists all order,
    scan_files zf (date_files zf channel_name) users = (users', Ok all)
    /\ sort_messages_by algo all = Ok order
    /\ h = heap (assemble all order) /\ top = top_level (assemble all order).
Proof.
  unfold load_channel_messages_by. intros H.
  apply loader_bind_Ok in H as (all & u1 & Hall & H).
  apply loader_bind_Ok in H as (order & u2 & [-> Horder]%lift_Ok & H).
  injection H as <- <- <-. by exists all, order.
Qed.

(** The invariant of the pass, at the result of a load. *)
Lemma load_channel_messages_by_inv algo zf channel_name users users' h top :
  rearranges algo ->
  load_channel_messages_by algo zf channel_name users = (users', Ok (h, top)) ->
  exists all order,
    scan_files zf (date_files zf channel_name) users = (users', Ok all)
    /\ sort_messages_by algo all = Ok order
    /\ order ≡ₚ seq 0 (length all)
    /\ assembly_inv all order (mk_assembly h top (parents (assemble all order))).
Proof.
  intros Halgo (all & order & Hscan & Hsort & -> & ->)%load_channel_messages_by_Ok.
  pose proof (sort_messages_by_Permutation _ _ _ Halgo Hsort) as Hperm.
  exists all, order. split_and!; [done|done|done|].
  destruct (scan_files_spec _ _ _ _ _ Hscan) as [_ Hfresh].
  pose proof (assembly_inv_assemble all order Hfresh) as Hinv.
  destruct (assemble all order) as [h top parents] eqn:Hst. simpl. apply Hinv.
  - rewrite Hperm. apply NoDup_seq.
  - intros r Hr. rewrite Hperm in Hr. apply elem_of_seq in Hr. lia.
Qed.

Lemma registered_static h h0 order i key :
  Forall2 same_static h h0 -> registered h0 order i key <-> registered h order i key.
Proof.
  intros Hst. unfold registered. split.
  - intros (j & p & mp & Hj & Hlook & Hmp & Hnr & Hts).
    destruct (Forall2_lookup_r _ _ _ _ _ Hst Hmp) as (m & Hm & Hmm).
    exists j, p, m. split_and!; try done.
    + by rewrite (is_reply_static m mp).
    + destruct Hmm as [-> _]. done.
  - intros (j & p & m & Hj & Hlook & Hm & Hnr & Hts).
    destruct (Forall2_lookup_l _ _ _ _ _ Hst Hm) as (mp & Hmp & Hmm).
    exists j, p, mp. split_and!; try done.
    + by rewrite <- (is_reply_static m mp).
    + destruct Hmm as [<- _]. done.
Qed.

Lemma sort_key_static m m0 : same_static m m0 -> sort_key m = sort_key m0.
Proof. intros [Hts _]. unfold sort_key. by rewrite Hts. Qed.

Lemma StronglySorted_lookup {A} (R : relation A) l i j x y :
  StronglySorted R l -> i < j -> l !! i = Some x -> l !! j = Some y -> R x y.
Proof.
  intros Hs. revert i j. induction Hs as [|z l Hs IH Hall]; intros i j Hij Hi Hj.
  - by rewrite lookup_nil in Hi.
  - destruct j as [|j]; [lia|]. destruct i as [|i]; simpl in *.
    + injection Hi as ->. rewrite Forall_forall in Hall.
      apply Hall. by eapply list_elem_of_lookup_2.
    + apply (IH i j); [lia|done|done].
Qed.

(** ** The claims about [load_channel_messages] *)

(** C1.  For every input and every arrangement [algo] of the sort: after a
    load, every message classified as a reply (its thread_ts is non-empty
    and differs from its ts) is in exactly one place.  If a message with ts
    equal to its thread_ts was registered as a parent before it in the
    sorted pass, it is in the replies of exactly one message, which is one
    of the distinct top-level messages, and it is not in the top-level list;
    otherwise it is in the top-level list and in no replies list.  No
    replies list holds a message twice. *)
Theorem reply_placed_once (algo : list (pyfloat * ref) -> list (pyfloat * ref))
    zf channel_name users users' h top :
  rearranges algo ->
  load_channel_messages_by algo zf channel_name users = (users', Ok (h, top)) ->
  exists all order,
    scan_files zf (date_files zf channel_name) users = (users', Ok all)
    /\ sort_messages_by algo all = Ok order
    /\ NoDup top
    /\ (forall t, NoDup (replies_of h t))
    /\ placed_once h top order.
Proof.
  intros Halgo (all & order & Hscan & Hsort & Hperm & Hinv)%load_channel_messages_by_inv;
    [|done].
  exists all, order. split_and!; [done|done|apply Hinv| |].
  { intros t. apply (sublist_NoDup _ order).
    - rewrite Hperm. apply NoDup_seq.
    - apply (inv_sub _ _ _ Hinv t). }
  destruct Hinv as [Hstatic _ _ _ _ _ _ _ Hplaced]. simpl in *.
  intros r m Hm Hr.
  destruct (Forall2_lookup_l _ _ _ _ _ Hstatic Hm) as (m0 & Hm0 & Hmm0).
  assert (r ∈ order) as [i Hi]%list_elem_of_lookup.
  { rewrite Hperm. apply elem_of_seq. apply lookup_lt_Some in Hm0. lia. }
  exists i. split; [done|].
  rewrite <- (registered_static h all) by done.
  destruct Hmm0 as [_ ->]. apply (Hplaced i r m0); [done|done|].
  rewrite <- Hr. symmetry. apply is_reply_static. apply (Forall2_lookup_lr _ _ _ _ _ _ Hstatic Hm Hm0).
Qed.

(** C6.  For every input and every arrangement [algo] of the sort, thread
    assembly keeps every message: the top-level messages and the replies
    they hold are as many as the records of the day files, which are as
    many as the parsed messages. *)
Theorem assembly_preserves_count (algo : list (pyfloat * ref) -> list (pyfloat * ref))
    zf channel_name users users' h top :
  rearranges algo ->
  load_channel_messages_by algo zf channel_name users = (users', Ok (h, top)) ->
  length top + total_replies h top
  = length (input_records zf (date_files zf channel_name))
  /\ length h = length (input_records zf (date_files zf channel_name)).
Proof.
  intros Halgo (all & order & Hscan & Hsort & Hperm & Hinv)%load_channel_messages_by_inv;
    [|done].
  destruct (scan_files_spec _ _ _ _ _ Hscan) as [Hlen _].
  destruct Hinv as [Hstatic _ _ _ _ _ Hcount _ _]. simpl in *.
  apply Forall2_length in Hstatic. apply Permutation_length in Hperm.
  rewrite length_seq in Hperm. split; lia.
Qed.

(** C7.  The user backfill keeps every entry that the table held before the
    call, and an entry that the table holds afterwards is either that old
    entry or belongs to an id that was absent before.  This holds also when
    the load raises. *)
Theorem backfill_keeps_existing_users zf channel_name users :
  let users' := (load_channel_messages zf channel_name users).1 in
  (forall uid u, users !! uid = Some u -> users' !! uid = Some u)
  /\ (forall uid u', users' !! uid = Some u' ->
        users !! uid = Some u' \/ users !! uid = None).
Proof.
  pose proof (extends_load_channel_messages zf channel_name users) as Hsub.
  simpl. split.
  - intros uid u Hu. by eapply lookup_weaken.
  - intros uid u' Hu'. destruct (users !! uid) as [u|] eqn:Hu; [left|by right].
    rewrite (lookup_weaken _ _ _ _ Hu Hsub) in Hu'. done.
Qed.

Lemma reply_placed_once_witness :
  rearranges (py_sort (@fst pyfloat nat) float_lt)
  /\ load_channel_messages_by (py_sort fst float_lt) thread_archive "general" ∅
     = (∅, Ok (thread_heap, [0; 2]))
  /\ exists all order,
       scan_files thread_archive (date_files thread_archive "general") ∅ = (∅, Ok all)
       /\ sort_messages_by (py_sort fst float_lt) all = Ok order
       /\ NoDup [0; 2]
       /\ (forall t, NoDup (replies_of thread_heap t))
       /\ placed_once thread_heap [0; 2] order.
Proof.
  split; [apply py_sort_rearranges|]. split; [vm_compute; reflexivity|].
  apply (reply_placed_once (py_sort fst float_lt) thread_archive "general" ∅ ∅
           thread_heap [0; 2]); [apply py_sort_rearranges|].
  vm_compute; reflexivity.
Defined.

Lemma assembly_preserves_count_witness :
  rearranges (py_sort (@fst pyfloat nat) float_lt)
  /\ load_channel_messages_by (py_sort fst float_lt) thread_archive "general" ∅
     = (∅, Ok (thread_heap, [0; 2]))
  /\ length [0; 2] + total_replies thread_heap [0; 2] = 3.
Proof.
  split; [apply py_sort_rearranges|]. split; [vm_compute; reflexivity|].
  apply (assembly_preserves_count (py_sort fst float_lt) thread_archive "general" ∅ ∅
           thread_heap [0; 2]); [apply py_sort_rearranges|].
  vm_compute; reflexivity.
Defined.

Lemma backfill_keeps_existing_users_witness :
  ({[ "U001" := alice ]} : gmap string User.t) !! "U001" = Some alice
  /\ (load_channel_messages profile_archive "general" {[ "U001" := alice ]}).1 !! "U001"
     = Some alice.
Proof.
  split; [vm_compute; reflexivity|].
  apply (backfill_keeps_existing_users profile_archive "general" {[ "U001" := alice ]}).
  vm_compute; reflexivity.
Defined.

(** C8, at the failing input.  A parent with the timestamp "1" and three
    replies with the timestamps "3", "nan" and "2", in this order in the day
    file.  No key is below the key before it (every comparison with NaN is
    false), so the sort leaves the messages as they stand, and the replies
    of the parent are not in ascending order: the reply of key 2 stands
    behind the reply of key 3.  The formatters treat the same timestamp
    "nan" as invalid. *)
Theorem nan_timestamp_breaks_reply_order :
  load_channel_messages nan_archive "general" ∅ = (∅, Ok (nan_heap, [0]))
  /\ Message.ts <$> deref nan_heap (replies_of nan_heap 0) = ["3"; "nan"; "2"]
  /\ ~ replies_ascending nan_heap 0
  /\ _format_timestamp "nan" = Ok "nan" /\ _format_date "nan" = Ok EmptyString.
Proof.
  split; [vm_compute; reflexivity|]. split; [reflexivity|].
  split; [|split; vm_compute; reflexivity].
  intros Hasc.
  assert (float_lt (FFin (2 * two_1074)) (FFin (3 * two_1074)) = false) as Hlt.
  { apply (Hasc 0 2 1 3 (Message.mk "U001" "a" "3" "1" [] [] [] EmptyString)
                        (Message.mk "U001" "c" "2" "1" [] [] [] EmptyString));
      first [lia | vm_compute; reflexivity]. }
  vm_compute in Hlt. discriminate.
Qed.

(** C2, at the failing input.  A day file that holds a message with the
    timestamp "not-a-number": the sort key of that message raises
    ValueError, and so does the load. *)
Theorem sort_raises_on_unparseable_timestamp :
  sort_key (Message.mk "U999" "hello" "not-a-number" EmptyString [] [] [] EmptyString)
  = Raise ValueError
  /\ (load_channel_messages bad_ts_archive "general" ∅).2 = Raise ValueError.
Proof. split; vm_compute; reflexivity. Qed.

(** ** Missing fields *)

Lemma str_fields_elem keys d key :
  str_fields keys d = true -> key ∈ keys -> str_field d key = true.
Proof.
  unfold str_fields. rewrite forallb_forall. intros H Hin.
  by apply H, list_elem_of_In.
Qed.

Lemma get_str_typed d key :
  str_field d key = true ->
  exists s, get_str key d = Ok s /\ (missing key d -> s = EmptyString).
Proof.
  unfold str_field, get_str, missing.
  destruct (dict_lookup key d) as [[]|]; try done; eauto.
  intros _. eexists. split; [reflexivity|done].
Qed.

Lemma get_dict_typed ok d key :
  dict_field ok d key = true ->
  exists o, get_dict key d = Ok o /\ ok o = true \/ (missing key d /\ get_dict key d = Ok []).
Proof.
  unfold dict_field, get_dict, missing.
  destruct (dict_lookup key d) as [[]|]; try done; eauto.
  Unshelve. exact [].
Qed.

Lemma get_list_typed ok d key :
  list_field ok d key = true ->
  exists l, get_list key d = Ok l /\ forallb ok l = true /\ (missing key d -> l = []).
Proof.
  unfold list_field, get_list, missing.
  destruct (dict_lookup key d) as [[| | | |l|]|]; try done.
  - intros Hl. by exists l.
  - intros _. by exists [].
Qed.

Ltac use_str_field Htyped key s Hs Hdef :=
  let H := fresh in
  pose proof (str_fields_elem _ _ key Htyped) as H;
  destruct (get_str_typed _ key (H ltac:(set_solver))) as (s & Hs & Hdef);
  clear H.

Lemma parse_attachment_typed a :
  record_of ["title"; "fallback"; "text"; "from_url"] a = true ->
  exists att, parse_attachment a = Ok att.
Proof.
  destruct a as [| | | | |d]; try done. unfold record_of. intros Htyped.
  use_str_field Htyped "title" s1 H1 D1. use_str_field Htyped "fallback" s2 H2 D2.
  use_str_field Htyped "text" s3 H3 D3. use_str_field Htyped "from_url" s4 H4 D4.
  unfold parse_attachment. simpl. rewrite H1. simpl. rewrite H2. simpl.
  rewrite H3. simpl. rewrite H4. simpl. eauto.
Qed.

Lemma parse_file_typed f :
  record_of ["name"; "url_private"; "permalink"] f = true ->
  exists file, parse_file f = Ok file.
Proof.
  destruct f as [| | | | |d]; try done. unfold record_of. intros Htyped.
  use_str_field Htyped "name" s1 H1 D1. use_str_field Htyped "url_private" s2 H2 D2.
  use_str_field Htyped "permalink" s3 H3 D3.
  unfold parse_file. simpl. rewrite H1. simpl. rewrite H2. simpl.
  rewrite H3. simpl. eauto.
Qed.

Lemma mapM_result_total {A B} (f : A -> result B) (ok : A -> bool) l :
  (forall a, ok a = true -> exists b, f a = Ok b) ->
  forallb ok l = true -> exists bs, mapM_result f l = Ok bs /\ length bs = length l.
Proof.
  intros Hf. induction l as [|a l IH]; simpl; [by eauto|].
  intros [Ha Hl]%andb_true_iff. destruct (Hf a Ha) as [b Hb].
  destruct (IH Hl) as (bs & Hbs & Hlen). rewrite Hb. simpl. rewrite Hbs. simpl.
  exists (b :: bs). simpl. by rewrite Hlen.
Qed.

Lemma _parse_message_typed raw :
  typed_message raw = true ->
  exists m, _parse_message raw = Ok m /\ message_defaults raw m.
Proof.
  unfold typed_message. rewrite !andb_true_iff. intros [[[Hstr Hatt] Hfiles] _].
  use_str_field Hstr "user" s1 H1 D1. use_str_field Hstr "text" s2 H2 D2.
  use_str_field Hstr "ts" s3 H3 D3. use_str_field Hstr "thread_ts" s4 H4 D4.
  use_str_field Hstr "subtype" s5 H5 D5.
  destruct (get_list_typed _ _ _ Hatt) as (la & Hla & Hoka & Da).
  destruct (get_list_typed _ _ _ Hfiles) as (lf & Hlf & Hokf & Df).
  destruct (mapM_result_total _ _ la parse_attachment_typed Hoka) as (atts & Hatts & Hlena).
  destruct (mapM_result_total _ _ lf parse_file_typed Hokf) as (fs & Hfs & Hlenf).
  unfold _parse_message. rewrite Hla. simpl. rewrite Hatts. simpl.
  rewrite Hlf. simpl. rewrite Hfs. simpl.
  rewrite H1. simpl. rewrite H2. simpl. rewrite H3. simpl. rewrite H4. simpl.
  rewrite H5. simpl. eexists. split; [reflexivity|]. unfold message_defaults. simpl.
  split_and!; try done.
  - intros Hm. rewrite (Da Hm) in Hlena. by destruct atts.
  - intros Hm. rewrite (Df Hm) in Hlenf. by destruct fs.
Qed.

Lemma scan_record_typed raw users :
  typed_message raw = true ->
  exists users' m, scan_record (JObj raw) users = (users', Ok m)
                   /\ _parse_message raw = Ok m.
Proof.
  intros Htyped. destruct (_parse_message_typed raw Htyped) as (m & Hm & _).
  unfold typed_message in Htyped. rewrite !andb_true_iff in Htyped.
  destruct Htyped as [[[Hstr _] _] Hprof].
  use_str_field Hstr "user" uid Huid Duid.
  unfold scan_record, mbind, loader_bind, lift, contains_user. simpl.
  rewrite Hm, Huid.
  destruct (truthy uid && negb (bool_decide (is_Some (users !! uid)))); [|by eauto].
  destruct (get_dict_typed _ _ _ Hprof) as [p [[Hp Hok]|[_ Hp]]]; rewrite Hp.
  - destruct p as [|kv p]; [by eauto|].
    use_str_field Hok "name" s1 H1 D1. use_str_field Hok "display_name" s2 H2 D2.
    use_str_field Hok "real_name" s3 H3 D3.
    rewrite H1, H2, H3. unfold set_user. by eauto.
  - by eauto.
Qed.

Lemma scan_records_typed data users :
  forallb message_record data = true ->
  exists users' msgs, scan_records data users = (users', Ok msgs).
Proof.
  revert users. induction data as [|[| | | | |d] data IH]; intros users; simpl; try done.
  - by eauto.
  - intros [Htyped Hall]%andb_true_iff.
    destruct (scan_record_typed d users Htyped) as (u1 & m & Hm & _).
    unfold mbind at 1, loader_bind at 1. rewrite Hm.
    destruct (IH u1 Hall) as (u2 & ms & Hms).
    unfold mbind at 1, loader_bind at 1. rewrite Hms. by eauto.
Qed.

Lemma load_user_typed u :
  typed_user u = true ->
  match dict_lookup "id" u with
  | None => load_user (JObj u) = Raise (KeyError "id")
  | Some _ =>
      exists user, load_user (JObj u) = Ok user /\ user_defaults u user
  end.
Proof.
  unfold typed_user. rewrite andb_true_iff. intros [Hstr Hprof].
  use_str_field Hstr "name" s1 H1 D1. use_str_field Hstr "real_name" s2 H2 D2.
  pose proof (str_fields_elem _ _ "id" Hstr ltac:(set_solver)) as Hid.
  unfold load_user, user_defaults. simpl.
  unfold dict_field, str_field, get_dict, subscript_str, missing in *.
  destruct (dict_lookup "profile" u) as [[| | | | |p]|] eqn:Hp; try done; simpl.
  - use_str_field Hprof "display_name" s3 H3 D3.
    destruct (dict_lookup "id" u) as [[]|]; try done; simpl.
    rewrite H1. simpl. rewrite H3. simpl. rewrite H2. simpl.
    eexists. split; [reflexivity|]. simpl. split_and!; try done.
    intros p' [= <-]. done.
  - destruct (dict_lookup "id" u) as [[]|]; try done; simpl.
    rewrite H1. simpl. rewrite H2. simpl.
    eexists. split; [reflexivity|]. simpl. split_and!; done.
Qed.

Lemma load_channel_typed c :
  typed_channel c = true ->
  match dict_lookup "id" c, dict_lookup "name" c with
  | None, _ => load_channel (JObj c) = Raise (KeyError "id")
  | Some _, None => load_channel (JObj c) = Raise (KeyError "name")
  | Some _, Some _ =>
      exists channel, load_channel (JObj c) = Ok channel /\ channel_defaults c channel
  end.
Proof.
  unfold typed_channel. rewrite !andb_true_iff. intros [[Hstr Htopic] Hpurpose].
  pose proof (str_fields_elem _ _ "id" Hstr ltac:(set_solver)) as Hid.
  pose proof (str_fields_elem _ _ "name" Hstr ltac:(set_solver)) as Hname.
  assert (exists t, get_dict "topic" c = Ok t
            /\ exists s, get_str "value" t = Ok s
               /\ (missing "topic" c -> s = EmptyString)
               /\ (forall t', dict_lookup "topic" c = Some (JObj t') ->
                     missing "value" t' -> s = EmptyString)) as (t & Ht & st & Hst & Dt1 & Dt2).
  { unfold dict_field, get_dict, missing in *.
    destruct (dict_lookup "topic" c) as [[| | | | |t]|]; try done.
    - exists t. split; [done|]. use_str_field Htopic "value" s Hs Ds.
      exists s. split_and!; [done|done|]. intros t' [= <-]. done.
    - exists []. split; [done|]. exists EmptyString. done. }
  assert (exists p, get_dict "purpose" c = Ok p
            /\ exists s, get_str "value" p = Ok s
               /\ (missing "purpose" c -> s = EmptyString)
               /\ (forall p', dict_lookup "purpose" c = Some (JObj p') ->
                     missing "value" p' -> s = EmptyString)) as (p & Hp & sp & Hsp & Dp1 & Dp2).
  { unfold dict_field, get_dict, missing in *.
    destruct (dict_lookup "purpose" c) as [[| | | | |p]|]; try done.
    - exists p. split; [done|]. use_str_field Hpurpose "value" s Hs Ds.
      exists s. split_and!; [done|done|]. intros p' [= <-]. done.
    - exists []. split; [done|]. exists EmptyString. done. }
  unfold load_channel, channel_defaults. simpl. rewrite Ht. simpl. rewrite Hst. simpl.
  rewrite Hp. simpl. rewrite Hsp. simpl.
  unfold str_field, subscript_str in *.
  destruct (dict_lookup "id" c) as [[]|]; try done; simpl.
  destruct (dict_lookup "name" c) as [[]|]; try done; simpl.
  eexists. split; [reflexivity|]. simpl. split_and!; done.
Qed.

Lemma load_user_records_typed data users :
  forallb complete_user data = true ->
  exists users', load_user_records data users = Ok users'.
Proof.
  revert users. induction data as [|[| | | | |u] data IH]; intros users; simpl; try done.
  - by eauto.
  - intros [[Htyped Hid]%andb_true_iff Hall]%andb_true_iff.
    pose proof (load_user_typed u Htyped) as Hu. unfold has_key in Hid.
    destruct (dict_lookup "id" u); [|done]. destruct Hu as (user & -> & _). simpl.
    by apply IH.
Qed.

Lemma load_channels_typed data :
  forallb complete_channel data = true ->
  exists channels, mapM_result load_channel data = Ok channels.
Proof.
  intros Hall.
  destruct (mapM_result_total load_channel complete_channel data) as (cs & Hcs & _);
    [|done|by eauto].
  intros [| | | | |c]; simpl; try done.
  intros [[Htyped Hid]%andb_true_iff Hname]%andb_true_iff.
  pose proof (load_channel_typed c Htyped) as Hc. unfold has_key in *.
  destruct (dict_lookup "id" c); [|done]. destruct (dict_lookup "name" c); [|done].
  destruct Hc as (ch & -> & _). by eauto.
Qed.

(** ** The claim about missing fields *)


Lemma parse_attachment_defaults a :
  record_of ["title"; "fallback"; "text"; "from_url"] a = true ->
  exists d att, a = JObj d /\ parse_attachment a = Ok att /\ attachment_defaults d att.
Proof.
  destruct a as [| | | | |d]; try done. unfold record_of. intros Htyped.
  use_str_field Htyped "title" s1 H1 D1. use_str_field Htyped "fallback" s2 H2 D2.
  use_str_field Htyped "text" s3 H3 D3. use_str_field Htyped "from_url" s4 H4 D4.
  exists d. unfold parse_attachment. simpl. rewrite H1. simpl. rewrite H2. simpl.
  rewrite H3. simpl. rewrite H4. simpl. eexists. split_and!; [done|done|].
  by split_and!.
Qed.

Lemma parse_file_defaults f :
  record_of ["name"; "url_private"; "permalink"] f = true ->
  exists d file, f = JObj d /\ parse_file f = Ok file /\ file_defaults d file.
Proof.
  destruct f as [| | | | |d]; try done. unfold record_of. intros Htyped.
  use_str_field Htyped "name" s1 H1 D1. use_str_field Htyped "url_private" s2 H2 D2.
  use_str_field Htyped "permalink" s3 H3 D3.
  exists d. unfold parse_file. simpl. rewrite H1. simpl. rewrite H2. simpl.
  rewrite H3. simpl. eexists. split_and!; [done|done|]. by split_and!.
Qed.

Lemma mapM_result_defaults {A B} (f : A -> result B) (ok : A -> bool) (P : A -> B -> Prop)
    l bs :
  (forall a, ok a = true -> exists b, f a = Ok b /\ P a b) ->
  forallb ok l = true -> mapM_result f l = Ok bs -> Forall2 P l bs.
Proof.
  intros Hf. revert bs. induction l as [|a l IH]; intros bs; simpl.
  - intros _ [= <-]. constructor.
  - intros [Ha Hl]%andb_true_iff. destruct (Hf a Ha) as (b & Hb & HP). rewrite Hb. simpl.
    destruct (mapM_result f l) as [bs'|] eqn:Hbs; simpl; [|done].
    intros [= <-]. constructor; [done|by apply IH].
Qed.

Lemma _parse_message_lists raw m :
  _parse_message raw = Ok m ->
  exists la lf,
    get_list "attachments" raw = Ok la
    /\ mapM_result parse_attachment la = Ok (Message.attachments m)
    /\ get_list "files" raw = Ok lf
    /\ mapM_result parse_file lf = Ok (Message.files m)
    /\ get_str "user" raw = Ok (Message.user m).
Proof.
  unfold _parse_message. intros H.
  apply bind_Ok in H as (la & Hla & H). apply bind_Ok in H as (atts & Hatts & H).
  apply bind_Ok in H as (lf & Hlf & H). apply bind_Ok in H as (fs & Hfs & H).
  apply bind_Ok in H as (user & Huser & H).
  do 4 (apply bind_Ok in H as (? & _ & H)).
  injection H as <-. by exists la, lf.
Qed.

Lemma scan_record_nested raw m :
  typed_message raw = true -> _parse_message raw = Ok m -> nested_defaults raw m.
Proof.
  intros Htyped Hm.
  destruct (_parse_message_lists raw m Hm) as (la & lf & Hla & Hatts & Hlf & Hfs & Huser).
  unfold typed_message in Htyped. rewrite !andb_true_iff in Htyped.
  destruct Htyped as [[[Hstr Hatt] Hfiles] Hprof].
  split_and!.
  - intros l Hl. unfold get_list in Hla. unfold list_field in Hatt. rewrite Hl in Hla, Hatt.
    injection Hla as <-.
    apply (mapM_result_defaults parse_attachment
             (record_of ["title"; "fallback"; "text"; "from_url"])); [|done|done].
    intros a Ha. destruct (parse_attachment_defaults a Ha) as (d & att & -> & Hp & Hd).
    exists att. split; [done|]. by exists d.
  - intros l Hl. unfold get_list in Hlf. unfold list_field in Hfiles.
    rewrite Hl in Hlf, Hfiles. injection Hlf as <-.
    apply (mapM_result_defaults parse_file
             (record_of ["name"; "url_private"; "permalink"])); [|done|done].
    intros f Hf. destruct (parse_file_defaults f Hf) as (d & file & -> & Hp & Hd).
    exists file. split; [done|]. by exists d.
  - intros Hmiss users.
    unfold scan_record, mbind, loader_bind, lift, contains_user. simpl.
    rewrite Hm, Huser.
    destruct (truthy (Message.user m)
              && negb (bool_decide (is_Some (users !! Message.user m)))); [|done].
    unfold get_dict. unfold missing in Hmiss. by rewrite Hmiss.
  - intros p users Hp Hne Huid Hnone.
    unfold scan_record, mbind, loader_bind, lift, contains_user. simpl.
    rewrite Hm, Huser.
    assert (truthy (Message.user m) = true) as ->.
    { unfold truthy. apply negb_true_iff. by apply String.eqb_neq. }
    rewrite bool_decide_eq_false_2 by (rewrite Hnone; by intros [? ?]). simpl.
    unfold get_dict. rewrite Hp. simpl. destruct p as [|kv p]; [done|].
    unfold dict_field in Hprof. rewrite Hp in Hprof.
    use_str_field Hprof "name" s1 H1 D1. use_str_field Hprof "display_name" s2 H2 D2.
    use_str_field Hprof "real_name" s3 H3 D3.
    rewrite H1, H2, H3. unfold set_user. simpl.
    eexists. split_and!; [reflexivity|done|]. by split_and!.
Qed.



(** ** The formatters *)

Section Formatters.
Local Open Scope Z_scope.

Lemma day_of_year_range doe :
  0 <= doe <= 146096 ->
  let yoe := (doe - doe / 1460 + doe / 36524 - doe / 146096) / 365 in
  0 <= doe - (365 * yoe + yoe / 4 - yoe / 100) <= 365.
Proof. intros H yoe. unfold yoe. Z.div_mod_to_equations; lia. Qed.

Lemma month_day_range doy :
  0 <= doy <= 365 ->
  let mp := (5 * doy + 2) / 153 in
  0 <= mp <= 11 /\ 1 <= doy - (153 * mp + 2) / 5 + 1 <= 31.
Proof. intros H mp. unfold mp. Z.div_mod_to_equations; lia. Qed.

Lemma civil_from_days_range days y m d :
  civil_from_days days = (y, m, d) -> 1 <= m <= 12 /\ 1 <= d <= 31.
Proof.
  unfold civil_from_days.
  set (z := days + 719468).
  set (era := z / 146097).
  set (doe := z - era * 146097).
  assert (0 <= doe <= 146096) as Hdoe by (unfold doe, era; Z.div_mod_to_equations; lia).
  pose proof (day_of_year_range doe Hdoe) as Hdoy. simpl in Hdoy.
  set (yoe := (doe - doe / 1460 + doe / 36524 - doe / 146096) / 365) in *.
  set (doy := doe - (365 * yoe + yoe / 4 - yoe / 100)) in *.
  pose proof (month_day_range doy Hdoy) as [Hmp Hd]. simpl in Hmp, Hd.
  set (mp := (5 * doy + 2) / 153) in *.
  destruct (mp <? 10) eqn:E; [apply Z.ltb_lt in E|apply Z.ltb_ge in E];
    intros [= <- <- <-]; lia.
Qed.

(** The fields of a datetime that the conversion returns are in range. *)
Lemma fromtimestamp_utc_range x dt :
  fromtimestamp_utc x = Ok dt ->
  1 <= year dt <= 9999 /\ 1 <= month dt <= 12 /\ 1 <= day dt <= 31
  /\ 0 <= hour dt < 24 /\ 0 <= minute dt < 60.
Proof.
  destruct x as [| |n]; try done. unfold fromtimestamp_utc.
  destruct (to_timeval n) as [sec us].
  destruct ((sec <? - 2 ^ 63) || (2 ^ 63 <? sec)); [done|].
  destruct (civil_from_days (sec / 86400)) as [[y m] d] eqn:Hcivil.
  destruct ((y <? 1) || (9999 <? y)) eqn:Hy; [done|].
  intros [= <-]. simpl.
  apply orb_false_iff in Hy as [Hy1%Z.ltb_ge Hy2%Z.ltb_ge].
  destruct (civil_from_days_range _ _ _ _ Hcivil) as [Hm Hd].
  split_and!; try lia; Z.div_mod_to_equations; lia.
Qed.

Lemma code_digit_chr d : code (digit_chr d) = Z.to_N (48 + d mod 10).
Proof.
  unfold code, digit_chr. apply N_ascii_embedding.
  pose proof (Z.mod_pos_bound d 10). lia.
Qed.

Lemma is_digit_digit_chr d : is_digit (digit_chr d) = true.
Proof.
  unfold is_digit. rewrite code_digit_chr.
  pose proof (Z.mod_pos_bound d 10).
  apply andb_true_iff. split; apply N.leb_le; lia.
Qed.

Lemma digit_val_digit_chr d : digit_val (digit_chr d) = d mod 10.
Proof.
  unfold digit_val. rewrite code_digit_chr.
  pose proof (Z.mod_pos_bound d 10). lia.
Qed.

Lemma digits_val_pad2 n : 0 <= n < 100 -> digits_val (pad2 n) = n.
Proof.
  intros Hn. unfold digits_val, pad2. simpl. rewrite !digit_val_digit_chr.
  Z.div_mod_to_equations; lia.
Qed.

Lemma digits_val_pad4 n : 0 <= n < 10000 -> digits_val (pad4 n) = n.
Proof.
  intros Hn. unfold digits_val, pad4. simpl. rewrite !digit_val_digit_chr.
  Z.div_mod_to_equations; lia.
Qed.

Lemma hour12_range h : 1 <= hour12 h <= 12.
Proof.
  unfold hour12. destruct (h mod 12 =? 0) eqn:E; [lia|].
  apply Z.eqb_neq in E. pose proof (Z.mod_pos_bound h 12). lia.
Qed.

(** Stripping the zeros in front of the two-digit hour leaves the hour
    without its leading zero, and nothing else is stripped. *)
Lemma lstrip0_hour k rest :
  1 <= k <= 12 -> lstrip0 (pad2 k ++ rest) = hour_digits k ++ rest.
Proof.
  intros Hk.
  assert (k = 1 \/ k = 2 \/ k = 3 \/ k = 4 \/ k = 5 \/ k = 6 \/ k = 7 \/ k = 8
          \/ k = 9 \/ k = 10 \/ k = 11 \/ k = 12) as Hcases by lia.
  repeat (destruct Hcases as [->|Hcases]; [reflexivity|]). subst. reflexivity.
Qed.

Lemma hour_digits_head k : 1 <= k <= 12 -> head (hour_digits k) <> Some "0"%char.
Proof.
  intros Hk.
  assert (k = 1 \/ k = 2 \/ k = 3 \/ k = 4 \/ k = 5 \/ k = 6 \/ k = 7 \/ k = 8
          \/ k = 9 \/ k = 10 \/ k = 11 \/ k = 12) as Hcases by lia.
  repeat (destruct Hcases as [->|Hcases]; [done|]). subst. done.
Qed.
End Formatters.

(** C4, at the failing input.  The timestamps "inf" and "1e19" are no epoch
    values; float parses them and the conversion to a datetime raises
    OverflowError, which the handler of ValueError and OSError does not
    catch: both formatters raise instead of falling back.  The handler does
    catch what the same conversion raises for "nan" and for a year beyond
    9999, as for "1e18", and the formatters fall back there. *)
Theorem formatters_raise_on_overflow :
  py_float "inf" = Ok (FInf false)
  /\ _format_timestamp "inf" = Raise OverflowError
  /\ _format_date "inf" = Raise OverflowError
  /\ _format_timestamp "1e19" = Raise OverflowError
  /\ _format_date "1e19" = Raise OverflowError
  /\ _format_timestamp "nan" = Ok "nan" /\ _format_date "nan" = Ok EmptyString
  /\ _format_timestamp "1e18" = Ok "1e18" /\ _format_date "1e18" = Ok EmptyString.
Proof. split_and!; vm_compute; reflexivity. Qed.

(** ** A single message *)

Lemma string_concat_cons sep x xs :
  String.concat sep (x :: xs)
  = x +:+ match xs with [] => EmptyString | _ :: _ => sep +:+ String.concat sep xs end.
Proof.
  destruct xs; simpl; [|done]. induction x as [|c x IH]; [done|].
  change (String c x = String c (x +:+ EmptyString)). by f_equal.
Qed.

Lemma py_or_truthy a b : a <> EmptyString -> py_or a b = a.
Proof. intros Ha. unfold py_or, truthy. by destruct a. Qed.

Lemma string_app_assoc (a b c : string) : (a +:+ b) +:+ c = a +:+ b +:+ c.
Proof.
  induction a as [|x a IH]; [done|].
  change (String x ((a +:+ b) +:+ c) = String x (a +:+ b +:+ c)). by f_equal.
Qed.

Lemma py_or_empty b : py_or EmptyString b = b.
Proof. reflexivity. Qed.

Lemma format_message_lines msg users indent :
  exists rest,
    (rest = EmptyString \/ exists r, rest = String newline r)
    /\ format_message msg users indent
       = time_str ← _format_timestamp (Message.ts msg);
         Ok ((if indent then "  " else EmptyString) +:+ "**@" +:+ author_of msg users
               +:+ "** (" +:+ time_str +:+ ")"
               +:+ (if indent then " [thread]" else EmptyString) +:+ ":" +:+ rest).
Proof.
  unfold format_message.
  set (prefix := if indent then "  " else EmptyString).
  set (text := convert_mrkdwn (Message.text msg) users).
  set (tl := (if truthy text
              then map (fun line => prefix +:+ chars_str line)
                       (split_on newline [] (str_chars text))
              else [])
             ++ concat (map (render_attachment prefix) (Message.attachments msg))
             ++ map (render_file prefix) (Message.files msg)).
  exists (match tl with
          | [] => EmptyString
          | _ :: _ => String newline EmptyString
                        +:+ String.concat (String newline EmptyString) tl
          end).
  split; [destruct tl; [by left|right; by eauto]|].
  destruct (_format_timestamp (Message.ts msg)) as [time_str|e]; [|done].
  simpl. f_equal.
  match goal with |- String.concat _ ?l = _ => set (lines := l) end.
  assert (lines = header_line prefix (author_of msg users) time_str
                    (if indent then " [thread]" else EmptyString) :: tl) as ->.
  { unfold lines, tl. destruct (truthy text); simpl; by rewrite <- ?app_assoc. }
  rewrite string_concat_cons. unfold header_line.
  by rewrite !string_app_assoc.
Qed.

(** C10, counterexample.  An author id that is the string "unknown" and is
    absent from the table, and an author whose label in the table is
    "unknown": the header reads "**@unknown** (" although the id is not
    empty. *)
Lemma unknown_without_empty_id :
  sample_users !! "unknown" = None
  /\ Message.user (sample_message "unknown") <> EmptyString
  /\ format_message (sample_message "unknown") sample_users false
     = Ok ("**@unknown** (8:30 AM):" +:+ String newline "hello")
  /\ (exists user, unknown_users !! "U004" = Some user)
  /\ Message.user (sample_message "U004") <> EmptyString
  /\ format_message (sample_message "U004") unknown_users false
     = Ok ("**@unknown** (8:30 AM):" +:+ String newline "hello").
Proof.
  split_and!; [vm_compute; reflexivity|discriminate|vm_compute; reflexivity| |
               discriminate|vm_compute; reflexivity].
  eexists. vm_compute. reflexivity.
Qed.

(** C10, as amended.  The first line of a formatted message is the prefix,
    "**@", the author, "** (", the time, ")", the thread label and ":".  The
    author is the label of the user registered under the author id of the
    message: the display name, the real name when that is empty, the name
    when both are empty; when all three are empty the header reads
    "**@** (" and not "unknown".  An author id that is absent from the table
    is rendered itself when it is not empty, and as the literal "unknown"
    when it is empty.  The author reads "unknown" only when the id is empty
    and absent from the table, or is absent and is itself "unknown", or the
    label of the registered user is "unknown". *)
Theorem format_message_author (msg : Message.t) (users : gmap string User.t) (indent : bool) :
  (forall out, format_message msg users indent = Ok out ->
     exists time_str rest,
       _format_timestamp (Message.ts msg) = Ok time_str
       /\ (rest = EmptyString \/ exists r, rest = String newline r)
       /\ out = (if indent then "  " else EmptyString) +:+ "**@" +:+ author_of msg users
                  +:+ "** (" +:+ time_str +:+ ")"
                  +:+ (if indent then " [thread]" else EmptyString) +:+ ":" +:+ rest)
  /\ (forall time_str, _format_timestamp (Message.ts msg) = Ok time_str ->
        exists out, format_message msg users indent = Ok out)
  /\ (forall user, users !! Message.user msg = Some user ->
        User.display_name user <> EmptyString ->
        author_of msg users = User.display_name user)
  /\ (forall user, users !! Message.user msg = Some user ->
        User.display_name user = EmptyString -> User.real_name user <> EmptyString ->
        author_of msg users = User.real_name user)
  /\ (forall user, users !! Message.user msg = Some user ->
        User.display_name user = EmptyString -> User.real_name user = EmptyString ->
        author_of msg users = User.name user)
  /\ (forall user, users !! Message.user msg = Some user ->
        User.display_name user = EmptyString -> User.real_name user = EmptyString ->
        User.name user = EmptyString ->
        forall out, format_message msg users indent = Ok out ->
        exists time_str rest,
          _format_timestamp (Message.ts msg) = Ok time_str
          /\ out = (if indent then "  " else EmptyString) +:+ "**@** (" +:+ time_str
                     +:+ ")" +:+ (if indent then " [thread]" else EmptyString)
                     +:+ ":" +:+ rest)
  /\ (users !! Message.user msg = None -> Message.user msg <> EmptyString ->
        author_of msg users = Message.user msg)
  /\ (users !! Message.user msg = None -> Message.user msg = EmptyString ->
        author_of msg users = "unknown")
  /\ (author_of msg users = "unknown" ->
        (users !! Message.user msg = None /\ Message.user msg = EmptyString)
        \/ (users !! Message.user msg = None /\ Message.user msg = "unknown")
        \/ (exists user,
              users !! Message.user msg = Some user
              /\ (User.display_name user = "unknown"
                  \/ (User.display_name user = EmptyString
                      /\ User.real_name user = "unknown")
                  \/ (User.display_name user = EmptyString
                      /\ User.real_name user = EmptyString
                      /\ User.name user = "unknown")))).
Proof.
  split_and!.
  - intros out. destruct (format_message_lines msg users indent) as (rest & Hrest & ->).
    destruct (_format_timestamp (Message.ts msg)) as [time_str|e]; [|done].
    simpl. intros [= <-]. by exists time_str, rest.
  - intros time_str Ht.
    destruct (format_message_lines msg users indent) as (rest & _ & ->).
    rewrite Ht. simpl. by eauto.
  - intros user Hu Hd. unfold author_of, User.label. rewrite Hu.
    by rewrite (py_or_truthy (User.display_name user)), py_or_truthy.
  - intros user Hu Hd Hr. unfold author_of, User.label. rewrite Hu, Hd, py_or_empty.
    by rewrite py_or_truthy.
  - intros user Hu Hd Hr. unfold author_of, User.label. by rewrite Hu, Hd, Hr.
  - intros user Hu Hd Hr Hn out.
    destruct (format_message_lines msg users indent) as (rest & _ & ->).
    destruct (_format_timestamp (Message.ts msg)) as [time_str|e]; [|done].
    simpl. intros [= <-]. exists time_str, rest.
    split; [done|]. unfold author_of, User.label. rewrite Hu, Hd, Hr, Hn. reflexivity.
  - unfold author_of. intros -> Hne. by apply py_or_truthy.
  - unfold author_of. by intros -> ->.
  - unfold author_of. destruct (users !! Message.user msg) as [user|].
    + intros Hl. right; right. exists user. split; [done|].
      unfold User.label in Hl.
      destruct (User.display_name user) as [|c d] eqn:Hd; [|by left].
      destruct (User.real_name user) as [|c r] eqn:Hr; [|right; by left].
      right; right. done.
    + intros Hunk. destruct (Message.user msg) eqn:Hu; [by left|].
      right. left. done.
Qed.

Lemma format_message_author_witness :
  sample_users !! "U003" = Some (User.mk "U003" EmptyString EmptyString EmptyString)
  /\ sample_users !! "U002" = Some (User.mk "U002" "bob" EmptyString "Bob Jones")
  /\ sample_users !! "U999" = None
  /\ sample_users !! EmptyString = None
  /\ author_of (sample_message "U003") sample_users = EmptyString
  /\ author_of (sample_message "U002") sample_users = "Bob Jones"
  /\ author_of (sample_message "U999") sample_users = "U999"
  /\ author_of (sample_message EmptyString) sample_users = "unknown"
  /\ format_message (sample_message "U003") sample_users false
     = Ok ("**@** (8:30 AM):" +:+ String newline "hello")
  /\ format_message (sample_message "U999") sample_users true
     = Ok ("  **@U999** (8:30 AM) [thread]:" +:+ String newline "  hello")
  /\ format_message (sample_message EmptyString) sample_users false
     = Ok ("**@unknown** (8:30 AM):" +:+ String newline "hello").
Proof.
  destruct (format_message_author (sample_message "U003") sample_users false)
    as (_ & _ & _ & _ & Hname & _).
  destruct (format_message_author (sample_message "U002") sample_users false)
    as (_ & _ & _ & Hreal & _).
  destruct (format_message_author (sample_message "U999") sample_users false)
    as (_ & _ & _ & _ & _ & _ & Hraw & _).
  destruct (format_message_author (sample_message EmptyString) sample_users false)
    as (_ & _ & _ & _ & _ & _ & _ & Hunknown & _).
  split_and!.
  - vm_compute; reflexivity.
  - vm_compute; reflexivity.
  - vm_compute; reflexivity.
  - vm_compute; reflexivity.
  - rewrite (Hname (User.mk "U003" EmptyString EmptyString EmptyString));
      vm_compute; reflexivity.
  - rewrite (Hreal (User.mk "U002" "bob" EmptyString "Bob Jones"));
      [reflexivity|vm_compute; reflexivity|reflexivity|discriminate].
  - apply Hraw; vm_compute; [reflexivity|discriminate].
  - apply Hunknown; vm_compute; reflexivity.
  - vm_compute; reflexivity.
  - vm_compute; reflexivity.
  - vm_compute; reflexivity.
Defined.

(** ** The markup engine *)

Lemma chars_str_chars l : str_chars (chars_str l) = l.
Proof. apply list_ascii_of_string_of_list_ascii. Qed.

(** *** Code spans and code blocks *)

Lemma starts_with_fence_head c l : c <> backtick -> starts_with fence (c :: l) = false.
Proof.
  intros Hc. simpl. destruct (chr_eqb backtick c) eqn:E; [|done].
  apply Ascii.eqb_eq in E. congruence.
Qed.

Lemma chr_eqb_backtick c : c <> backtick -> chr_eqb c backtick = false.
Proof. intros Hc. unfold chr_eqb. by apply Ascii.eqb_neq. Qed.

Lemma chr_eqb_refl c : chr_eqb c c = true.
Proof. apply Ascii.eqb_refl. Qed.

Lemma scan_parts_unfold buf c l :
  scan_parts 0 buf (c :: l)
  = if starts_with fence (c :: l) then
      match find_sub fence (drop 3 (c :: l)) with
      | Some e => flush buf ++ take (e + 6) (c :: l) :: scan_parts (e + 5) [] l
      | None => flush buf ++ [c :: l]
      end
    else if chr_eqb c backtick then
      match find_sub [backtick] l with
      | Some e => flush buf ++ take (e + 2) (c :: l) :: scan_parts (e + 1) [] l
      | None => scan_parts 0 (buf ++ [c]) l
      end
    else scan_parts 0 (buf ++ [c]) l.
Proof. reflexivity. Qed.

Lemma scan_parts_plain buf pre l :
  no_backtick pre -> scan_parts 0 buf (pre ++ l) = scan_parts 0 (buf ++ pre) l.
Proof.
  intros Hpre. revert buf. induction Hpre as [|c pre Hc Hpre IH]; intros buf.
  - by rewrite app_nil_r.
  - change ((c :: pre) ++ l) with (c :: (pre ++ l)).
    rewrite scan_parts_unfold, starts_with_fence_head, chr_eqb_backtick by done.
    rewrite IH, <- app_assoc. done.
Qed.

Lemma scan_parts_skip buf x l : scan_parts (length x) buf (x ++ l) = scan_parts 0 buf l.
Proof. induction x as [|c x IH]; [done|]. simpl. exact IH. Qed.

Lemma find_sub_backtick body post :
  no_backtick body -> find_sub [backtick] (body ++ backtick :: post) = Some (length body).
Proof.
  induction 1 as [|c body Hc Hbody IH]; simpl.
  - done.
  - destruct (chr_eqb backtick c) eqn:E.
    + apply Ascii.eqb_eq in E. congruence.
    + simpl. by rewrite IH.
Qed.

Lemma find_sub_no_backtick rest : no_backtick rest -> find_sub [backtick] rest = None.
Proof.
  induction 1 as [|c rest Hc Hrest IH]; simpl; [done|].
  destruct (chr_eqb backtick c) eqn:E.
  - apply Ascii.eqb_eq in E. congruence.
  - simpl. by rewrite IH.
Qed.

Lemma render_part_plain pre : no_backtick pre -> render_part pre = rewrite_plain pre.
Proof.
  intros Hpre. unfold render_part. destruct Hpre as [|c pre Hc _]; [done|].
  simpl. destruct (chr_eqb backtick c) eqn:E; [|done].
  apply Ascii.eqb_eq in E. congruence.
Qed.

Lemma render_flush_plain pre :
  no_backtick pre -> concat (map render_part (flush pre)) = rewrite_plain pre.
Proof.
  intros Hpre. destruct pre as [|c pre]; [done|].
  unfold flush. simpl. rewrite app_nil_r. by apply render_part_plain.
Qed.

Lemma convert_plain_part text :
  no_backtick text ->
  convert_slack_formatting_chars text = rewrite_plain text.
Proof.
  intros Hbt. unfold convert_slack_formatting_chars.
  rewrite <- (app_nil_r text) at 1. rewrite scan_parts_plain by done.
  simpl scan_parts. by rewrite render_flush_plain.
Qed.

Lemma render_part_code code : render_part (backtick :: code) = backtick :: code.
Proof. reflexivity. Qed.

(** An inline code span behind plain text. *)
Lemma convert_inline_code pre body post :
  no_backtick pre -> no_backtick body ->
  starts_with fence (backtick :: body ++ backtick :: post) = false ->
  convert_slack_formatting_chars (pre ++ backtick :: body ++ backtick :: post)
  = rewrite_plain pre ++ (backtick :: body ++ [backtick])
      ++ convert_slack_formatting_chars post.
Proof.
  intros Hpre Hbody Hfence. unfold convert_slack_formatting_chars.
  rewrite scan_parts_plain by done. simpl app at 1.
  rewrite scan_parts_unfold, Hfence, chr_eqb_refl, find_sub_backtick by done.
  rewrite map_app, concat_app, render_flush_plain by done. f_equal.
  assert (take (length body + 2) (backtick :: body ++ backtick :: post)
          = backtick :: body ++ [backtick]) as ->.
  { replace (length body + 2) with (length (backtick :: body ++ [backtick]))
      by (simpl; rewrite length_app; simpl; lia).
    replace (backtick :: body ++ backtick :: post)
      with ((backtick :: body ++ [backtick]) ++ post)
      by (simpl; by rewrite <- app_assoc).
    by rewrite take_app_length. }
  cbn [map concat]. rewrite render_part_code. do 3 f_equal.
  replace (length body + 1) with (length (body ++ [backtick]))
    by (rewrite length_app; simpl; lia).
  replace (body ++ backtick :: post) with ((body ++ [backtick]) ++ post)
    by (by rewrite <- app_assoc).
  by rewrite scan_parts_skip.
Qed.

(** A fenced code block behind plain text, closed at the first fence that
    follows the opening one. *)
Lemma convert_code_block pre body post :
  no_backtick pre ->
  find_sub fence (body ++ fence ++ post) = Some (length body) ->
  convert_slack_formatting_chars (pre ++ fence ++ body ++ fence ++ post)
  = rewrite_plain pre ++ (fence ++ body ++ fence)
      ++ convert_slack_formatting_chars post.
Proof.
  intros Hpre Hfind. unfold convert_slack_formatting_chars.
  rewrite scan_parts_plain by done. simpl app at 1.
  change (fence ++ body ++ fence ++ post)
    with (backtick :: backtick :: backtick :: body ++ fence ++ post).
  rewrite scan_parts_unfold.
  assert (starts_with fence (backtick :: backtick :: backtick :: body ++ fence ++ post) = true)
    as -> by reflexivity.
  change (drop 3 (backtick :: backtick :: backtick :: body ++ fence ++ post))
    with (body ++ fence ++ post).
  rewrite Hfind.
  rewrite map_app, concat_app, render_flush_plain by done. f_equal.
  assert (take (length body + 6) (backtick :: backtick :: backtick :: body ++ fence ++ post)
          = fence ++ body ++ fence) as ->.
  { replace (length body + 6) with (length (fence ++ body ++ fence))
      by (rewrite !length_app; simpl; lia).
    replace (backtick :: backtick :: backtick :: body ++ fence ++ post)
      with ((fence ++ body ++ fence) ++ post)
      by (simpl; by rewrite <- !app_assoc).
    by rewrite take_app_length. }
  cbn [map concat].
  change (fence ++ body ++ fence) with (backtick :: [backtick; backtick] ++ body ++ fence).
  rewrite render_part_code. do 3 f_equal.
  replace (length body + 5) with (length ([backtick; backtick] ++ body ++ fence))
    by (rewrite !length_app; simpl; lia).
  replace (backtick :: backtick :: body ++ fence ++ post)
    with (([backtick; backtick] ++ body ++ fence) ++ post)
    by (simpl; by rewrite <- !app_assoc).
  by rewrite scan_parts_skip.
Qed.

(** A fence that is never closed: the rest of the text is one code part. *)
Lemma convert_unclosed_block pre rest :
  no_backtick pre -> find_sub fence rest = None ->
  convert_slack_formatting_chars (pre ++ fence ++ rest)
  = rewrite_plain pre ++ fence ++ rest.
Proof.
  intros Hpre Hfind. unfold convert_slack_formatting_chars.
  rewrite scan_parts_plain by done. simpl app at 1.
  change (fence ++ rest) with (backtick :: backtick :: backtick :: rest).
  rewrite scan_parts_unfold.
  assert (starts_with fence (backtick :: backtick :: backtick :: rest) = true)
    as -> by reflexivity.
  change (drop 3 (backtick :: backtick :: backtick :: rest)) with rest.
  rewrite Hfind.
  rewrite map_app, concat_app, render_flush_plain by done. f_equal.
  cbn [map concat]. rewrite render_part_code. by rewrite app_nil_r.
Qed.

(** A single backtick that is never closed is ordinary text: the segment it
    stands in is rewritten, unless the segment starts with it. *)
Lemma convert_unclosed_backtick pre rest :
  no_backtick pre -> no_backtick rest ->
  convert_slack_formatting_chars (pre ++ backtick :: rest)
  = match pre with
    | [] => backtick :: rest
    | _ :: _ => rewrite_plain (pre ++ backtick :: rest)
    end.
Proof.
  intros Hpre Hrest. unfold convert_slack_formatting_chars.
  rewrite scan_parts_plain by done. simpl app at 1.
  rewrite scan_parts_unfold.
  assert (starts_with fence (backtick :: rest) = false) as ->.
  { destruct Hrest as [|c rest Hc _]; [done|].
    simpl. destruct (chr_eqb backtick c) eqn:E; [|done].
    apply Ascii.eqb_eq in E. congruence. }
  rewrite chr_eqb_refl, find_sub_no_backtick by done.
  rewrite <- (app_nil_r rest) at 1. rewrite scan_parts_plain by done.
  cbn [scan_parts]. rewrite <- app_assoc. simpl app.
  destruct Hpre as [|c pre Hc _]; simpl.
  - by rewrite app_nil_r.
  - rewrite app_nil_r. unfold render_part. simpl.
    destruct (chr_eqb backtick c) eqn:E; [|done].
    apply Ascii.eqb_eq in E. congruence.
Qed.

(** *** The forms of a text under the scan *)

Lemma starts_with_app p l : starts_with p l = true -> exists post, l = p ++ post.
Proof.
  revert l. induction p as [|a p IH]; intros l H; [by exists l|].
  destruct l as [|b l]; [done|]. simpl in H.
  apply andb_true_iff in H as [Hab Hp]. apply Ascii.eqb_eq in Hab as ->.
  destruct (IH _ Hp) as [post ->]. by exists post.
Qed.

Lemma find_sub_Some p l : forall e,
  find_sub p l = Some e ->
  exists body post, l = body ++ p ++ post /\ length body = e.
Proof.
  induction l as [|c l IH]; intros e; simpl.
  - destruct (starts_with p []) eqn:Hs; [|done]. intros [= <-].
    destruct (starts_with_app _ _ Hs) as [post ->]. by exists [], post.
  - destruct (starts_with p (c :: l)) eqn:Hs.
    + intros [= <-]. destruct (starts_with_app _ _ Hs) as [post ->]. by exists [], post.
    + destruct (find_sub p l) as [e'|] eqn:He; [|done]. intros [= <-].
      destruct (IH _ eq_refl) as (body & post & -> & <-).
      by exists (c :: body), post.
Qed.

Lemma find_sub_backtick_Some l : forall e,
  find_sub [backtick] l = Some e ->
  exists body post, l = body ++ backtick :: post /\ no_backtick body.
Proof.
  induction l as [|c l IH]; intros e; simpl; [done|].
  destruct (chr_eqb backtick c) eqn:Hc; simpl.
  - intros _. apply Ascii.eqb_eq in Hc as <-. exists [], l. split; [done|constructor].
  - destruct (find_sub [backtick] l) as [e'|] eqn:He; [|done]. intros _.
    destruct (IH _ eq_refl) as (body & post & -> & Hbody).
    exists (c :: body), post. split; [done|]. constructor; [|done].
    intros ->. by rewrite chr_eqb_refl in Hc.
Qed.

Lemma find_sub_backtick_None l : find_sub [backtick] l = None -> no_backtick l.
Proof.
  induction l as [|c l IH]; simpl; [constructor|].
  destruct (chr_eqb backtick c) eqn:Hc; simpl; [done|].
  destruct (find_sub [backtick] l) as [e'|] eqn:He; [done|]. intros _.
  constructor; [|by apply IH]. intros ->. by rewrite chr_eqb_refl in Hc.
Qed.

Lemma first_backtick l :
  no_backtick l \/ exists pre rest, l = pre ++ backtick :: rest /\ no_backtick pre.
Proof.
  destruct (find_sub [backtick] l) as [e|] eqn:He.
  - right. apply find_sub_backtick_Some in He as (pre & rest & -> & Hpre).
    by exists pre, rest.
  - left. by apply find_sub_backtick_None.
Qed.

(** ** The claim about code spans *)

(** C3, counterexample.  In "x `*a*" a single backtick opens and no
    backtick follows, yet the text behind it is rewritten. *)
Lemma unclosed_backtick_is_rewritten :
  find_sub [backtick] (str_chars "*a*") = None
  /\ _convert_slack_formatting "x `*a*" = "x `**a**"
  /\ ~ (exists out, _convert_slack_formatting "x `*a*" = out +:+ "`*a*").
Proof.
  split_and!; [vm_compute; reflexivity|vm_compute; reflexivity|].
  intros [out Hout].
  assert (_convert_slack_formatting "x `*a*" = "x `**a**") as Heq
    by (vm_compute; reflexivity).
  rewrite Heq in Hout. clear Heq.
  do 8 (destruct out as [|? out]; [discriminate|]; injection Hout as _ Hout).
  by destruct out.
Qed.

(** C3, as amended.  Every text has one of five forms, by its first
    backtick: no backtick at all; plain text [pre], a fence, a body through
    the next fence, and a rest; plain text and a fence with no later fence;
    plain text, a single backtick that starts no fence, a body through the
    next backtick, and a rest; plain text and a single backtick with no
    later backtick.  The plain text is rewritten.  The inline code span,
    from the backtick through the next backtick, and the code block, from
    the fence through the next fence, are unchanged, whatever asterisks,
    underscores and tildes they hold, and the conversion starts afresh on
    the rest behind them.  A fence with no later fence makes the rest of the
    text verbatim.  A single backtick with no later backtick is ordinary
    text, which is rewritten with the segment it stands in, unless that
    segment starts with it. *)
Theorem code_spans_preserved :
  (forall text : chars,
     exists pre, no_backtick pre /\
       (text = pre
        \/ (exists body post,
              text = pre ++ fence ++ body ++ fence ++ post
              /\ find_sub fence (body ++ fence ++ post) = Some (length body))
        \/ (exists rest, text = pre ++ fence ++ rest /\ find_sub fence rest = None)
        \/ (exists body post,
              text = pre ++ backtick :: body ++ backtick :: post
              /\ no_backtick body
              /\ starts_with fence (backtick :: body ++ backtick :: post) = false)
        \/ (exists rest, text = pre ++ backtick :: rest /\ no_backtick rest)))
  /\ (forall pre : chars,
       no_backtick pre ->
       _convert_slack_formatting (chars_str pre) = chars_str (rewrite_plain pre)
       /\ (forall body post,
             find_sub fence (body ++ fence ++ post) = Some (length body) ->
             _convert_slack_formatting (chars_str (pre ++ fence ++ body ++ fence ++ post))
             = chars_str (rewrite_plain pre ++ (fence ++ body ++ fence)
                            ++ convert_slack_formatting_chars post))
       /\ (forall rest,
             find_sub fence rest = None ->
             _convert_slack_formatting (chars_str (pre ++ fence ++ rest))
             = chars_str (rewrite_plain pre ++ fence ++ rest))
       /\ (forall body post,
             no_backtick body ->
             starts_with fence (backtick :: body ++ backtick :: post) = false ->
             _convert_slack_formatting
               (chars_str (pre ++ backtick :: body ++ backtick :: post))
             = chars_str (rewrite_plain pre ++ (backtick :: body ++ [backtick])
                            ++ convert_slack_formatting_chars post))
       /\ (forall rest,
             no_backtick rest ->
             _convert_slack_formatting (chars_str (pre ++ backtick :: rest))
             = chars_str match pre with
                         | [] => backtick :: rest
                         | _ :: _ => rewrite_plain (pre ++ backtick :: rest)
                         end)).
Proof.
  split.
  - intros text. destruct (first_backtick text) as [Hplain|(pre & rest & -> & Hpre)].
    { exists text. split; [done|]. by left. }
    exists pre. split; [done|]. right.
    destruct (starts_with fence (backtick :: rest)) eqn:Hfence.
    + destruct (starts_with_app _ _ Hfence) as [rest' Hrest'].
      change (backtick :: rest) with ([backtick] ++ rest). simpl in Hrest'.
      injection Hrest' as ->.
      destruct (find_sub fence rest') as [e|] eqn:He.
      * left. destruct (find_sub_Some _ _ _ He) as (body & post & -> & <-).
        by exists body, post.
      * right; left. by exists rest'.
    + right; right. destruct (find_sub [backtick] rest) as [e|] eqn:He.
      * left. apply find_sub_backtick_Some in He as (body & post & -> & Hbody).
        by exists body, post.
      * right. exists rest. split; [done|]. by apply find_sub_backtick_None.
  - intros pre Hpre. unfold _convert_slack_formatting. split_and!.
    + by rewrite chars_str_chars, convert_plain_part.
    + intros body post Hfind. by rewrite chars_str_chars, convert_code_block.
    + intros rest Hfind. by rewrite chars_str_chars, convert_unclosed_block.
    + intros body post Hbody Hfence. by rewrite chars_str_chars, convert_inline_code.
    + intros rest Hrest. by rewrite chars_str_chars, convert_unclosed_backtick.
Qed.

Lemma code_spans_preserved_witness :
  no_backtick (str_chars "use ")
  /\ _convert_slack_formatting "*b* _c_" = "**b** *c*"
  /\ _convert_slack_formatting "use `*not bold*` here" = "use `*not bold*` here"
  /\ _convert_slack_formatting "*b* ```*not bold*``` *c*" = "**b** ```*not bold*``` **c**"
  /\ _convert_slack_formatting "use ```_unclosed_ *x*" = "use ```_unclosed_ *x*"
  /\ _convert_slack_formatting "use `*a*" = "use `**a**"
  /\ _convert_slack_formatting "it`s ```x = *p* + _q_``` ok"
     = "it`s ```x = **p** + *q*``` ok".
Proof.
  assert (no_backtick (str_chars "use ")) as Huse by (repeat constructor; discriminate).
  assert (no_backtick (str_chars "*b* ")) as Hb by (repeat constructor; discriminate).
  assert (no_backtick (str_chars "*b* _c_")) as Hbc by (repeat constructor; discriminate).
  assert (no_backtick (str_chars "it")) as Hit by (repeat constructor; discriminate).
  destruct (proj2 code_spans_preserved (str_chars "use ") Huse)
    as (_ & _ & Hopen & Hinline & Hsingle).
  destruct (proj2 code_spans_preserved (str_chars "*b* ") Hb) as (_ & Hblock & _).
  destruct (proj2 code_spans_preserved (str_chars "*b* _c_") Hbc) as (Hplain & _).
  destruct (proj2 code_spans_preserved (str_chars "it") Hit) as (_ & _ & _ & Hquote & _).
  split_and!.
  - exact Huse.
  - change "*b* _c_" with (chars_str (str_chars "*b* _c_")).
    rewrite Hplain. vm_compute; reflexivity.
  - change "use `*not bold*` here"
      with (chars_str (str_chars "use " ++ backtick :: str_chars "*not bold*"
                         ++ backtick :: str_chars " here")).
    rewrite Hinline; [vm_compute; reflexivity|repeat constructor; discriminate|reflexivity].
  - change "*b* ```*not bold*``` *c*"
      with (chars_str (str_chars "*b* " ++ fence ++ str_chars "*not bold*"
                         ++ fence ++ str_chars " *c*")).
    rewrite Hblock; vm_compute; reflexivity.
  - change "use ```_unclosed_ *x*"
      with (chars_str (str_chars "use " ++ fence ++ str_chars "_unclosed_ *x*")).
    rewrite Hopen; vm_compute; reflexivity.
  - change "use `*a*"
      with (chars_str (str_chars "use " ++ backtick :: str_chars "*a*")).
    rewrite Hsingle; [vm_compute; reflexivity|repeat constructor; discriminate].
  - change "it`s ```x = *p* + _q_``` ok"
      with (chars_str (str_chars "it" ++ backtick :: str_chars "s "
                         ++ backtick :: str_chars "``x = *p* + _q_``` ok")).
    rewrite Hquote; [vm_compute; reflexivity|repeat constructor; discriminate|reflexivity].
Defined.

(** ** User mentions *)

Lemma take_while_app {A} (f : A -> bool) x y :
  forallb f x = true -> head (take_while f y) = None ->
  take_while f (x ++ y) = x /\ drop_while f (x ++ y) = y.
Proof.
  intros Hx Hy. induction x as [|a x IH]; simpl in *.
  - destruct y as [|b y]; [done|]. simpl in *. by destruct (f b).
  - apply andb_true_iff in Hx as [-> Hx]. destruct (IH Hx) as [-> ->]. done.
Qed.

Section ReSubFacts.
Variable matcher : option ascii -> chars -> option (chars * nat).

Lemma re_sub_from_skip prev x l :
  re_sub_from matcher prev (length x) (x ++ l)
  = re_sub_from matcher (foldl (fun _ c => Some c) prev x) 0 l.
Proof. revert prev. induction x as [|c x IH]; intros prev; [done|]. simpl. by rewrite IH. Qed.

(** Where the pattern cannot start inside [pre], [pre] is copied. *)
Lemma re_sub_from_copy prev pre l :
  (forall p i, i < length pre -> matcher p (drop i pre ++ l) = None) ->
  re_sub_from matcher prev 0 (pre ++ l)
  = pre ++ re_sub_from matcher (foldl (fun _ c => Some c) prev pre) 0 l.
Proof.
  revert prev. induction pre as [|c pre IH]; intros prev Hnone; [done|]. simpl.
  pose proof (Hnone prev 0 ltac:(simpl; lia)) as H0. simpl in H0. rewrite H0.
  f_equal. apply IH.
  intros p i Hi. apply (Hnone p (S i)). simpl. lia.
Qed.

Lemma re_sub_from_match prev l c l' repl n :
  l = c :: l' -> matcher prev l = Some (repl, n) ->
  re_sub_from matcher prev 0 l = repl ++ re_sub_from matcher (Some c) (n - 1) l'.
Proof. intros -> Hm. simpl. by rewrite Hm. Qed.

Hypothesis matcher_prev : forall p p' l, matcher p l = matcher p' l.

Lemma re_sub_from_prev p p' l : re_sub_from matcher p 0 l = re_sub_from matcher p' 0 l.
Proof. destruct l as [|c l]; [done|]. simpl. by rewrite (matcher_prev p p'). Qed.
End ReSubFacts.

Lemma match_user_mention_head users p c l :
  c <> "<"%char -> match_user_mention users p (c :: l) = None.
Proof.
  intros Hc. unfold match_user_mention. simpl.
  destruct (chr_eqb "<" c) eqn:E; [|done].
  apply Ascii.eqb_eq in E. congruence.
Qed.

Lemma match_opt_tail_spec tail post :
  mention_tail tail ->
  match_opt_tail (tail ++ ">"%char :: post) = Some (length tail + 1).
Proof.
  intros [->|(junk & -> & Hjunk)]; [done|]. simpl.
  destruct (take_while_app not_gt junk (">"%char :: post) Hjunk) as [-> ->]; [done|].
  simpl. do 2 f_equal. lia.
Qed.

Lemma match_user_mention_token users p uid tail post :
  uid <> [] -> forallb is_word uid = true -> mention_tail tail ->
  match_user_mention users p (str_chars "<@" ++ uid ++ tail ++ ">"%char :: post)
  = Some (str_chars "**@"
            ++ str_chars (match users !! chars_str uid with
                          | Some user => User.label user
                          | None => chars_str uid
                          end)
            ++ str_chars "**",
          2 + length uid + (length tail + 1)).
Proof.
  intros Hne Hword Htail. unfold match_user_mention. simpl.
  assert (head (take_while is_word (tail ++ ">"%char :: post)) = None) as Hstop.
  { destruct Htail as [->|(junk & -> & _)]; done. }
  destruct (take_while_app is_word uid _ Hword Hstop) as [-> ->].
  rewrite bool_decide_false by done.
  rewrite match_opt_tail_spec by done. done.
Qed.

Lemma sub_user_mentions_token users pre uid tail post :
  Forall (fun c => c <> "<"%char) pre ->
  uid <> [] -> forallb is_word uid = true -> mention_tail tail ->
  sub_user_mentions users (pre ++ str_chars "<@" ++ uid ++ tail ++ ">"%char :: post)
  = pre ++ str_chars "**@" ++ str_chars (mention_label users uid) ++ str_chars "**"
        ++ sub_user_mentions users post.
Proof.
  intros Hpre Hne Hword Htail. unfold sub_user_mentions, re_sub.
  rewrite re_sub_from_copy.
  - f_equal.
    erewrite re_sub_from_match;
      [|reflexivity|by apply match_user_mention_token].
    rewrite <- !app_assoc. do 3 f_equal.
    replace (2 + length uid + (length tail + 1) - 1)
      with (length ("@"%char :: uid ++ tail ++ [">"%char]))
      by (simpl; rewrite !length_app; simpl; lia).
    assert ("@"%char :: uid ++ tail ++ ">"%char :: post
            = ("@"%char :: uid ++ tail ++ [">"%char]) ++ post) as ->
      by (simpl; by rewrite <- !app_assoc).
    rewrite re_sub_from_skip. by apply re_sub_from_prev.
  - intros p i Hi. rewrite Forall_forall in Hpre.
    destruct (drop i pre) as [|c rest] eqn:Hdrop.
    + apply (f_equal length) in Hdrop. rewrite length_drop in Hdrop. simpl in Hdrop. lia.
    + simpl. apply match_user_mention_head, Hpre.
      apply (list_elem_of_lookup_2 _ i). rewrite <- (Nat.add_0_r i), <- lookup_drop, Hdrop. done.
Qed.

(** *** Text that the later rules leave alone *)

Lemma is_inert_spec c :
  is_inert c = true ->
  c <> "<"%char /\ c <> "*"%char /\ c <> "_"%char /\ c <> "~"%char /\ c <> backtick.
Proof.
  unfold is_inert, chr_eqb. rewrite negb_true_iff, !orb_false_iff.
  intros [[[[H1 H2] H3] H4] H5].
  apply Ascii.eqb_neq in H1, H2, H3, H4, H5. done.
Qed.

Lemma Forall_inert l :
  forallb is_inert l = true ->
  Forall (fun c => c <> "<"%char) l /\ Forall (fun c => c <> "*"%char) l
  /\ Forall (fun c => c <> "_"%char) l /\ Forall (fun c => c <> "~"%char) l
  /\ no_backtick l.
Proof.
  intros H. rewrite forallb_forall in H. unfold no_backtick.
  split_and!; apply Forall_forall; intros c Hc%list_elem_of_In;
    destruct (is_inert_spec c (H c Hc)) as (? & ? & ? & ? & ?); done.
Qed.

(** A pattern that starts with the character [d] does nothing to a text
    without [d]. *)
Lemma re_sub_from_without matcher (d : ascii) prev pre l :
  (forall p c rest, c <> d -> matcher p (c :: rest) = None) ->
  Forall (fun c => c <> d) pre ->
  re_sub_from matcher prev 0 (pre ++ l)
  = pre ++ re_sub_from matcher (foldl (fun _ c => Some c) prev pre) 0 l.
Proof.
  intros Hm Hpre. apply re_sub_from_copy. intros p i Hi.
  rewrite Forall_forall in Hpre.
  destruct (drop i pre) as [|c rest] eqn:Hdrop.
  - apply (f_equal length) in Hdrop. rewrite length_drop in Hdrop. simpl in Hdrop. lia.
  - simpl. apply Hm, Hpre.
    apply (list_elem_of_lookup_2 _ i). rewrite <- (Nat.add_0_r i), <- lookup_drop, Hdrop. done.
Qed.

Lemma re_sub_without matcher (d : ascii) text :
  (forall p c rest, c <> d -> matcher p (c :: rest) = None) ->
  Forall (fun c => c <> d) text ->
  re_sub matcher text = text.
Proof.
  intros Hm Htext. unfold re_sub. rewrite <- (app_nil_r text) at 1.
  rewrite (re_sub_from_without _ d) by done. simpl. by rewrite app_nil_r.
Qed.

Ltac needs_lt :=
  intros ? ? ? ?; simpl;
  match goal with
  | |- context [chr_eqb "<" ?c] =>
      let E := fresh "E" in
      destruct (chr_eqb "<" c) eqn:E; [apply Ascii.eqb_eq in E; congruence|done]
  end.

Lemma match_channel_mention_head p c rest :
  c <> "<"%char -> match_channel_mention p (c :: rest) = None.
Proof. revert p c rest. unfold match_channel_mention. needs_lt. Qed.

Lemma match_subteam_head p c rest :
  c <> "<"%char -> match_subteam p (c :: rest) = None.
Proof. revert p c rest. unfold match_subteam. needs_lt. Qed.

Lemma match_special_head word p c rest :
  c <> "<"%char -> match_special word p (c :: rest) = None.
Proof. revert p c rest. unfold match_special. needs_lt. Qed.

Lemma match_link_head p c rest :
  c <> "<"%char -> match_link p (c :: rest) = None.
Proof. revert p c rest. unfold match_link. needs_lt. Qed.

Lemma match_emphasis_head delim b1 a1 b2 a2 left right p c rest :
  c <> delim -> match_emphasis delim b1 a1 b2 a2 left right p (c :: rest) = None.
Proof.
  intros Hc. unfold match_emphasis.
  destruct (chr_eqb c delim) eqn:E; [|done].
  apply Ascii.eqb_eq in E. congruence.
Qed.

(** A doubled asterisk is no delimiter of Slack bold. *)
Lemma sub_bold_copy_stars prev rest :
  re_sub_from (match_emphasis "*" (is_chr "*") (is_chr "*") (is_chr "*") (is_chr "*")
                              (str_chars "**") (str_chars "**"))
              prev 0 ("*"%char :: "*"%char :: rest)
  = "*"%char :: "*"%char
      :: re_sub_from (match_emphasis "*" (is_chr "*") (is_chr "*") (is_chr "*") (is_chr "*")
                                     (str_chars "**") (str_chars "**"))
                     (Some "*"%char) 0 rest.
Proof. destruct prev as [p|]; [destruct (is_chr "*" p) eqn:E|]; cbn; rewrite ?E; reflexivity. Qed.

Lemma rewrite_plain_mention pre label post :
  forallb is_inert pre = true -> forallb is_inert label = true ->
  forallb is_inert post = true ->
  rewrite_plain (pre ++ str_chars "**@" ++ label ++ str_chars "**" ++ post)
  = pre ++ str_chars "**@" ++ label ++ str_chars "**" ++ post.
Proof.
  intros (Hpre1 & Hpre2 & Hpre3 & Hpre4 & _)%Forall_inert
         (Hl1 & Hl2 & Hl3 & Hl4 & _)%Forall_inert
         (Hpost1 & Hpost2 & Hpost3 & Hpost4 & _)%Forall_inert.
  unfold rewrite_plain.
  assert (sub_bold (pre ++ str_chars "**@" ++ label ++ str_chars "**" ++ post)
          = pre ++ str_chars "**@" ++ label ++ str_chars "**" ++ post) as ->.
  { unfold sub_bold, re_sub.
    rewrite (re_sub_from_without _ "*"); [|apply match_emphasis_head|done]. f_equal.
    change (str_chars "**@" ++ label ++ str_chars "**" ++ post)
      with ("*"%char :: "*"%char :: ("@"%char :: label) ++ "*"%char :: "*"%char :: post).
    rewrite sub_bold_copy_stars. do 2 f_equal.
    rewrite (re_sub_from_without _ "*");
      [|apply match_emphasis_head|by constructor]. f_equal.
    rewrite sub_bold_copy_stars. do 2 f_equal.
    rewrite <- (app_nil_r post) at 1.
    rewrite (re_sub_from_without _ "*"); [|apply match_emphasis_head|done].
    simpl. by rewrite app_nil_r. }
  assert (forall d, d <> "*"%char -> d <> "@"%char ->
            Forall (fun c => c <> d) pre -> Forall (fun c => c <> d) label ->
            Forall (fun c => c <> d) post ->
            Forall (fun c => c <> d)
                   (pre ++ str_chars "**@" ++ label ++ str_chars "**" ++ post)) as Hall.
  { intros d Hd1 Hd2 H1 H2 H3. rewrite !Forall_app. split_and!; try done.
    - repeat constructor; congruence.
    - repeat constructor; congruence. }
  unfold sub_italic. rewrite (re_sub_without _ "_");
    [|apply match_emphasis_head|by apply Hall].
  unfold sub_strike. rewrite (re_sub_without _ "~");
    [|apply match_emphasis_head|by apply Hall].
  done.
Qed.

Lemma convert_mrkdwn_mention users pre uid tail post :
  forallb is_inert pre = true -> forallb is_inert post = true ->
  forallb is_inert (str_chars (mention_label users uid)) = true ->
  uid <> [] -> forallb is_word uid = true -> mention_tail tail ->
  convert_mrkdwn (chars_str (pre ++ str_chars "<@" ++ uid ++ tail ++ ">"%char :: post)) users
  = chars_str (pre ++ str_chars "**@" ++ str_chars (mention_label users uid)
                   ++ str_chars "**" ++ post).
Proof.
  intros Hpre Hpost Hlabel Hne Hword Htail. unfold convert_mrkdwn.
  destruct (Forall_inert _ Hpre) as (Hpre1 & _ & _ & _ & Hpre5).
  destruct (Forall_inert _ Hpost) as (Hpost1 & _ & _ & _ & Hpost5).
  destruct (Forall_inert _ Hlabel) as (Hl1 & _ & _ & _ & Hl5).
  rewrite chars_str_chars, sub_user_mentions_token by done.
  assert (sub_user_mentions users post = post) as ->.
  { apply (re_sub_without _ "<"); [|done].
    intros p c rest Hc. by apply match_user_mention_head. }
  set (text := pre ++ str_chars "**@" ++ str_chars (mention_label users uid)
                   ++ str_chars "**" ++ post).
  assert (Forall (fun c => c <> "<"%char) text) as Hlt.
  { unfold text. rewrite !Forall_app. split_and!; try done; repeat constructor; discriminate. }
  assert (no_backtick text) as Hbt.
  { unfold text, no_backtick. rewrite !Forall_app.
    split_and!; try done; repeat constructor; discriminate. }
  rewrite (re_sub_without match_channel_mention "<");
    [|apply match_channel_mention_head|done].
  rewrite (re_sub_without match_subteam "<"); [|apply match_subteam_head|done].
  rewrite (re_sub_without (match_special "here") "<"); [|apply match_special_head|done].
  rewrite (re_sub_without (match_special "channel") "<"); [|apply match_special_head|done].
  rewrite (re_sub_without (match_special "everyone") "<"); [|apply match_special_head|done].
  rewrite (re_sub_without match_link "<"); [|apply match_link_head|done].
  f_equal. unfold convert_slack_formatting_chars.
  rewrite <- (app_nil_r text) at 1. rewrite scan_parts_plain by done.
  simpl scan_parts. rewrite render_flush_plain by done.
  by apply rewrite_plain_mention.
Qed.

(** ** The claim about user mentions *)

Lemma take_drop_while {A} (f : A -> bool) l :
  l = take_while f l ++ drop_while f l /\ forallb f (take_while f l) = true
  /\ match drop_while f l with
     | c :: _ => f c = false
     | [] => True
     end.
Proof.
  induction l as [|a l (IH1 & IH2 & IH3)]; simpl; [done|].
  destruct (f a) eqn:Hfa; simpl; [|done].
  rewrite <- IH1, Hfa, IH2. done.
Qed.

Lemma strip_prefix_app p l l1 : strip_prefix p l = Some l1 -> l = p ++ l1.
Proof.
  revert l. induction p as [|a p IH]; intros l; simpl; [by intros [= ->]|].
  destruct l as [|b l]; [done|]. destruct (chr_eqb a b) eqn:Hab; [|done].
  apply Ascii.eqb_eq in Hab as ->. by intros ->%IH.
Qed.

Lemma match_opt_tail_Some l n :
  match_opt_tail l = Some n ->
  exists tail post, l = tail ++ ">"%char :: post /\ mention_tail tail.
Proof.
  destruct l as [|c l']; simpl; [done|].
  destruct (chr_eqb c ">") eqn:Hgt.
  { intros _. apply Ascii.eqb_eq in Hgt as ->. exists [], l'. split; [done|by left]. }
  destruct (chr_eqb c "|") eqn:Hbar; [|done].
  apply Ascii.eqb_eq in Hbar as ->.
  destruct (take_drop_while not_gt l') as (Hl' & Hjunk & Hstop).
  destruct (drop_while not_gt l') as [|x post] eqn:Hdrop; [done|]. intros _.
  unfold not_gt in Hstop. apply negb_false_iff, Ascii.eqb_eq in Hstop as ->.
  exists ("|"%char :: take_while not_gt l'), post. split.
  - simpl. by rewrite <- Hl'.
  - right. by exists (take_while not_gt l').
Qed.

(** The pattern matches only at a mention token. *)
Lemma match_user_mention_Some users p l repl n :
  match_user_mention users p l = Some (repl, n) -> starts_with_mention l.
Proof.
  unfold match_user_mention.
  destruct (strip_prefix (str_chars "<@") l) as [l1|] eqn:Hl1; [|done]. simpl.
  apply strip_prefix_app in Hl1 as ->.
  destruct (take_drop_while is_word l1) as (Hsplit & Hword & _).
  destruct (bool_decide (take_while is_word l1 = [])) eqn:Hne; [done|].
  apply bool_decide_eq_false in Hne.
  destruct (match_opt_tail (drop_while is_word l1)) as [k|] eqn:Htail; [|done].
  intros _. apply match_opt_tail_Some in Htail as (tail & post & Hdrop & Htail).
  exists (take_while is_word l1), tail, post. split_and!; [|done..].
  rewrite <- Hdrop. by rewrite <- Hsplit.
Qed.

Lemma sub_user_mentions_other users c rest :
  ~ starts_with_mention (c :: rest) ->
  sub_user_mentions users (c :: rest) = c :: sub_user_mentions users rest.
Proof.
  intros Hno. unfold sub_user_mentions, re_sub. simpl.
  destruct (match_user_mention users None (c :: rest)) as [[repl n]|] eqn:Hm.
  { by apply match_user_mention_Some in Hm. }
  f_equal. by apply re_sub_from_prev.
Qed.

(** C9, counterexample.  With U1 labelled _bob_ the mention becomes
    "**@_bob_**" and the italic rule then rewrites the label. *)
Lemma mention_label_is_rewritten :
  underscore_users !! "U1" = Some underscore_bob
  /\ User.label underscore_bob = "_bob_"
  /\ convert_mrkdwn "hi <@U1>" underscore_users = "hi **@*bob***"
  /\ convert_mrkdwn "hi <@U1>" underscore_users <> "hi **@_bob_**".
Proof.
  assert (convert_mrkdwn "hi <@U1>" underscore_users = "hi **@*bob***") as Heq
    by (vm_compute; reflexivity).
  split_and!; [vm_compute; reflexivity|vm_compute; reflexivity|exact Heq|].
  rewrite Heq. discriminate.
Qed.

(** C9, as amended.  The mention pass of convert_mrkdwn rewrites a token
    [<@ID>] or [<@ID|anything>] to "**@" + label + "**", where the label is
    the label of the user registered under ID and the raw ID when there is
    none; the text before the token, which holds no other token start, is
    kept and the pass goes on behind the token; a character at which no
    token starts is copied, and the pass goes on behind it.  The later
    passes of convert_mrkdwn run over the result: where the label and the
    text around the token hold no character that another rule reacts to,
    the token rewritten in this way is the result of convert_mrkdwn.  In
    particular "Hello <@U001>!" with U001 labeled
    alice converts to "Hello **@alice**!", and the same text with the
    unknown id U999 to "Hello **@U999**!". *)
Theorem user_mention_rewritten (users : gmap string User.t) :
  (forall pre uid tail post,
     Forall (fun c => c <> "<"%char) pre ->
     uid <> [] -> forallb is_word uid = true -> mention_tail tail ->
     sub_user_mentions users (pre ++ str_chars "<@" ++ uid ++ tail ++ ">"%char :: post)
     = pre ++ str_chars "**@" ++ str_chars (mention_label users uid) ++ str_chars "**"
           ++ sub_user_mentions users post)
  /\ (forall uid user, users !! chars_str uid = Some user ->
        mention_label users uid = User.label user)
  /\ (forall uid, users !! chars_str uid = None -> mention_label users uid = chars_str uid)
  /\ (forall pre uid tail post,
        forallb is_inert pre = true -> forallb is_inert post = true ->
        forallb is_inert (str_chars (mention_label users uid)) = true ->
        uid <> [] -> forallb is_word uid = true -> mention_tail tail ->
        convert_mrkdwn
          (chars_str (pre ++ str_chars "<@" ++ uid ++ tail ++ ">"%char :: post)) users
        = chars_str (pre ++ str_chars "**@" ++ str_chars (mention_label users uid)
                         ++ str_chars "**" ++ post))
  /\ (forall user, users !! "U001" = Some user -> User.label user = "alice" ->
        convert_mrkdwn "Hello <@U001>!" users = "Hello **@alice**!")
  /\ (users !! "U999" = None ->
        convert_mrkdwn "Hello <@U999>!" users = "Hello **@U999**!")
  /\ sub_user_mentions users [] = []
  /\ (forall c rest,
        ~ starts_with_mention (c :: rest) ->
        sub_user_mentions users (c :: rest) = c :: sub_user_mentions users rest).
Proof.
  split_and!; [| | | | | |reflexivity|apply sub_user_mentions_other].
  - apply sub_user_mentions_token.
  - intros uid user Hu. unfold mention_label. by rewrite Hu.
  - intros uid Hu. unfold mention_label. by rewrite Hu.
  - apply convert_mrkdwn_mention.
  - intros user Hu Hl. unfold convert_mrkdwn.
    change (str_chars "Hello <@U001>!")
      with (str_chars "Hello " ++ str_chars "<@" ++ str_chars "U001" ++ []
              ++ ">"%char :: str_chars "!").
    rewrite sub_user_mentions_token;
      [|repeat constructor; discriminate|discriminate|reflexivity|by left].
    unfold mention_label. change (chars_str (str_chars "U001")) with "U001".
    rewrite Hu, Hl. vm_compute. reflexivity.
  - intros Hu. unfold convert_mrkdwn.
    change (str_chars "Hello <@U999>!")
      with (str_chars "Hello " ++ str_chars "<@" ++ str_chars "U999" ++ []
              ++ ">"%char :: str_chars "!").
    rewrite sub_user_mentions_token;
      [|repeat constructor; discriminate|discriminate|reflexivity|by left].
    unfold mention_label. change (chars_str (str_chars "U999")) with "U999".
    rewrite Hu. vm_compute. reflexivity.
Qed.

Lemma user_mention_rewritten_witness :
  sample_users !! "U001" = Some alice
  /\ User.label alice = "alice"
  /\ sample_users !! "U999" = None
  /\ convert_mrkdwn "Hello <@U001>!" sample_users = "Hello **@alice**!"
  /\ convert_mrkdwn "Hello <@U999>!" sample_users = "Hello **@U999**!"
  /\ sub_user_mentions sample_users (str_chars "cc <@U002|bob> and <@U001>")
     = str_chars "cc **@Bob Jones** and **@alice**"
  /\ ~ starts_with_mention (str_chars "<3 <@U001>")
  /\ sub_user_mentions sample_users (str_chars "<3 <@U001>")
     = "<"%char :: sub_user_mentions sample_users (str_chars "3 <@U001>").
Proof.
  destruct (user_mention_rewritten sample_users)
    as (Htoken & _ & _ & _ & Hknown & Hunknown & _ & Hother).
  assert (~ starts_with_mention (str_chars "<3 <@U001>")) as Hheart.
  { intros (uid & tail & post & Heq & _). simpl in Heq. discriminate Heq. }
  split_and!; [| | | | | |exact Hheart|exact (Hother _ _ Hheart)].
  - vm_compute; reflexivity.
  - vm_compute; reflexivity.
  - vm_compute; reflexivity.
  - apply (Hknown alice); vm_compute; reflexivity.
  - apply Hunknown; vm_compute; reflexivity.
  - change (str_chars "cc <@U002|bob> and <@U001>")
      with (str_chars "cc " ++ str_chars "<@" ++ str_chars "U002" ++ str_chars "|bob"
              ++ ">"%char :: str_chars " and <@U001>").
    rewrite Htoken;
      [vm_compute; reflexivity|repeat constructor; discriminate|discriminate|reflexivity|].
    right. exists (str_chars "bob"). split; reflexivity.
Defined.

(** * Further properties of the loaders *)

Lemma head_filter_None {A} (P : A -> Prop) `{!forall x, Decision (P x)} (l : list A) :
  (forall x, x ∈ l -> ~ P x) -> head (filter P l) = None.
Proof.
  intros Hall. induction l as [|x l IH]; [done|].
  rewrite filter_cons. destruct (decide (P x)) as [HP|_].
  - exfalso. apply (Hall x); [by left|done].
  - apply IH. intros y Hy. apply Hall. by right.
Qed.

Lemma omap_all_None {A B} (f : A -> option B) (l : list A) :
  (forall x, x ∈ l -> f x = None) -> omap f l = [].
Proof.
  intros H. induction l as [|x l IH]; [done|]. simpl.
  rewrite (H x) by by left. apply IH. intros y Hy. apply H. by right.
Qed.

(** X1.  A file that the archive lacks is no error: without a member named
    users.json the user table is empty, without a member named
    channels.json there is no channel, and for a channel without a day file
    the load returns no message and leaves the user table as it is. *)
Theorem absent_members_load_nothing (zf : archive) (channel_name : string)
    (users : gmap string User.t) :
  ((forall name, name ∈ namelist zf -> posix_name name <> "users.json") ->
     load_users zf = Ok ∅)
  /\ ((forall name, name ∈ namelist zf -> posix_name name <> "channels.json") ->
        load_channels zf = Ok [])
  /\ ((forall name, name ∈ namelist zf -> match_date_file channel_name name = None) ->
        load_channel_messages zf channel_name users = (users, Ok ([], []))).
Proof.
  split_and!.
  - intros H. unfold load_users, first_named. by rewrite head_filter_None.
  - intros H. unfold load_channels, first_named. by rewrite head_filter_None.
  - intros H. unfold load_channel_messages, date_files.
    rewrite omap_all_None; [done|].
    intros name Hname. by rewrite H.
Qed.

Lemma absent_members_load_nothing_witness :
  load_users thread_archive = Ok ∅
  /\ load_channels thread_archive = Ok []
  /\ load_channel_messages thread_archive "random" sample_users
     = (sample_users, Ok ([], [])).
Proof.
  split_and!.
  - apply (absent_members_load_nothing thread_archive "random" sample_users).
    intros name Hname. vm_compute in Hname.
    apply list_elem_of_singleton in Hname as ->. vm_compute. discriminate.
  - apply (absent_members_load_nothing thread_archive "random" sample_users).
    intros name Hname. vm_compute in Hname.
    apply list_elem_of_singleton in Hname as ->. vm_compute. discriminate.
  - apply (absent_members_load_nothing thread_archive "random" sample_users).
    intros name Hname. vm_compute in Hname.
    apply list_elem_of_singleton in Hname as ->. vm_compute. reflexivity.
Defined.

(** ** The user table *)

Lemma keyed_by_id_insert users u :
  keyed_by_id users -> keyed_by_id (<[User.id u := u]> users).
Proof.
  intros Hk uid v. destruct (decide (User.id u = uid)) as [<-|Hne].
  - rewrite lookup_insert_eq. by intros [= <-].
  - rewrite lookup_insert_ne by done. apply Hk.
Qed.

Lemma load_user_records_keyed data users users' :
  keyed_by_id users -> load_user_records data users = Ok users' -> keyed_by_id users'.
Proof.
  revert users. induction data as [|raw data IH]; intros users Hk; simpl.
  - by intros [= <-].
  - intros (u & Hu & Hrest)%bind_Ok. eapply IH; [|done]. by apply keyed_by_id_insert.
Qed.

(** A loader that keeps a property of the table, also when it raises. *)
Section Keeps.
Variable P : gmap string User.t -> Prop.

Lemma keeps_ret {A} (a : A) : keeps P (mret a : loader A).
Proof. intros users. done. Qed.

Lemma keeps_lift {A} (r : result A) : keeps P (lift r).
Proof. intros users. done. Qed.

Lemma keeps_bind {A B} (c : loader A) (k : A -> loader B) :
  keeps P c -> (forall a, keeps P (k a)) -> keeps P (x ← c; k x).
Proof.
  intros Hc Hk users HP. unfold mbind, loader_bind.
  specialize (Hc users HP). destruct (c users) as [users1 [a|e]]; simpl in *; [|done].
  by apply Hk.
Qed.

Hypothesis P_backfill : forall users uid name display_name real_name,
  P users -> users !! uid = None ->
  P (<[uid := User.mk uid name display_name real_name]> users).

Lemma keeps_scan_record raw : keeps P (scan_record raw).
Proof.
  unfold scan_record.
  apply keeps_bind; [apply keeps_lift|intros d].
  apply keeps_bind; [apply keeps_lift|intros msg].
  apply keeps_bind; [apply keeps_lift|intros uid].
  intros users HP. unfold mbind at 1, loader_bind at 1, contains_user.
  destruct (bool_decide (is_Some (users !! uid))) eqn:Hknown.
  - rewrite andb_false_r. done.
  - apply bool_decide_eq_false in Hknown. apply eq_None_not_Some in Hknown.
    destruct (truthy uid); simpl; [|done].
    unfold mbind, loader_bind, lift, mret, loader_ret, set_user.
    repeat (case_match; simplify_eq/=; try done).
    by apply P_backfill.
Qed.

Lemma keeps_scan_records data : keeps P (scan_records data).
Proof.
  induction data as [|raw data IH]; simpl; [apply keeps_ret|].
  apply keeps_bind; [apply keeps_scan_record|intros msg].
  apply keeps_bind; [done|intros msgs]. apply keeps_ret.
Qed.

Lemma keeps_scan_files zf files : keeps P (scan_files zf files).
Proof.
  induction files as [|[d path] files IH]; simpl; [apply keeps_ret|].
  apply keeps_bind; [apply keeps_lift|intros data].
  apply keeps_bind; [apply keeps_lift|intros l].
  apply keeps_bind; [apply keeps_scan_records|intros msgs].
  apply keeps_bind; [done|intros more]. apply keeps_ret.
Qed.

Lemma keeps_load_channel_messages zf channel_name :
  keeps P (load_channel_messages zf channel_name).
Proof.
  unfold load_channel_messages.
  apply keeps_bind; [apply keeps_scan_files|intros all].
  apply keeps_bind; [apply keeps_lift|intros sorted]. apply keeps_ret.
Qed.
End Keeps.

Lemma keyed_by_id_backfill users uid name display_name real_name :
  keyed_by_id users -> users !! uid = None ->
  keyed_by_id (<[uid := User.mk uid name display_name real_name]> users).
Proof. intros Hk _. by apply (keyed_by_id_insert users (User.mk uid _ _ _)). Qed.

(** X2.  Every entry of the user table stands under its own id: the table
    that [load_users] returns has this property, and the backfill of
    [load_channel_messages] keeps it, also when the load raises. *)
Theorem user_table_keyed_by_id (zf : archive) :
  (forall users, load_users zf = Ok users -> keyed_by_id users)
  /\ (forall channel_name users,
        keyed_by_id users ->
        keyed_by_id (load_channel_messages zf channel_name users).1).
Proof.
  split.
  - intros users. unfold load_users. destruct (first_named "users.json" zf).
    + intros (v & _ & (data & _ & H)%bind_Ok)%bind_Ok.
      eapply load_user_records_keyed; [|done]. intros uid u. by rewrite lookup_empty.
    + intros [= <-] uid u. by rewrite lookup_empty.
  - intros channel_name users Hk.
    apply (keeps_load_channel_messages keyed_by_id); [|done].
    intros. by apply keyed_by_id_backfill.
Qed.

Lemma user_table_keyed_by_id_witness :
  keyed_by_id (∅ : gmap string User.t)
  /\ keyed_by_id (load_channel_messages bad_ts_archive "general" ∅).1.
Proof.
  assert (keyed_by_id (∅ : gmap string User.t)) as H0.
  { intros uid u. by rewrite lookup_empty. }
  split; [done|].
  apply (user_table_keyed_by_id bad_ts_archive). done.
Defined.

Lemma load_user_records_last data users0 us :
  Forall2 (fun raw u => load_user raw = Ok u) data us ->
  exists users, load_user_records data users0 = Ok users
    /\ forall uid, users !! uid
         = match last (filter (fun u => User.id u = uid) us) with
           | Some u => Some u
           | None => users0 !! uid
           end.
Proof.
  intros H. revert users0. induction H as [|raw u data us Hu _ IH]; intros users0.
  - exists users0. done.
  - destruct (IH (<[User.id u := u]> users0)) as (users & Hload & Hlook).
    exists users. split; [simpl; by rewrite Hu|].
    intros uid. rewrite Hlook, filter_cons.
    destruct (decide (User.id u = uid)) as [<-|Hne].
    + rewrite lookup_insert_eq, last_cons.
      by destruct (last _).
    + by rewrite lookup_insert_ne.
Qed.

(** X3.  The table of [load_users] has one entry for each id of the users
    file: the user parsed from the last record that carries the id, and
    nothing for an id that no record carries. *)
Theorem load_users_last_record_wins (zf : archive) (users : gmap string User.t) :
  load_users zf = Ok users ->
  exists us,
    Forall2 (fun raw u => load_user raw = Ok u) (users_records zf) us
    /\ forall uid, users !! uid = last (filter (fun u => User.id u = uid) us).
Proof.
  unfold load_users, users_records. destruct (first_named "users.json" zf) as [name|].
  - intros (v & -> & (data & Hdata & H)%bind_Ok)%bind_Ok.
    destruct v; try done. injection Hdata as ->.
    assert (exists us, mapM_result load_user data = Ok us) as [us Hus].
    { clear -H. revert H. generalize (∅ : gmap string User.t). intros g.
      revert g users. induction data as [|raw data IH]; intros g users; simpl.
      - by exists [].
      - intros (u & -> & Hrest)%bind_Ok. destruct (IH _ _ Hrest) as [us ->].
        by exists (u :: us). }
    apply mapM_result_Forall2 in Hus. exists us. split; [done|].
    destruct (load_user_records_last data ∅ us Hus) as (users1 & Hload & Hlook).
    rewrite H in Hload. injection Hload as <-.
    intros uid. rewrite Hlook, lookup_empty. by destruct (last _).
  - intros [= <-]. exists []. split; [done|]. intros uid. by rewrite lookup_empty.
Qed.

Lemma load_users_last_record_wins_witness :
  exists users, load_users users_archive = Ok users
    /\ users !! "U001" = Some (User.mk "U001" "alice" EmptyString EmptyString)
    /\ users !! "U003" = None.
Proof.
  destruct (load_users users_archive) as [users|e] eqn:H; [|by vm_compute in H].
  exists users.
  destruct (load_users_last_record_wins users_archive users H) as (us & Hus & Hlook).
  vm_compute in Hus.
  repeat match goal with
         | H : Forall2 _ (_ :: _) _ |- _ => apply Forall2_cons_inv_l in H as (? & ? & ? & H & ->)
         | H : Forall2 _ [] _ |- _ => apply Forall2_nil_inv_l in H as ->
         | H : Ok _ = Ok _ |- _ => injection H as <-
         end.
  split_and!; [done| |]; rewrite Hlook; reflexivity.
Defined.

(** ** The day files of a channel *)

Lemma chr_eqb_eq a b : chr_eqb a b = true <-> a = b.
Proof. apply Ascii.eqb_eq. Qed.

Lemma chr_eqb_neq a b : chr_eqb a b = false <-> a <> b.
Proof. apply Ascii.eqb_neq. Qed.

Lemma is_date_length d : is_date d = true -> length d = 10.
Proof.
  unfold is_date. do 11 (destruct d as [|? d]; try done).
Qed.

Lemma strip_final_newline (s0 : chars) :
  exists nl, s0 = match last s0 with
                  | Some c => if chr_eqb c newline then removelast s0 else s0
                  | None => s0
                  end ++ nl
             /\ (nl = [] \/ nl = [newline]).
Proof.
  destruct (last s0) as [c|] eqn:Hlast.
  - destruct (chr_eqb c newline) eqn:Hc.
    + apply chr_eqb_eq in Hc as ->. apply last_Some in Hlast as [l' ->].
      exists [newline]. rewrite removelast_last. split; [done|by right].
    + exists []. rewrite app_nil_r. split; [done|by left].
  - exists []. rewrite app_nil_r. split; [done|by left].
Qed.

(** X4.  [load_channel_messages] reads exactly the members named
    DIR/CHANNEL/YYYY-MM-DD.json, where the directory part DIR/ is optional
    and the channel name is taken literally: a match has this shape (up to
    one final newline), and every name of this shape matches, with the date
    as its group. *)
Theorem date_file_names (channel_name : string) :
  (forall name date,
     match_date_file channel_name name = Some date ->
     exists dir nl,
       str_chars name = dir ++ str_chars channel_name ++ str_chars "/"
                            ++ str_chars date ++ str_chars ".json" ++ nl
       /\ is_date (str_chars date) = true
       /\ dir_prefix dir
       /\ (nl = [] \/ nl = [newline]))
  /\ (forall dir date,
        dir_prefix dir -> is_date date = true ->
        match_date_file channel_name
          (chars_str (dir ++ str_chars channel_name ++ str_chars "/"
                          ++ date ++ str_chars ".json"))
        = Some (chars_str date)).
Proof.
  split.
  - intros name date. unfold match_date_file.
    destruct (strip_final_newline (str_chars name)) as (nl & Hname & Hnl).
    set (s := match last (str_chars name) with
              | Some c => if chr_eqb c newline then removelast (str_chars name)
                          else str_chars name
              | None => str_chars name
              end) in *.
    set (tail := str_chars channel_name ++ str_chars "/").
    set (k := length s - (length tail + 15)).
    set (prefix := take k s).
    set (d := take 10 (drop (k + length tail) s)).
    destruct (bool_decide (s = prefix ++ tail ++ d ++ str_chars ".json")) eqn:Hs; [|done].
    destruct (is_date d) eqn:Hd; [|done].
    simpl. case_match eqn:Hok; [|done]. intros [= <-].
    apply bool_decide_eq_true in Hs.
    exists prefix, nl. rewrite chars_str_chars. split_and!; [|done| |done].
    + rewrite Hname, Hs. unfold tail. by rewrite <- !(assoc_L (++)).
    + destruct (rev prefix) as [|c x] eqn:Hrev.
      * left. apply (f_equal (@rev ascii)) in Hrev. by rewrite rev_involutive in Hrev.
      * right. apply andb_true_iff in Hok as [[Hc Hx]%andb_true_iff Hnl'].
        apply chr_eqb_eq in Hc as ->. apply bool_decide_eq_true in Hx.
        apply (f_equal (@rev ascii)) in Hrev. rewrite rev_involutive in Hrev. simpl in Hrev.
        exists (rev x). split_and!; [|apply Forall_forall|done].
        -- intros Hnil. apply Hx. apply (f_equal (@rev ascii)) in Hnil.
           by rewrite rev_involutive in Hnil.
        -- intros c Hin Hcn. rewrite forallb_forall in Hnl'.
           specialize (Hnl' c). apply list_elem_of_In, in_rev in Hin.
           specialize (Hnl' Hin). subst c. by rewrite chr_eqb_refl in Hnl'.
  - intros dir date Hdir Hdate. unfold match_date_file. rewrite chars_str_chars.
    set (tail := str_chars channel_name ++ str_chars "/").
    assert (dir ++ str_chars channel_name ++ str_chars "/" ++ date ++ str_chars ".json"
            = dir ++ tail ++ date ++ str_chars ".json") as ->.
    { unfold tail. by rewrite <- !(assoc_L (++)). }
    assert (last (dir ++ tail ++ date ++ str_chars ".json") = Some "n"%char) as ->.
    { change (str_chars ".json") with (str_chars ".jso" ++ ["n"%char]).
      rewrite !(assoc_L (++)). apply last_snoc. }
    replace (chr_eqb "n" newline) with false by reflexivity.
    pose proof (is_date_length _ Hdate) as Hlen.
    assert (length (dir ++ tail ++ date ++ str_chars ".json") - (length tail + 15)
            = length dir) as ->.
    { rewrite !length_app, Hlen. simpl. lia. }
    rewrite take_app_length.
    rewrite (assoc_L (++) dir tail), <- length_app, drop_app_length.
    rewrite <- Hlen, take_app_length.
    rewrite <- (assoc_L (++) dir tail).
    rewrite bool_decide_eq_true_2 by done. rewrite Hdate. simpl.
    destruct Hdir as [->|(x & Hx & Hnl & ->)]; [done|].
    rewrite rev_app_distr. simpl.
    rewrite bool_decide_eq_true_2.
    2: { intros Hnil. apply Hx. apply (f_equal (@rev ascii)) in Hnil.
         by rewrite rev_involutive in Hnil. }
    simpl. replace (forallb _ (rev x)) with true; [done|].
    symmetry. apply forallb_forall. intros c Hin.
    rewrite <- in_rev, <- list_elem_of_In in Hin.
    rewrite Forall_forall in Hnl. specialize (Hnl c Hin).
    apply negb_true_iff. by apply chr_eqb_neq.
Qed.

Lemma date_file_names_witness :
  match_date_file "general" "export/general/2024-01-15.json" = Some "2024-01-15"
  /\ match_date_file "general" "dev-general/2024-01-15.json" = None.
Proof.
  split.
  - apply (proj2 (date_file_names "general") (str_chars "export/") (str_chars "2024-01-15")).
    + right. exists (str_chars "export"). split_and!; [done| |done].
      repeat constructor; discriminate.
    + reflexivity.
  - destruct (match_date_file "general" "dev-general/2024-01-15.json") as [date|] eqn:H;
      [|done].
    vm_compute in H. discriminate.
Defined.

Lemma chars_ltb_asym a b : chars_ltb a b = true -> chars_ltb b a = false.
Proof.
  revert b. induction a as [|x a IH]; intros [|y b]; simpl; try done.
  destruct (code x <? code y)%N eqn:Hxy, (code y <? code x)%N eqn:Hyx; try done.
  - apply N.ltb_lt in Hxy, Hyx. lia.
  - apply IH.
Qed.

Lemma chars_ge_trans a b c :
  chars_ltb b a = false -> chars_ltb c b = false -> chars_ltb c a = false.
Proof.
  revert b c. induction a as [|x a IH]; intros [|y b] [|z c]; simpl; try done.
  destruct (code y <? code x)%N eqn:Hyx; [done|].
  destruct (code x <? code y)%N eqn:Hxy.
  - intros _. destruct (code z <? code y)%N eqn:Hzy; [done|].
    destruct (code y <? code z)%N eqn:Hyz.
    + intros _. apply N.ltb_lt in Hxy, Hyz. apply N.ltb_ge in Hyx, Hzy.
      replace (code z <? code x)%N with false by (symmetry; apply N.ltb_ge; lia).
      replace (code x <? code z)%N with true by (symmetry; apply N.ltb_lt; lia). done.
    + intros _. apply N.ltb_lt in Hxy. apply N.ltb_ge in Hyx, Hzy, Hyz.
      replace (code z <? code x)%N with false by (symmetry; apply N.ltb_ge; lia).
      replace (code x <? code z)%N with true by (symmetry; apply N.ltb_lt; lia). done.
  - intros Hba. destruct (code z <? code y)%N eqn:Hzy; [done|].
    apply N.ltb_ge in Hyx, Hxy, Hzy.
    destruct (code y <? code z)%N eqn:Hyz.
    + intros _. apply N.ltb_lt in Hyz.
      replace (code z <? code x)%N with false by (symmetry; apply N.ltb_ge; lia).
      replace (code x <? code z)%N with true by (symmetry; apply N.ltb_lt; lia). done.
    + intros Hcb. apply N.ltb_ge in Hyz.
      replace (code z <? code x)%N with false by (symmetry; apply N.ltb_ge; lia).
      replace (code x <? code z)%N with false by (symmetry; apply N.ltb_ge; lia).
      by apply (IH b c).
Qed.

Lemma elem_of_omap_pair {A B} (f : A -> option B) (l : list A) (b : B) (a : A) :
  (b, a) ∈ omap (fun a => (fun b => (b, a)) <$> f a) l <-> a ∈ l /\ f a = Some b.
Proof.
  rewrite list_elem_of_omap. split.
  - intros (a' & Hin & Hf). destruct (f a') as [b'|] eqn:Hfa; simplify_eq/=. done.
  - intros [Hin Hf]. exists a. by rewrite Hf.
Qed.

(** X5.  The day files of a channel are read in ascending order of their
    dates, whatever the order of the archive: the list of files is a
    rearrangement of the matching members, sorted by the date string, and
    it holds a member under the date that its name carries. *)
Theorem date_files_in_date_order (zf : archive) (channel_name : string) :
  date_files zf channel_name
    ≡ₚ omap (fun name => (fun d => (d, name)) <$> match_date_file channel_name name)
            (namelist zf)
  /\ StronglySorted (fun f g => str_ltb g.1 f.1 = false) (date_files zf channel_name)
  /\ (forall date name,
        (date, name) ∈ date_files zf channel_name
        <-> name ∈ namelist zf /\ match_date_file channel_name name = Some date).
Proof.
  split_and!.
  - apply py_sort_Permutation.
  - apply (py_sort_sorted fst str_ltb (fun _ => True)).
    + intros a b _ _. apply chars_ltb_asym.
    + intros a b c _ _ _. apply chars_ge_trans.
    + by apply Forall_forall.
  - intros date name. unfold date_files. rewrite py_sort_Permutation.
    apply (elem_of_omap_pair (match_date_file channel_name)).
Qed.

Lemma date_files_in_date_order_witness :
  date_files unsorted_archive "general"
  = [("2024-01-15", "general/2024-01-15.json"); ("2024-01-16", "general/2024-01-16.json")]
  /\ ("2024-01-15", "general/2024-01-15.json") ∈ date_files unsorted_archive "general".
Proof.
  split; [reflexivity|].
  apply (proj2 (proj2 (date_files_in_date_order unsorted_archive "general"))).
  split; [|reflexivity].
  apply elem_of_cons. right. apply elem_of_cons. by left.
Defined.

(** ** The sort *)

Lemma sort_key_Raise m e :
  sort_key m = Raise e ->
  e = ValueError /\ Message.ts m <> EmptyString
  /\ py_float (Message.ts m) = Raise ValueError.
Proof.
  unfold sort_key, truthy. destruct (String.eqb_spec (Message.ts m) EmptyString) as [->|Hne];
    simpl; [done|].
  unfold py_float. destruct (float_of_chars _); [done|]. by intros [= <-].
Qed.

Lemma mapM_result_Raise {A B} (f : A -> result B) xs e :
  mapM_result f xs = Raise e -> Exists (fun x => f x = Raise e) xs.
Proof.
  induction xs as [|x xs IH]; simpl; [done|].
  destruct (f x) as [y|e'] eqn:Hx; simpl.
  - destruct (mapM_result f xs) as [ys|e'']; simpl; [done|].
    intros [= ->]. right. by apply IH.
  - intros [= ->]. by left.
Qed.

Lemma mapM_result_Ok {A B} (f : A -> result B) xs :
  Forall (fun x => exists y, f x = Ok y) xs ->
  exists ys, mapM_result f xs = Ok ys /\ length ys = length xs.
Proof.
  induction 1 as [|x xs [y Hy] _ (ys & IH & Hlen)]; simpl; [by exists []|].
  exists (y :: ys). rewrite Hy, IH. simpl. by rewrite Hlen.
Qed.



(** *** Stability *)

Section Stable.
Context {A K : Type} (key : A -> K) (lt : K -> K -> bool).

Lemma insert_rev_split x racc :
  exists pre post,
    racc = pre ++ post /\ insert_rev key lt x racc = pre ++ x :: post
    /\ Forall (fun y => lt (key x) (key y) = true) pre.
Proof.
  induction racc as [|y racc (pre & post & -> & Hins & Hpre)]; simpl.
  - by exists [], [].
  - destruct (lt (key x) (key y)) eqn:Hxy.
    + exists (y :: pre), post. rewrite Hins. split_and!; [done|done|by constructor].
    + by exists [], (y :: pre ++ post).
Qed.

Lemma insert_rev_sublist x racc : racc `sublist_of` insert_rev key lt x racc.
Proof.
  destruct (insert_rev_split x racc) as (pre & post & -> & -> & _).
  apply sublist_app; [done|]. by apply sublist_cons.
Qed.

Lemma insert_rev_behind x a racc :
  a ∈ racc -> lt (key x) (key a) = false -> [x; a] `sublist_of` insert_rev key lt x racc.
Proof.
  intros Ha Hxa. destruct (insert_rev_split x racc) as (pre & post & -> & -> & Hpre).
  apply elem_of_app in Ha as [Ha|Ha].
  - rewrite Forall_forall in Hpre. specialize (Hpre a Ha). congruence.
  - apply (sublist_inserts_l pre). apply sublist_skip.
    by apply singleton_sublist_l.
Qed.

Lemma foldl_insert_rev_stable l : forall racc a b,
  ([b; a] `sublist_of` racc
   \/ (a ∈ racc /\ b ∈ l /\ lt (key b) (key a) = false)
   \/ ([a; b] `sublist_of` l /\ lt (key b) (key a) = false)) ->
  [b; a] `sublist_of` foldl (fun racc x => insert_rev key lt x racc) racc l.
Proof.
  induction l as [|x l IH]; intros racc a b H; simpl.
  - destruct H as [H|[(_ & H%elem_of_nil & _)|[H _]]]; [done|done|].
    by apply sublist_nil_r in H.
  - apply IH. destruct H as [H|[(Ha & Hb & Hlt)|[H Hlt]]].
    + left. etrans; [done|]. apply insert_rev_sublist.
    + apply elem_of_cons in Hb as [->|Hb].
      * left. by apply insert_rev_behind.
      * right. left. split_and!; [|done|done].
        eapply elem_of_sublist; [done|apply insert_rev_sublist].
    + apply sublist_cons_r in H as [H|(l' & Heq & H)].
      * right. right. done.
      * injection Heq as <- <-. right. left. split_and!; [|by apply singleton_sublist_l|done].
        destruct (insert_rev_split a racc) as (pre & post & _ & -> & _).
        apply elem_of_app. right. by left.
Qed.

Lemma sublist_rev (l1 l2 : list A) : l1 `sublist_of` l2 -> rev l1 `sublist_of` rev l2.
Proof.
  induction 1 as [|x l1 l2 _ IH|x l1 l2 _ IH]; simpl.
  - done.
  - by apply sublist_app.
  - by apply sublist_inserts_r.
Qed.

Lemma py_sort_stable l a b :
  [a; b] `sublist_of` l -> lt (key b) (key a) = false ->
  [a; b] `sublist_of` py_sort key lt l.
Proof.
  intros Hab Hlt. unfold py_sort.
  change [a; b] with (rev [b; a]). apply sublist_rev.
  apply foldl_insert_rev_stable. right. right. done.
Qed.
End Stable.

Lemma lookup_sublist_pair {A} (l : list A) : forall i j x y,
  i < j -> l !! i = Some x -> l !! j = Some y -> [x; y] `sublist_of` l.
Proof.
  induction l as [|z l IH]; intros i j x y Hij Hi Hj; [by rewrite lookup_nil in Hi|].
  destruct j as [|j]; [lia|]. destruct i as [|i]; simpl in *.
  - injection Hi as ->. apply sublist_skip, singleton_sublist_l.
    by eapply list_elem_of_lookup_2.
  - apply sublist_cons. apply (IH i j); [lia|done|done].
Qed.

(** X7.  The sort of the messages is stable: where no timestamp parses as
    NaN (the keys are then ordered by a strict weak order, on which
    [list.sort] is specified), of two messages the one that stands first in
    the files stays first unless the key of the other is strictly below its
    own.  Messages with equal timestamps keep the order of the files. *)
Theorem sort_messages_stable (h : list Message.t) (order : list ref) :
  sort_messages h = Ok order ->
  Forall (fun m => sort_key m <> Ok FNaN) h ->
  forall i j mi mj ki kj,
    i < j -> h !! i = Some mi -> h !! j = Some mj ->
    sort_key mi = Ok ki -> sort_key mj = Ok kj -> float_lt kj ki = false ->
    [i; j] `sublist_of` order.
Proof.
  unfold sort_messages. intros (keys & Hkeys & [= <-])%bind_Ok _.
  intros i j mi mj ki kj Hij Hmi Hmj Hki Hkj Hlt.
  apply mapM_result_Forall2 in Hkeys.
  destruct (Forall2_lookup_l _ _ _ _ _ Hkeys Hmi) as (ki' & Hki' & Eki).
  destruct (Forall2_lookup_l _ _ _ _ _ Hkeys Hmj) as (kj' & Hkj' & Ekj).
  assert (ki' = ki) as -> by congruence. assert (kj' = kj) as -> by congruence.
  change [i; j] with ([(ki, i); (kj, j)].*2). apply fmap_sublist.
  apply py_sort_stable; [|done].
  apply (lookup_sublist_pair _ i j); [done| |].
  - apply lookup_zip_with_Some. exists ki, i. split_and!; [done|done|].
    apply lookup_seq. split; [done|]. by eapply lookup_lt_Some.
  - apply lookup_zip_with_Some. exists kj, j. split_and!; [done|done|].
    apply lookup_seq. split; [done|]. by eapply lookup_lt_Some.
Qed.

Lemma sort_messages_stable_witness :
  sort_messages [Message.mk "U1" "a" "5" EmptyString [] [] [] EmptyString;
                 Message.mk "U2" "b" "5.0" EmptyString [] [] [] EmptyString;
                 Message.mk "U3" "c" "1" EmptyString [] [] [] EmptyString]
  = Ok [2; 0; 1]
  /\ [0; 1] `sublist_of` [2; 0; 1].
Proof.
  assert (sort_messages [Message.mk "U1" "a" "5" EmptyString [] [] [] EmptyString;
                         Message.mk "U2" "b" "5.0" EmptyString [] [] [] EmptyString;
                         Message.mk "U3" "c" "1" EmptyString [] [] [] EmptyString]
          = Ok [2; 0; 1]) as H by (vm_compute; reflexivity).
  split; [exact H|].
  eapply (sort_messages_stable _ _ H); [|constructor|reflexivity|reflexivity| | |];
    [|vm_compute; reflexivity|vm_compute; reflexivity|vm_compute; reflexivity].
  repeat apply Forall_cons_2; try apply Forall_nil_2; vm_compute; discriminate.
Defined.

(** ** What a load keeps of the records *)

Lemma same_content_refl m : same_content m m.
Proof. by repeat split. Qed.

Lemma same_content_trans m1 m2 m3 :
  same_content m1 m2 -> same_content m2 m3 -> same_content m1 m3.
Proof.
  unfold same_content. intros (?&?&?&?&?&?&?) (?&?&?&?&?&?&?).
  split_and!; congruence.
Qed.

Lemma Forall2_same_content_trans l1 l2 l3 :
  Forall2 same_content l1 l2 -> Forall2 same_content l2 l3 -> Forall2 same_content l1 l3.
Proof.
  intros H. revert l3. induction H as [|x y l1 l2 Hxy _ IH]; intros l3 H3.
  - by apply Forall2_nil_inv_l in H3 as ->.
  - apply Forall2_cons_inv_l in H3 as (z & l3' & Hyz & H3 & ->).
    constructor; [by eapply same_content_trans|by apply IH].
Qed.

Lemma assemble_step_content st r :
  Forall2 same_content (heap (assemble_step st r)) (heap st).
Proof.
  unfold assemble_step.
  assert (Forall2 same_content (heap st) (heap st)) as Hrefl.
  { apply Forall_Forall2_diag, Forall_forall. intros. apply same_content_refl. }
  repeat (case_match; simpl; try done).
  apply Forall2_same_length_lookup. split; [by rewrite length_alter|].
  intros i x y Hx Hy.
  destruct (decide (n = i)) as [->|Hne].
  - rewrite list_lookup_alter_eq, Hy in Hx. simpl in Hx. injection Hx as <-.
    by repeat split.
  - rewrite list_lookup_alter_ne in Hx by done. simplify_eq. apply same_content_refl.
Qed.

Lemma assemble_content all order :
  Forall2 same_content (heap (assemble all order)) all.
Proof.
  unfold assemble.
  change all with (heap (mk_assembly all [] ∅)) at 2.
  generalize (mk_assembly all [] ∅). intros st.
  revert st. induction order as [|r order IH]; intros st; simpl.
  - apply Forall_Forall2_diag, Forall_forall. intros. apply same_content_refl.
  - eapply Forall2_same_content_trans; [apply IH|apply assemble_step_content].
Qed.

Lemma scan_record_parses raw users users' m :
  scan_record raw users = (users', Ok m) -> parses_to raw m.
Proof.
  unfold scan_record.
  intros (d & users1 & [-> Hd]%lift_Ok & H)%loader_bind_Ok.
  apply loader_bind_Ok in H as (msg & users2 & [-> Hmsg]%lift_Ok & H).
  apply loader_bind_Ok in H as (uid & users3 & [-> Huid]%lift_Ok & H).
  apply loader_bind_Ok in H as (known & users4 & _ & H).
  apply loader_bind_Ok in H as (u & users5 & _ & H).
  injection H as _ <-.
  destruct raw; try done. injection Hd as ->. by exists d.
Qed.

Lemma scan_records_parses data users users' msgs :
  scan_records data users = (users', Ok msgs) -> Forall2 parses_to data msgs.
Proof.
  revert users users' msgs. induction data as [|raw data IH]; intros users users' msgs; simpl.
  - intros [= _ <-]. constructor.
  - intros (m & users1 & Hm & H)%loader_bind_Ok.
    apply loader_bind_Ok in H as (ms & users2 & Hms & H).
    injection H as _ <-. constructor; [by eapply scan_record_parses|by eapply IH].
Qed.

Lemma scan_files_parses zf files users users' msgs :
  scan_files zf files users = (users', Ok msgs) ->
  Forall2 parses_to (input_records zf files) msgs.
Proof.
  revert users users' msgs.
  induction files as [|[d path] files IH]; intros users users' msgs; simpl.
  - intros [= _ <-]. constructor.
  - intros (v & users1 & [-> Hv]%lift_Ok & H)%loader_bind_Ok.
    apply loader_bind_Ok in H as (data & users2 & [-> Hdata]%lift_Ok & H).
    apply loader_bind_Ok in H as (ms & users3 & Hms & H).
    apply loader_bind_Ok in H as (more & users4 & Hmore & H).
    injection H as _ <-. rewrite Hv. destruct v; try done. injection Hdata as ->.
    apply Forall2_app; [by eapply scan_records_parses|by eapply IH].
Qed.

(** X8.  A load neither drops nor alters a message: the heap holds, record
    by record in the order the day files are read, the parse of each record
    of the channel, and thread assembly changes nothing of a message but its
    replies list.  This holds for every arrangement [algo] that the sort
    makes of the keyed messages. *)
Theorem loaded_messages_are_the_records (algo : list (pyfloat * ref) -> list (pyfloat * ref))
    zf channel_name users users' h top :
  rearranges algo ->
  load_channel_messages_by algo zf channel_name users = (users', Ok (h, top)) ->
  exists all,
    Forall2 parses_to (input_records zf (date_files zf channel_name)) all
    /\ Forall2 same_content h all
    /\ Forall (fun m => Message.replies m = []) all.
Proof.
  intros _ (all & order & Hscan & Hsort & -> & _)%load_channel_messages_by_Ok.
  exists all. split_and!.
  - by eapply scan_files_parses.
  - apply assemble_content.
  - by eapply scan_files_spec.
Qed.

Lemma loaded_messages_are_the_records_witness :
  rearranges (py_sort (@fst pyfloat nat) float_lt)
  /\ load_channel_messages_by (py_sort fst float_lt) thread_archive "general" ∅
     = (∅, Ok (thread_heap, [0; 2]))
  /\ exists all,
       Forall2 parses_to (input_records thread_archive
                            (date_files thread_archive "general")) all
       /\ Forall2 same_content thread_heap all.
Proof.
  pose proof (py_sort_rearranges (@fst pyfloat nat) float_lt) as Halgo.
  assert (load_channel_messages_by (py_sort fst float_lt) thread_archive "general" ∅
          = (∅, Ok (thread_heap, [0; 2]))) as H by (vm_compute; reflexivity).
  split; [exact Halgo|]. split; [exact H|].
  destruct (loaded_messages_are_the_records _ _ _ _ _ _ _ Halgo H) as (all & H1 & H2 & _).
  exists all. split; assumption.
Defined.

(** ** The backfill *)

Lemma _parse_message_user d m :
  _parse_message d = Ok m -> get_str "user" d = Ok (Message.user m).
Proof.
  unfold _parse_message. intros H.
  do 4 (apply bind_Ok in H as (? & _ & H)).
  apply bind_Ok in H as (user & Huser & H).
  do 4 (apply bind_Ok in H as (? & _ & H)).
  by injection H as <-.
Qed.

Lemma scan_record_table raw users users' m :
  scan_record raw users = (users', Ok m) ->
  users' = users
  \/ exists u, users !! User.id u = None /\ users' = <[User.id u := u]> users
               /\ profile_user raw u.
Proof.
  unfold scan_record.
  intros (d & users1 & [-> Hd]%lift_Ok & H)%loader_bind_Ok.
  apply loader_bind_Ok in H as (msg & users2 & [-> Hmsg]%lift_Ok & H).
  apply loader_bind_Ok in H as (uid & users3 & [-> Huid]%lift_Ok & H).
  apply loader_bind_Ok in H as (known & users4 & Hknown & H).
  apply loader_bind_Ok in H as (u & users5 & Hset & H).
  injection H as <- _. unfold contains_user in Hknown. injection Hknown as <- <-.
  destruct raw; try done. injection Hd as ->.
  destruct (truthy uid) eqn:Htruthy; simpl in Hset; [|left; by injection Hset].
  destruct (bool_decide (is_Some (users !! uid))) eqn:Hk; simpl in Hset;
    [left; by injection Hset|].
  apply bool_decide_eq_false in Hk. apply eq_None_not_Some in Hk.
  apply loader_bind_Ok in Hset as (profile & users6 & [-> Hprofile]%lift_Ok & Hset).
  destruct profile as [|item profile]; [left; by injection Hset|].
  apply loader_bind_Ok in Hset as (name & users7 & [-> Hname]%lift_Ok & Hset).
  apply loader_bind_Ok in Hset as (dn & users8 & [-> Hdn]%lift_Ok & Hset).
  apply loader_bind_Ok in Hset as (rn & users9 & [-> Hrn]%lift_Ok & Hset).
  unfold set_user in Hset. injection Hset as <-.
  right. exists (User.mk uid name dn rn). split_and!; [done|done|].
  exists d, (item :: profile). split_and!; try done.
  unfold truthy in Htruthy. simpl. intros ->. done.
Qed.

Lemma scan_records_backfill data users users' msgs :
  scan_records data users = (users', Ok msgs) ->
  forall uid u, users' !! uid = Some u -> users !! uid = None ->
    User.id u = uid /\ exists raw, raw ∈ data /\ profile_user raw u.
Proof.
  revert users users' msgs. induction data as [|raw data IH]; intros users users' msgs; simpl.
  - intros [= <- _] uid u Hu Hnone. congruence.
  - intros (m & users1 & Hm & H)%loader_bind_Ok.
    apply loader_bind_Ok in H as (ms & users2 & Hms & H).
    injection H as <- _. intros uid u Hu Hnone.
    destruct (users1 !! uid) as [u1|] eqn:Hu1.
    + pose proof (extends_scan_records data users1) as Hsub. rewrite Hms in Hsub.
      simpl in Hsub. rewrite (lookup_weaken _ _ _ _ Hu1 Hsub) in Hu. injection Hu as ->.
      apply scan_record_table in Hm as [->|(v & Hv & -> & Hprof)]; [congruence|].
      destruct (decide (User.id v = uid)) as [<-|Hne].
      * rewrite lookup_insert_eq in Hu1. injection Hu1 as ->.
        split; [done|]. exists raw. split; [by left|done].
      * rewrite lookup_insert_ne in Hu1 by done. congruence.
    + destruct (IH _ _ _ Hms uid u Hu Hu1) as (Hid & raw' & Hin & Hprof).
      split; [done|]. exists raw'. split; [by right|done].
Qed.

Lemma scan_files_backfill zf files users users' msgs :
  scan_files zf files users = (users', Ok msgs) ->
  forall uid u, users' !! uid = Some u -> users !! uid = None ->
    User.id u = uid /\ exists raw, raw ∈ input_records zf files /\ profile_user raw u.
Proof.
  revert users users' msgs.
  induction files as [|[d path] files IH]; intros users users' msgs; simpl.
  - intros [= <- _] uid u Hu Hnone. congruence.
  - intros (v & users1 & [-> Hv]%lift_Ok & H)%loader_bind_Ok.
    apply loader_bind_Ok in H as (data & users2 & [-> Hdata]%lift_Ok & H).
    apply loader_bind_Ok in H as (ms & users3 & Hms & H).
    apply loader_bind_Ok in H as (more & users4 & Hmore & H).
    injection H as <- _. rewrite Hv. destruct v; try done. injection Hdata as ->.
    intros uid u Hu Hnone. destruct (users3 !! uid) as [u3|] eqn:Hu3.
    + pose proof (extends_scan_files zf files users3) as Hsub. rewrite Hmore in Hsub.
      simpl in Hsub. rewrite (lookup_weaken _ _ _ _ Hu3 Hsub) in Hu. injection Hu as ->.
      destruct (scan_records_backfill _ _ _ _ Hms uid u Hu3 Hnone) as (Hid & raw & Hin & Hp).
      split; [done|]. exists raw. split; [|done]. apply elem_of_app. by left.
    + destruct (IH _ _ _ Hmore uid u Hu Hu3) as (Hid & raw & Hin & Hp).
      split; [done|]. exists raw. split; [|done]. apply elem_of_app. by right.
Qed.

(** X9.  The backfill adds authors only: a user that the table holds after
    a load and did not hold before stands under a non-empty id, and a
    record of the channel's day files names this id as its user and
    carries a non-empty inline profile with the user's names. *)
Theorem backfill_adds_profiled_authors zf channel_name users users' h top :
  load_channel_messages zf channel_name users = (users', Ok (h, top)) ->
  forall uid u, users' !! uid = Some u -> users !! uid = None ->
    User.id u = uid
    /\ exists raw, raw ∈ input_records zf (date_files zf channel_name)
                   /\ profile_user raw u.
Proof.
  intros (all & order & Hscan & _)%load_channel_messages_Ok.
  by eapply scan_files_backfill.
Qed.

Lemma backfill_adds_profiled_authors_witness :
  exists users' h top,
    load_channel_messages profile_archive "general" ∅ = (users', Ok (h, top))
    /\ users' !! "U001" = Some (User.mk "U001" "wrong" "Wrong Name" "Wrong")
    /\ exists raw, raw ∈ input_records profile_archive (date_files profile_archive "general")
                   /\ profile_user raw (User.mk "U001" "wrong" "Wrong Name" "Wrong").
Proof.
  destruct (load_channel_messages profile_archive "general" ∅)
    as [users' [[h top]|e]] eqn:H; [|vm_compute in H; discriminate].
  exists users', h, top.
  assert (users' !! "U001" = Some (User.mk "U001" "wrong" "Wrong Name" "Wrong")) as Hu.
  { replace users' with (load_channel_messages profile_archive "general" ∅).1
      by (by rewrite H).
    vm_compute. reflexivity. }
  split; [reflexivity|]. split; [exact Hu|].
  apply (backfill_adds_profiled_authors _ _ _ _ _ _ H "U001" _ Hu). reflexivity.
Defined.

(** * Further properties of thread assembly *)

Lemma same_content_static m m0 : same_content m m0 -> same_static m m0.
Proof. intros (_ & _ & ? & ? & _). by split. Qed.

Lemma assemble_step_top st r :
  top_level (assemble_step st r) = top_level st
  \/ top_level (assemble_step st r) = top_level st ++ [r].
Proof. unfold assemble_step. repeat (case_match; simpl; auto). Qed.

Lemma foldl_assemble_step_top l st :
  exists l', l' `sublist_of` l
             /\ top_level (foldl assemble_step st l) = top_level st ++ l'.
Proof.
  revert st. induction l as [|r l IH]; intros st; simpl.
  - exists []. by rewrite app_nil_r.
  - destruct (IH (assemble_step st r)) as (l' & Hsub & ->).
    destruct (assemble_step_top st r) as [->| ->].
    + exists l'. split; [by apply sublist_cons|done].
    + exists (r :: l'). split; [by apply sublist_skip|]. by rewrite <- (assoc_L (++)).
Qed.

Lemma assemble_top_sublist h order : top_level (assemble h order) `sublist_of` order.
Proof.
  unfold assemble. destruct (foldl_assemble_step_top order (mk_assembly h [] ∅))
    as (l' & Hsub & ->). done.
Qed.

(** X10.  Where no timestamp parses as NaN, the top-level messages that a
    load returns stand in ascending order of the sort key, whatever the
    order of the records in the day files. *)
Theorem top_level_ascending zf channel_name users users' h top :
  load_channel_messages zf channel_name users = (users', Ok (h, top)) ->
  (forall r m, h !! r = Some m -> sort_key m <> Ok FNaN) ->
  ascending h top.
Proof.
  intros (all & order & Hscan & Hsort & -> & ->)%load_channel_messages_Ok Hnan.
  pose proof (assemble_content all order) as Hcontent.
  set (h := heap (assemble all order)) in *.
  intros i j ri rj mi mj ki kj Hij Hi Hj Hmi Hmj Hki Hkj.
  destruct (sort_messages_spec _ _ Hsort) as (_ & keys & Hkeys & Hsorted).
  assert (forall r m k, h !! r = Some m -> sort_key m = Ok k -> keys !! r = Some k) as Hkey.
  { intros r m k Hm Hk.
    destruct (Forall2_lookup_l _ _ _ _ _ Hcontent Hm) as (m0 & Hm0 & Hmm0).
    destruct (Forall2_lookup_l _ _ _ _ _ Hkeys Hm0) as (k0 & Hk0 & Hmk).
    rewrite (sort_key_static m m0) in Hk by by apply same_content_static. congruence. }
  assert (Forall (fun k => k <> FNaN) keys) as Hgood.
  { apply Forall_forall. intros k [r Hr]%list_elem_of_lookup ->.
    destruct (Forall2_lookup_r _ _ _ _ _ Hkeys Hr) as (m0 & Hm0 & Hmk).
    destruct (Forall2_lookup_r _ _ _ _ _ Hcontent Hm0) as (m & Hm & Hmm0).
    apply (Hnan r m Hm). rewrite (sort_key_static m m0); [done|].
    by apply same_content_static. }
  pose proof (StronglySorted_sublist _ _ _ (assemble_top_sublist all order)
                (Hsorted Hgood)) as Hs.
  apply (StronglySorted_lookup _ _ _ _ _ _ Hs Hij Hi Hj); by eapply Hkey.
Qed.

Lemma top_level_ascending_witness :
  load_channel_messages unsorted_archive "general" ∅ = (∅, Ok (unsorted_heap, [1; 0; 2]))
  /\ Message.text <$> unsorted_heap !! 1 = Some "first"
  /\ ascending unsorted_heap [1; 0; 2].
Proof.
  assert (load_channel_messages unsorted_archive "general" ∅
          = (∅, Ok (unsorted_heap, [1; 0; 2]))) as H by (vm_compute; reflexivity).
  split; [exact H|]. split; [reflexivity|].
  apply (top_level_ascending _ _ _ _ _ _ H).
  intros r m Hm%list_elem_of_lookup_2 Hk. unfold unsorted_heap in Hm.
  repeat (apply elem_of_cons in Hm as [->|Hm]; [vm_compute in Hk; discriminate Hk|]).
  by apply elem_of_nil in Hm.
Defined.

Lemma assemble_snoc h order r :
  assemble h (order ++ [r]) = assemble_step (assemble h order) r.
Proof. unfold assemble. by rewrite foldl_app. Qed.

(** The replies of [t] answer [t]: their thread_ts is the ts of [t]. *)
Lemma assemble_threads h0 order :
  Forall (fun m => Message.replies m = []) h0 ->
  NoDup order -> (forall r, r ∈ order -> r < length h0) ->
  forall t r, r ∈ replies_of (heap (assemble h0 order)) t ->
    exists mt mr, h0 !! t = Some mt /\ h0 !! r = Some mr
                  /\ Message.thread_ts mr = Message.ts mt.
Proof.
  intros Hfresh. induction order as [|r0 order IH] using rev_ind; intros Hnodup Hlt t r.
  - unfold assemble, replies_of. simpl.
    destruct (h0 !! t) as [mt|] eqn:Hmt; simpl; [|by intros ?%elem_of_nil].
    rewrite Forall_forall in Hfresh. rewrite (Hfresh mt); [by intros ?%elem_of_nil|].
    by eapply list_elem_of_lookup_2.
  - apply NoDup_app in Hnodup as (Hnodup & Hnotin & _).
    assert (forall r, r ∈ order -> r < length h0) as Hlt'.
    { intros x Hx. apply Hlt. apply elem_of_app. by left. }
    specialize (IH Hnodup Hlt').
    pose proof (assembly_inv_assemble h0 order Hfresh Hnodup Hlt') as Hinv.
    rewrite assemble_snoc. set (st := assemble h0 order) in *.
    unfold assemble_step.
    destruct (heap st !! r0) as [msg|] eqn:Hmsg; [|apply IH].
    destruct (negb (is_reply msg)); [apply IH|].
    destruct (parents st !! Message.thread_ts msg) as [p|] eqn:Hp; [|apply IH].
    simpl. destruct (inv_parents _ _ _ Hinv _ _ Hp) as (_ & mp & Hmp & _ & Hts).
    pose proof (inv_static _ _ _ Hinv) as Hstatic.
    rewrite replies_of_alter.
    2: { rewrite (Forall2_length _ _ _ Hstatic). by eapply lookup_lt_Some. }
    destruct (decide (t = p)) as [->|_]; [|apply IH].
    intros [Hin| ->%list_elem_of_singleton]%elem_of_app; [by apply IH|].
    destruct (Forall2_lookup_l _ _ _ _ _ Hstatic Hmsg) as (m0 & Hm0 & _ & Hthread).
    exists mp, m0. split_and!; [done|done|congruence].
Qed.

(** X11.  A reply stands under the message it answers: a message in the
    replies of [t] is classified as a reply, [t] is a top-level message that
    is not, and the thread_ts of the reply is the ts of [t].  This holds
    for every arrangement [algo] that the sort makes of the keyed
    messages. *)
Theorem replies_stand_under_their_parent (algo : list (pyfloat * ref) -> list (pyfloat * ref))
    zf channel_name users users' h top :
  rearranges algo ->
  load_channel_messages_by algo zf channel_name users = (users', Ok (h, top)) ->
  forall t r, r ∈ replies_of h t ->
    t ∈ top
    /\ exists mt mr, h !! t = Some mt /\ h !! r = Some mr
                     /\ is_reply mt = false /\ is_reply mr = true
                     /\ Message.thread_ts mr = Message.ts mt.
Proof.
  intros Halgo Hload t r Hr.
  destruct (load_channel_messages_by_inv _ _ _ _ _ _ _ Halgo Hload)
    as (all & order & Hscan & Hsort & Hperm & Hinv).
  apply load_channel_messages_by_Ok in Hload
    as (all' & order' & Hscan' & Hsort' & Hh & _).
  rewrite Hscan in Hscan'. injection Hscan' as <-.
  rewrite Hsort in Hsort'. injection Hsort' as <-.
  destruct (inv_replies _ _ _ Hinv t r Hr)
    as (_ & Htop & (mr0 & Hmr0 & Hisr) & (mt0 & Hmt0 & Hist)).
  split; [done|].
  destruct (scan_files_spec _ _ _ _ _ Hscan) as [_ Hfresh].
  destruct (assemble_threads all order Hfresh) with (t := t) (r := r)
    as (mt1 & mr1 & Hmt1 & Hmr1 & Hts).
  { rewrite Hperm. apply NoDup_seq. }
  { intros x Hx. rewrite Hperm in Hx. apply elem_of_seq in Hx. lia. }
  { by rewrite <- Hh. }
  simplify_eq.
  pose proof (inv_static _ _ _ Hinv) as Hstatic. simpl in Hstatic.
  destruct (Forall2_lookup_r _ _ _ _ _ Hstatic Hmt0) as (mt & Hmt & Hst).
  destruct (Forall2_lookup_r _ _ _ _ _ Hstatic Hmr0) as (mr & Hmr & Hsr).
  exists mt, mr. split_and!; [done|done| | |].
  - by rewrite (is_reply_static mt mt0).
  - by rewrite (is_reply_static mr mr0).
  - destruct Hst as [-> _], Hsr as [_ ->]. done.
Qed.

Lemma replies_stand_under_their_parent_witness :
  rearranges (py_sort (@fst pyfloat nat) float_lt)
  /\ load_channel_messages_by (py_sort fst float_lt) thread_archive "general" ∅
     = (∅, Ok (thread_heap, [0; 2]))
  /\ 1 ∈ replies_of thread_heap 0
  /\ exists mt mr, thread_heap !! 0 = Some mt /\ thread_heap !! 1 = Some mr
                   /\ Message.thread_ts mr = Message.ts mt.
Proof.
  pose proof (py_sort_rearranges (@fst pyfloat nat) float_lt) as Halgo.
  assert (load_channel_messages_by (py_sort fst float_lt) thread_archive "general" ∅
          = (∅, Ok (thread_heap, [0; 2]))) as H by (vm_compute; reflexivity).
  assert (1 ∈ replies_of thread_heap 0) as Hin by (vm_compute; by left).
  split; [exact Halgo|]. split; [exact H|]. split; [exact Hin|].
  destruct (replies_stand_under_their_parent _ _ _ _ _ _ _ Halgo H 0 1 Hin)
    as (_ & mt & mr & Hmt & Hmr & _ & _ & Hts).
  exists mt, mr. split_and!; assumption.
Defined.

Lemma assemble_step_top_mono st r x :
  x ∈ top_level st -> x ∈ top_level (assemble_step st r).
Proof.
  destruct (assemble_step_top st r) as [->| ->]; [done|].
  intros Hx. apply elem_of_app. by left.
Qed.

Lemma foldl_assemble_step_top_mono l st x :
  x ∈ top_level st -> x ∈ top_level (foldl assemble_step st l).
Proof.
  revert st. induction l as [|r l IH]; intros st Hx; simpl; [done|].
  apply IH. by apply assemble_step_top_mono.
Qed.

Lemma foldl_assemble_step_non_reply l st r m :
  r ∈ l -> heap st !! r = Some m -> is_reply m = false ->
  r ∈ top_level (foldl assemble_step st l).
Proof.
  revert st m. induction l as [|a l IH]; intros st m Hin Hm Hnr; simpl.
  - by apply elem_of_nil in Hin.
  - apply elem_of_cons in Hin as [<-|Hin].
    + apply foldl_assemble_step_top_mono. unfold assemble_step. rewrite Hm, Hnr. simpl.
      apply elem_of_app. right. by left.
    + destruct (Forall2_lookup_r _ _ _ _ _ (assemble_step_content st a) Hm)
        as (m' & Hm' & Hsame).
      apply (IH _ m'); [done|done|].
      rewrite <- Hnr. apply is_reply_static. by apply same_content_static.
Qed.

(** X12.  A message that is not classified as a reply is a top-level
    message and stands in no replies list.  This holds for every
    arrangement [algo] that the sort makes of the keyed messages. *)
Theorem non_replies_are_top_level (algo : list (pyfloat * ref) -> list (pyfloat * ref))
    zf channel_name users users' h top :
  rearranges algo ->
  load_channel_messages_by algo zf channel_name users = (users', Ok (h, top)) ->
  forall r m, h !! r = Some m -> is_reply m = false ->
    r ∈ top /\ forall t, r ∉ replies_of h t.
Proof.
  intros Halgo Hload r m Hm Hnr.
  destruct (load_channel_messages_by_inv _ _ _ _ _ _ _ Halgo Hload)
    as (all & order & Hscan & Hsort & Hperm & Hinv).
  apply load_channel_messages_by_Ok in Hload
    as (all' & order' & Hscan' & Hsort' & Hh & Htop).
  rewrite Hscan in Hscan'. injection Hscan' as <-.
  rewrite Hsort in Hsort'. injection Hsort' as <-.
  pose proof (inv_static _ _ _ Hinv) as Hstatic. simpl in Hstatic.
  destruct (Forall2_lookup_l _ _ _ _ _ Hstatic Hm) as (m0 & Hm0 & Hmm0).
  assert (is_reply m0 = false) as Hnr0 by by rewrite <- (is_reply_static m m0).
  split.
  - rewrite Htop. unfold assemble.
    apply (foldl_assemble_step_non_reply _ _ _ m0); [|done|done].
    rewrite Hperm. apply elem_of_seq. apply lookup_lt_Some in Hm0. lia.
  - intros t Hin.
    destruct (inv_replies _ _ _ Hinv t r Hin) as (_ & _ & (m1 & Hm1 & Hisr) & _).
    congruence.
Qed.

Lemma non_replies_are_top_level_witness :
  rearranges (py_sort (@fst pyfloat nat) float_lt)
  /\ load_channel_messages_by (py_sort fst float_lt) thread_archive "general" ∅
     = (∅, Ok (thread_heap, [0; 2]))
  /\ 0 ∈ [0; 2] /\ forall t, 0 ∉ replies_of thread_heap t.
Proof.
  pose proof (py_sort_rearranges (@fst pyfloat nat) float_lt) as Halgo.
  assert (load_channel_messages_by (py_sort fst float_lt) thread_archive "general" ∅
          = (∅, Ok (thread_heap, [0; 2]))) as H by (vm_compute; reflexivity).
  split; [exact Halgo|]. split; [exact H|].
  destruct (thread_heap !! 0) as [m|] eqn:Hm; [|vm_compute in Hm; discriminate].
  apply (non_replies_are_top_level _ _ _ _ _ _ _ Halgo H 0 m Hm).
  vm_compute in Hm. injection Hm as <-. vm_compute. reflexivity.
Defined.

(** * Further properties of the markup engine *)

(** ** The scanner *)

Lemma str_chars_str s : chars_str (str_chars s) = s.
Proof. apply string_of_list_ascii_of_string. Qed.

Lemma concat_flush buf : concat (flush buf) = buf.
Proof. destruct buf; simpl; [done|]. by rewrite app_nil_r. Qed.

Lemma scan_parts_concat l : forall skip buf,
  concat (scan_parts skip buf l) = buf ++ drop skip l.
Proof.
  induction l as [|c l IH]; intros skip buf.
  - rewrite drop_nil, app_nil_r. destruct skip; apply concat_flush.
  - destruct skip as [|k]; [|apply IH].
    rewrite scan_parts_unfold. rewrite drop_0.
    destruct (starts_with fence (c :: l)).
    + destruct (find_sub fence (drop 3 (c :: l))) as [e|].
      * rewrite concat_app, concat_flush, concat_cons, IH. simpl app at 2.
        replace (e + 6) with (S (e + 5)) by lia.
        change (drop (e + 5) l) with (drop (S (e + 5)) (c :: l)).
        by rewrite take_drop.
      * rewrite concat_app, concat_flush. simpl. by rewrite app_nil_r.
    + destruct (chr_eqb c backtick).
      * destruct (find_sub [backtick] l) as [e|].
        -- rewrite concat_app, concat_flush, concat_cons, IH. simpl app at 2.
           replace (e + 2) with (S (e + 1)) by lia.
           change (drop (e + 1) l) with (drop (S (e + 1)) (c :: l)).
           by rewrite take_drop.
        -- rewrite IH, drop_0, <- (assoc_L (++)). done.
      * rewrite IH, drop_0, <- (assoc_L (++)). done.
Qed.

Lemma Forall_flush buf : Forall (fun part => part <> []) (flush buf).
Proof. destruct buf; simpl; [constructor|]. by repeat constructor. Qed.

Lemma scan_parts_nonempty l : forall skip buf,
  Forall (fun part => part <> []) (scan_parts skip buf l).
Proof.
  induction l as [|c l IH]; intros skip buf.
  - destruct skip; apply Forall_flush.
  - destruct skip as [|k]; [|apply IH].
    rewrite scan_parts_unfold.
    destruct (starts_with fence (c :: l)).
    + destruct (find_sub fence (drop 3 (c :: l))) as [e|].
      * apply Forall_app. split; [apply Forall_flush|]. constructor; [|apply IH].
        replace (e + 6) with (S (e + 5)) by lia. done.
      * apply Forall_app. split; [apply Forall_flush|]. by repeat constructor.
    + destruct (chr_eqb c backtick).
      * destruct (find_sub [backtick] l) as [e|]; [|apply IH].
        apply Forall_app. split; [apply Forall_flush|]. constructor; [|apply IH].
        replace (e + 2) with (S (e + 1)) by lia. done.
      * apply IH.
Qed.

(** X13.  The scanner of [_convert_slack_formatting] cuts the text into
    parts without losing, adding or moving a character: the parts are not
    empty and their concatenation is the text. *)
Theorem scan_parts_partition (text : chars) :
  concat (scan_parts 0 [] text) = text
  /\ Forall (fun part => part <> []) (scan_parts 0 [] text).
Proof. split; [apply scan_parts_concat|apply scan_parts_nonempty]. Qed.

Lemma scan_parts_partition_witness :
  scan_parts 0 [] (str_chars "a `b` ```c``` d")
  = [str_chars "a "; str_chars "`b`"; str_chars " "; str_chars "```c```"; str_chars " d"]
  /\ concat (scan_parts 0 [] (str_chars "a `b` ```c``` d")) = str_chars "a `b` ```c``` d".
Proof.
  split; [reflexivity|].
  exact (proj1 (scan_parts_partition (str_chars "a `b` ```c``` d"))).
Defined.

Lemma no_marker_spec l :
  forallb no_marker l = true ->
  Forall (fun c => c <> "*"%char) l /\ Forall (fun c => c <> "_"%char) l
  /\ Forall (fun c => c <> "~"%char) l.
Proof.
  intros H. rewrite forallb_forall in H.
  split_and!; apply Forall_forall; intros c Hc%list_elem_of_In; specialize (H c Hc);
    unfold no_marker in H; rewrite negb_true_iff, !orb_false_iff in H;
    destruct H as [[H1 H2] H3]; apply chr_eqb_neq in H1, H2, H3; done.
Qed.

Lemma rewrite_plain_no_marker part :
  forallb no_marker part = true -> rewrite_plain part = part.
Proof.
  intros (H1 & H2 & H3)%no_marker_spec. unfold rewrite_plain.
  unfold sub_bold. rewrite (re_sub_without _ "*"); [|apply match_emphasis_head|done].
  unfold sub_italic. rewrite (re_sub_without _ "_"); [|apply match_emphasis_head|done].
  unfold sub_strike. by rewrite (re_sub_without _ "~"); [|apply match_emphasis_head|done].
Qed.

Lemma concat_render_no_marker parts :
  forallb no_marker (concat parts) = true -> concat (map render_part parts) = concat parts.
Proof.
  induction parts as [|part parts IH]; [done|]. simpl.
  rewrite forallb_app. intros [Hpart Hparts]%andb_true_iff. rewrite IH by done. f_equal.
  unfold render_part. destruct (starts_with [backtick] part); [done|].
  by apply rewrite_plain_no_marker.
Qed.

(** X14.  A text without asterisk, underscore and tilde passes through
    [_convert_slack_formatting] unchanged, whatever backticks it holds. *)
Theorem formatting_keeps_text_without_markers (text : string) :
  forallb no_marker (str_chars text) = true ->
  _convert_slack_formatting text = text.
Proof.
  intros H. unfold _convert_slack_formatting, convert_slack_formatting_chars.
  rewrite concat_render_no_marker; rewrite scan_parts_concat; simpl; [|done].
  apply str_chars_str.
Qed.

Lemma formatting_keeps_text_without_markers_witness :
  _convert_slack_formatting "run `ls -l` and ```cat x``` now"
  = "run `ls -l` and ```cat x``` now".
Proof. apply formatting_keeps_text_without_markers. reflexivity. Defined.

(** ** Text without markup *)

Lemma is_plain_spec l :
  forallb is_plain l = true ->
  Forall (fun c => c <> "<"%char) l /\ Forall (fun c => c <> "*"%char) l
  /\ Forall (fun c => c <> "~"%char) l /\ no_backtick l.
Proof.
  intros H. rewrite forallb_forall in H. unfold no_backtick.
  split_and!; apply Forall_forall; intros c Hc%list_elem_of_In; specialize (H c Hc);
    unfold is_plain in H; rewrite negb_true_iff, !orb_false_iff in H;
    destruct H as [[[H1 H2] H3] H4]; apply chr_eqb_neq in H1, H2, H3, H4; done.
Qed.

(** The passes for the tokens in angle brackets do nothing to a text
    without [<]. *)
Lemma convert_mrkdwn_no_lt text users :
  Forall (fun c => c <> "<"%char) text ->
  convert_mrkdwn (chars_str text) users
  = chars_str (convert_slack_formatting_chars text).
Proof.
  intros Hlt. unfold convert_mrkdwn. rewrite chars_str_chars.
  unfold sub_user_mentions.
  rewrite (re_sub_without (match_user_mention users) "<");
    [|intros; by apply match_user_mention_head|done].
  rewrite (re_sub_without match_channel_mention "<");
    [|apply match_channel_mention_head|done].
  rewrite (re_sub_without match_subteam "<"); [|apply match_subteam_head|done].
  rewrite (re_sub_without (match_special "here") "<"); [|apply match_special_head|done].
  rewrite (re_sub_without (match_special "channel") "<"); [|apply match_special_head|done].
  rewrite (re_sub_without (match_special "everyone") "<"); [|apply match_special_head|done].
  by rewrite (re_sub_without match_link "<"); [|apply match_link_head|done].
Qed.

Lemma sub_italic_inside l : forall prev,
  underscores_inside prev l = true ->
  re_sub_from (match_emphasis "_" is_word (is_chr "_") (is_chr "_") is_word
                              (str_chars "*") (str_chars "*")) prev 0 l = l.
Proof.
  induction l as [|c l IH]; intros prev H; [done|].
  simpl in H. apply andb_true_iff in H as [Hc Hl].
  cbn [re_sub_from]. unfold match_emphasis at 1.
  destruct (chr_eqb c "_") eqn:Ec; simpl in *.
  - destruct prev as [p|]; [|done]. rewrite Hc. simpl. by rewrite IH.
  - by rewrite IH.
Qed.

(** X15.  A text without markup passes through [convert_mrkdwn] unchanged:
    a text that holds none of [<], [*], [~] and the backtick, and in which
    every underscore follows a word character, as in snake_case. *)
Theorem convert_mrkdwn_keeps_plain_text (text : string) (users : gmap string User.t) :
  forallb is_plain (str_chars text) = true ->
  underscores_inside None (str_chars text) = true ->
  convert_mrkdwn text users = text.
Proof.
  intros (Hlt & Hstar & Htilde & Hbt)%is_plain_spec Hus.
  rewrite <- (str_chars_str text) at 1.
  rewrite convert_mrkdwn_no_lt, convert_plain_part by done.
  unfold rewrite_plain.
  unfold sub_bold. rewrite (re_sub_without _ "*"); [|apply match_emphasis_head|done].
  unfold sub_italic, re_sub. rewrite sub_italic_inside by done.
  unfold sub_strike. rewrite (re_sub_without _ "~"); [|apply match_emphasis_head|done].
  apply str_chars_str.
Qed.

Lemma convert_mrkdwn_keeps_plain_text_witness :
  convert_mrkdwn "set max_retry_count in my_app.cfg (see #ops)" sample_users
  = "set max_retry_count in my_app.cfg (see #ops)".
Proof. apply convert_mrkdwn_keeps_plain_text; reflexivity. Defined.

(** ** Tokens in angle brackets *)

Section Token.
Variable matcher : option ascii -> chars -> option (chars * nat).
Hypothesis matcher_head :
  forall p c rest, c <> "<"%char -> matcher p (c :: rest) = None.

(** A pass leaves a token that its pattern does not match. *)
Lemma re_sub_token_none pre rest :
  Forall (fun c => c <> "<"%char) pre -> Forall (fun c => c <> "<"%char) rest ->
  (forall p, matcher p ("<"%char :: rest) = None) ->
  re_sub matcher (pre ++ "<"%char :: rest) = pre ++ "<"%char :: rest.
Proof.
  intros Hpre Hrest Hnone. unfold re_sub.
  rewrite (re_sub_from_without _ "<") by done. f_equal.
  cbn [re_sub_from]. rewrite Hnone. f_equal.
  rewrite <- (app_nil_r rest) at 1.
  rewrite (re_sub_from_without _ "<") by done. simpl. by rewrite app_nil_r.
Qed.

(** A pass replaces the token that its pattern matches. *)
Lemma re_sub_token_some pre body post repl :
  Forall (fun c => c <> "<"%char) pre -> Forall (fun c => c <> "<"%char) post ->
  (forall p, matcher p ("<"%char :: body ++ post) = Some (repl, S (length body))) ->
  re_sub matcher (pre ++ "<"%char :: body ++ post) = pre ++ repl ++ post.
Proof.
  intros Hpre Hpost Hsome. unfold re_sub.
  rewrite (re_sub_from_without _ "<") by done. f_equal.
  cbn [re_sub_from]. rewrite Hsome. f_equal.
  replace (S (length body) - 1) with (length body) by lia.
  rewrite re_sub_from_skip.
  rewrite <- (app_nil_r post) at 1.
  rewrite (re_sub_from_without _ "<") by done. simpl. by rewrite app_nil_r.
Qed.
End Token.

Lemma inert_formatting text :
  forallb is_inert text = true -> convert_slack_formatting_chars text = text.
Proof.
  intros (_ & H1 & H2 & H3 & Hbt)%Forall_inert.
  rewrite convert_plain_part by done. unfold rewrite_plain.
  unfold sub_bold. rewrite (re_sub_without _ "*"); [|apply match_emphasis_head|done].
  unfold sub_italic. rewrite (re_sub_without _ "_"); [|apply match_emphasis_head|done].
  unfold sub_strike. by rewrite (re_sub_without _ "~"); [|apply match_emphasis_head|done].
Qed.

Lemma is_word_not_lt w :
  forallb is_word w = true -> Forall (fun c => c <> "<"%char) w.
Proof.
  intros H. rewrite forallb_forall in H. apply Forall_forall.
  intros c Hc%list_elem_of_In ->. by specialize (H _ Hc).
Qed.

Lemma not_gt_spec l : forallb not_gt l = true -> Forall (fun c => c <> ">"%char) l.
Proof.
  intros H. rewrite forallb_forall in H. apply Forall_forall.
  intros c Hc%list_elem_of_In ->. by specialize (H _ Hc).
Qed.

Ltac norm_app := repeat (progress (simpl; rewrite <- ?app_assoc)).

Lemma match_channel_mention_token p w name post :
  w <> [] -> forallb is_word w = true -> name <> [] -> forallb not_gt name = true ->
  match_channel_mention p
    ("<"%char :: ("#"%char :: w ++ "|"%char :: name ++ [">"%char]) ++ post)
  = Some ("#"%char :: name, S (length ("#"%char :: w ++ "|"%char :: name ++ [">"%char]))).
Proof.
  intros Hw Hword Hname Hgt.
  replace (("#"%char :: w ++ "|"%char :: name ++ [">"%char]) ++ post)
    with ("#"%char :: w ++ "|"%char :: name ++ ">"%char :: post)
    by (symmetry; norm_app; reflexivity).
  unfold match_channel_mention. simpl.
  destruct (take_while_app is_word w ("|"%char :: name ++ ">"%char :: post) Hword)
    as [-> ->]; [done|].
  simpl.
  destruct (take_while_app not_gt name (">"%char :: post) Hgt) as [-> ->]; [done|].
  rewrite !bool_decide_eq_false_2 by done. simpl.
  do 3 f_equal. rewrite !length_app. simpl. rewrite !length_app. simpl. lia.
Qed.

Ltac token_head :=
  first [ apply match_channel_mention_head | apply match_subteam_head
        | apply match_special_head | apply match_link_head
        | intros; by apply match_user_mention_head ].

Ltac pass_none :=
  rewrite re_sub_token_none; [|token_head|done|done|intros; reflexivity].

Ltac pass_inert H :=
  match type of H with
  | Forall _ ?t => rewrite (re_sub_without _ "<"%char t); [|token_head|exact H]
  end.

(** X16.  A channel mention [<#ID|name>] becomes [#name]: where the name
    and the text around the token hold no character that another rule
    reacts to, this is the result of [convert_mrkdwn]. *)
Theorem channel_mention_rewritten (users : gmap string User.t) (pre w name post : chars) :
  forallb is_inert pre = true -> forallb is_inert post = true ->
  w <> [] -> forallb is_word w = true ->
  name <> [] -> forallb is_inert name = true -> forallb not_gt name = true ->
  convert_mrkdwn
    (chars_str (pre ++ str_chars "<#" ++ w ++ str_chars "|" ++ name ++ str_chars ">" ++ post))
    users
  = chars_str (pre ++ str_chars "#" ++ name ++ post).
Proof.
  intros Hpre Hpost Hw Hword Hname Hinert Hgt. unfold convert_mrkdwn, sub_user_mentions.
  rewrite chars_str_chars.
  destruct (Forall_inert _ Hpre) as (Hpre1 & _).
  destruct (Forall_inert _ Hpost) as (Hpost1 & _).
  destruct (Forall_inert _ Hinert) as (Hname1 & _).
  pose proof (is_word_not_lt _ Hword) as Hw1.
  assert (Forall (fun c => c <> "<"%char)
            ("#"%char :: w ++ "|"%char :: name ++ ">"%char :: post)) as Hrest.
  { constructor; [done|]. apply Forall_app. split; [done|]. constructor; [done|].
    apply Forall_app. split; [done|]. by constructor. }
  change (pre ++ str_chars "<#" ++ w ++ str_chars "|" ++ name ++ str_chars ">" ++ post)
    with (pre ++ "<"%char :: "#"%char :: w ++ "|"%char :: name ++ ">"%char :: post).
  pass_none.
  replace ("#"%char :: w ++ "|"%char :: name ++ ">"%char :: post)
    with (("#"%char :: w ++ "|"%char :: name ++ [">"%char]) ++ post)
    by (norm_app; reflexivity).
  rewrite (re_sub_token_some match_channel_mention) with (repl := "#"%char :: name);
    [|token_head|done|done|intros; by apply match_channel_mention_token].
  assert (forallb is_inert (pre ++ ("#"%char :: name) ++ post) = true) as Hall.
  { rewrite !forallb_app. simpl. by rewrite Hpre, Hinert, Hpost. }
  destruct (Forall_inert _ Hall) as (Hall1 & _).
  do 5 pass_inert Hall1. by rewrite inert_formatting.
Qed.

Lemma channel_mention_rewritten_witness :
  convert_mrkdwn "see <#C123|general> for more" sample_users = "see #general for more".
Proof.
  apply (channel_mention_rewritten sample_users (str_chars "see ") (str_chars "C123")
           (str_chars "general") (str_chars " for more")); done.
Defined.

Lemma match_subteam_token p w group post :
  w <> [] -> forallb is_word w = true -> group <> [] -> forallb not_gt group = true ->
  match_subteam p
    ("<"%char :: (str_chars "!subteam^" ++ w ++ "|"%char :: "@"%char :: group ++ [">"%char])
       ++ post)
  = Some ("@"%char :: group,
          S (length (str_chars "!subteam^" ++ w ++ "|"%char :: "@"%char :: group
                       ++ [">"%char]))).
Proof.
  intros Hw Hword Hgroup Hgt.
  replace ((str_chars "!subteam^" ++ w ++ "|"%char :: "@"%char :: group ++ [">"%char])
             ++ post)
    with (str_chars "!subteam^" ++ w ++ "|"%char :: "@"%char :: group ++ ">"%char :: post)
    by (symmetry; norm_app; reflexivity).
  unfold match_subteam. simpl.
  destruct (take_while_app is_word w ("|"%char :: "@"%char :: group ++ ">"%char :: post)
              Hword) as [-> ->]; [done|].
  simpl.
  destruct (take_while_app not_gt group (">"%char :: post) Hgt) as [-> ->]; [done|].
  rewrite !bool_decide_eq_false_2 by done. simpl.
  do 3 f_equal. rewrite !length_app. simpl. rewrite !length_app. simpl. lia.
Qed.

(** X17.  A user group mention [<!subteam^ID|@group>] becomes [@group]:
    where the group name and the text around the token hold no character
    that another rule reacts to, this is the result of [convert_mrkdwn]. *)
Theorem subteam_mention_rewritten (users : gmap string User.t) (pre w group post : chars) :
  forallb is_inert pre = true -> forallb is_inert post = true ->
  w <> [] -> forallb is_word w = true ->
  group <> [] -> forallb is_inert group = true -> forallb not_gt group = true ->
  convert_mrkdwn
    (chars_str (pre ++ str_chars "<!subteam^" ++ w ++ str_chars "|@" ++ group
                    ++ str_chars ">" ++ post))
    users
  = chars_str (pre ++ str_chars "@" ++ group ++ post).
Proof.
  intros Hpre Hpost Hw Hword Hgroup Hinert Hgt. unfold convert_mrkdwn, sub_user_mentions.
  rewrite chars_str_chars.
  destruct (Forall_inert _ Hpre) as (Hpre1 & _).
  destruct (Forall_inert _ Hpost) as (Hpost1 & _).
  destruct (Forall_inert _ Hinert) as (Hgroup1 & _).
  pose proof (is_word_not_lt _ Hword) as Hw1.
  assert (Forall (fun c => c <> "<"%char)
            (str_chars "!subteam^" ++ w ++ "|"%char :: "@"%char :: group
               ++ ">"%char :: post)) as Hrest.
  { apply Forall_app. split; [repeat constructor; discriminate|].
    apply Forall_app. split; [done|]. do 2 (constructor; [done|]).
    apply Forall_app. split; [done|]. by constructor. }
  change (pre ++ str_chars "<!subteam^" ++ w ++ str_chars "|@" ++ group
              ++ str_chars ">" ++ post)
    with (pre ++ "<"%char :: str_chars "!subteam^" ++ w ++ "|"%char :: "@"%char :: group
              ++ ">"%char :: post).
  do 2 pass_none.
  replace (str_chars "!subteam^" ++ w ++ "|"%char :: "@"%char :: group ++ ">"%char :: post)
    with ((str_chars "!subteam^" ++ w ++ "|"%char :: "@"%char :: group ++ [">"%char])
            ++ post)
    by (norm_app; reflexivity).
  rewrite (re_sub_token_some match_subteam) with (repl := "@"%char :: group);
    [|token_head|done|done|intros; by apply match_subteam_token].
  assert (forallb is_inert (pre ++ ("@"%char :: group) ++ post) = true) as Hall.
  { rewrite !forallb_app. simpl. by rewrite Hpre, Hinert, Hpost. }
  destruct (Forall_inert _ Hall) as (Hall1 & _).
  do 4 pass_inert Hall1. by rewrite inert_formatting.
Qed.

Lemma subteam_mention_rewritten_witness :
  convert_mrkdwn "ping <!subteam^S123|@engineers> now" sample_users
  = "ping @engineers now".
Proof.
  apply (subteam_mention_rewritten sample_users (str_chars "ping ") (str_chars "S123")
           (str_chars "engineers") (str_chars " now")); done.
Defined.

Lemma mention_tail_not_lt tail post :
  Forall (fun c => c <> "<"%char) tail -> Forall (fun c => c <> "<"%char) post ->
  Forall (fun c => c <> "<"%char) (tail ++ ">"%char :: post).
Proof. intros Ht Hp. apply Forall_app. split; [done|]. by constructor. Qed.

Lemma match_special_token word p tail post :
  mention_tail tail ->
  match_special word p
    ("<"%char :: ("!"%char :: str_chars word ++ tail ++ [">"%char]) ++ post)
  = Some ("@"%char :: str_chars word,
          S (length ("!"%char :: str_chars word ++ tail ++ [">"%char]))).
Proof.
  intros Htail.
  replace (("!"%char :: str_chars word ++ tail ++ [">"%char]) ++ post)
    with ("!"%char :: str_chars word ++ tail ++ ">"%char :: post)
    by (symmetry; norm_app; reflexivity).
  unfold match_special.
  assert (forall l rest, strip_prefix l (l ++ rest) = Some rest) as Hstrip.
  { induction l as [|c l IH]; intros rest; [done|]. simpl. by rewrite chr_eqb_refl. }
  change ("<"%char :: "!"%char :: str_chars word ++ tail ++ ">"%char :: post)
    with ((str_chars "<!" ++ str_chars word) ++ tail ++ ">"%char :: post).
  rewrite Hstrip. simpl. rewrite match_opt_tail_spec by done. simpl.
  do 3 f_equal. rewrite !length_app. simpl.
  assert (String.length word = length (str_chars word)) as ->.
  { clear. induction word as [|c word IH]; simpl; [done|]. by rewrite IH. }
  lia.
Qed.

(** X18.  The broadcast tokens [<!here>], [<!channel>] and [<!everyone>],
    with or without a tail behind a bar, become [@here], [@channel] and
    [@everyone]: where the text around the token holds no character that
    another rule reacts to, this is the result of [convert_mrkdwn]. *)
Theorem broadcast_rewritten (users : gmap string User.t) (word : string)
    (pre tail post : chars) :
  word ∈ ["here"; "channel"; "everyone"] ->
  forallb is_inert pre = true -> forallb is_inert post = true ->
  mention_tail tail -> Forall (fun c => c <> "<"%char) tail ->
  convert_mrkdwn
    (chars_str (pre ++ str_chars "<!" ++ str_chars word ++ tail ++ str_chars ">" ++ post))
    users
  = chars_str (pre ++ str_chars "@" ++ str_chars word ++ post).
Proof.
  intros Hword Hpre Hpost Htail Htail1. unfold convert_mrkdwn, sub_user_mentions.
  rewrite chars_str_chars.
  destruct (Forall_inert _ Hpre) as (Hpre1 & _).
  destruct (Forall_inert _ Hpost) as (Hpost1 & _).
  pose proof (mention_tail_not_lt _ _ Htail1 Hpost1) as Hrest0.
  assert (forall w : string,
            forallb is_inert (str_chars w) = true ->
            forallb is_inert (pre ++ ("@"%char :: str_chars w) ++ post) = true) as Hall.
  { intros w Hw. rewrite !forallb_app. simpl. by rewrite Hpre, Hw, Hpost. }
  repeat (apply elem_of_cons in Hword as [->|Hword]); [| | |by apply elem_of_nil in Hword].
  - assert (Forall (fun c => c <> "<"%char)
              (str_chars "!here" ++ tail ++ ">"%char :: post)) as Hrest.
    { apply Forall_app. split; [repeat constructor; discriminate|done]. }
    change (pre ++ str_chars "<!" ++ str_chars "here" ++ tail ++ str_chars ">" ++ post)
      with (pre ++ "<"%char :: str_chars "!here" ++ tail ++ ">"%char :: post).
    do 3 pass_none.
    replace (str_chars "!here" ++ tail ++ ">"%char :: post)
      with (("!"%char :: str_chars "here" ++ tail ++ [">"%char]) ++ post)
      by (norm_app; reflexivity).
    rewrite (re_sub_token_some (match_special "here"))
      with (repl := "@"%char :: str_chars "here");
      [|token_head|done|done|intros; by apply match_special_token].
    destruct (Forall_inert _ (Hall "here" eq_refl)) as (Hall1 & _).
    do 3 pass_inert Hall1. by rewrite inert_formatting by by apply Hall.
  - assert (Forall (fun c => c <> "<"%char)
              (str_chars "!channel" ++ tail ++ ">"%char :: post)) as Hrest.
    { apply Forall_app. split; [repeat constructor; discriminate|done]. }
    change (pre ++ str_chars "<!" ++ str_chars "channel" ++ tail ++ str_chars ">" ++ post)
      with (pre ++ "<"%char :: str_chars "!channel" ++ tail ++ ">"%char :: post).
    do 4 pass_none.
    replace (str_chars "!channel" ++ tail ++ ">"%char :: post)
      with (("!"%char :: str_chars "channel" ++ tail ++ [">"%char]) ++ post)
      by (norm_app; reflexivity).
    rewrite (re_sub_token_some (match_special "channel"))
      with (repl := "@"%char :: str_chars "channel");
      [|token_head|done|done|intros; by apply match_special_token].
    destruct (Forall_inert _ (Hall "channel" eq_refl)) as (Hall1 & _).
    do 2 pass_inert Hall1. by rewrite inert_formatting by by apply Hall.
  - assert (Forall (fun c => c <> "<"%char)
              (str_chars "!everyone" ++ tail ++ ">"%char :: post)) as Hrest.
    { apply Forall_app. split; [repeat constructor; discriminate|done]. }
    change (pre ++ str_chars "<!" ++ str_chars "everyone" ++ tail ++ str_chars ">" ++ post)
      with (pre ++ "<"%char :: str_chars "!everyone" ++ tail ++ ">"%char :: post).
    do 5 pass_none.
    replace (str_chars "!everyone" ++ tail ++ ">"%char :: post)
      with (("!"%char :: str_chars "everyone" ++ tail ++ [">"%char]) ++ post)
      by (norm_app; reflexivity).
    rewrite (re_sub_token_some (match_special "everyone"))
      with (repl := "@"%char :: str_chars "everyone");
      [|token_head|done|done|intros; by apply match_special_token].
    destruct (Forall_inert _ (Hall "everyone" eq_refl)) as (Hall1 & _).
    pass_inert Hall1. by rewrite inert_formatting by by apply Hall.
Qed.

Lemma broadcast_rewritten_witness :
  convert_mrkdwn "hey <!channel|channel>, lunch" sample_users = "hey @channel, lunch".
Proof.
  apply (broadcast_rewritten sample_users "channel" (str_chars "hey ")
           (str_chars "|channel") (str_chars ", lunch")).
  - apply elem_of_cons. right. apply elem_of_cons. by left.
  - reflexivity.
  - reflexivity.
  - right. exists (str_chars "channel"). split; reflexivity.
  - repeat constructor; discriminate.
Defined.

(** ** Links *)

Lemma match_link_token p scheme content post :
  link_scheme scheme -> content <> [] -> forallb not_gt content = true ->
  match_link p ("<"%char :: ((scheme ++ content) ++ [">"%char]) ++ post)
  = Some (replace_link (scheme ++ content), S (length ((scheme ++ content) ++ [">"%char]))).
Proof.
  intros Hscheme Hne Hgt.
  replace (((scheme ++ content) ++ [">"%char]) ++ post)
    with (scheme ++ content ++ ">"%char :: post)
    by (by rewrite <- !app_assoc).
  destruct (take_while_app not_gt content (">"%char :: post) Hgt) as [Htake Hdrop]; [done|].
  unfold match_link.
  destruct Hscheme as [-> | ->]; simpl; rewrite Htake, Hdrop;
    rewrite !bool_decide_eq_false_2 by done; simpl;
    do 3 f_equal; rewrite !length_app; simpl; lia.
Qed.

Lemma split_pipe_none content :
  Forall (fun c => c <> "|"%char) content -> replace_link content = content.
Proof.
  intros H. unfold replace_link, split_pipe.
  replace (drop_while (fun c => negb (chr_eqb c "|")) content) with (@nil ascii); [done|].
  induction H as [|c l Hc _ IH]; [done|]. simpl.
  apply chr_eqb_neq in Hc. by rewrite Hc.
Qed.

Lemma split_pipe_some url label :
  Forall (fun c => c <> "|"%char) url ->
  replace_link (url ++ "|"%char :: label)
  = str_chars "[" ++ label ++ str_chars "](" ++ url ++ str_chars ")".
Proof.
  intros H. unfold replace_link, split_pipe.
  destruct (take_while_app (fun c => negb (chr_eqb c "|")) url ("|"%char :: label))
    as [-> ->]; [|done|done].
  apply forallb_forall. intros c Hc%list_elem_of_In.
  rewrite Forall_forall in H. apply negb_true_iff, chr_eqb_neq. by apply H.
Qed.

Lemma link_scheme_inert scheme :
  link_scheme scheme ->
  forallb is_inert scheme = true /\ Forall (fun c => c <> "|"%char) scheme.
Proof. intros [-> | ->]; (split; [reflexivity|repeat constructor; discriminate]). Qed.

Lemma convert_link users pre scheme content post :
  forallb is_inert pre = true -> forallb is_inert post = true ->
  link_scheme scheme -> content <> [] -> forallb not_gt content = true ->
  Forall (fun c => c <> "<"%char) content ->
  forallb is_inert (replace_link (scheme ++ content)) = true ->
  convert_mrkdwn (chars_str (pre ++ "<"%char :: ((scheme ++ content) ++ [">"%char]) ++ post))
                 users
  = chars_str (pre ++ replace_link (scheme ++ content) ++ post).
Proof.
  intros Hpre Hpost Hscheme Hne Hgt Hlt Hrepl. unfold convert_mrkdwn, sub_user_mentions.
  rewrite chars_str_chars.
  destruct (Forall_inert _ Hpre) as (Hpre1 & _).
  destruct (Forall_inert _ Hpost) as (Hpost1 & _).
  assert (Forall (fun c => c <> "<"%char) (((scheme ++ content) ++ [">"%char]) ++ post))
    as Hrest.
  { rewrite !Forall_app. split_and!; [|done| |done].
    - destruct (link_scheme_inert _ Hscheme) as [Hs _]. by apply Forall_inert in Hs as (? & _).
    - by repeat constructor. }
  pose proof (match_link_token) as Htoken.
  specialize (fun p => Htoken p scheme content post Hscheme Hne Hgt).
  assert (re_sub match_link (pre ++ "<"%char :: ((scheme ++ content) ++ [">"%char]) ++ post)
          = pre ++ replace_link (scheme ++ content) ++ post) as Hlink.
  { apply re_sub_token_some; [apply match_link_head|done|done|done]. }
  assert (forallb is_inert (pre ++ replace_link (scheme ++ content) ++ post) = true) as Hall.
  { rewrite !forallb_app. by rewrite Hpre, Hrepl, Hpost. }
  destruct Hscheme as [-> | ->]; do 6 pass_none; rewrite Hlink; by rewrite inert_formatting.
Qed.

(** X19.  A link [<URL>] becomes the bare URL and a link [<URL|label>]
    becomes [[label](URL)], for a URL that starts with http:// or https://:
    where the URL, the label and the text around the token hold no
    character that another rule reacts to, this is the result of
    [convert_mrkdwn]. *)
Theorem link_rewritten (users : gmap string User.t) (pre scheme rest post : chars) :
  forallb is_inert pre = true -> forallb is_inert post = true ->
  link_scheme scheme ->
  forallb is_inert rest = true -> forallb not_gt rest = true ->
  Forall (fun c => c <> "|"%char) rest ->
  (rest <> [] ->
   convert_mrkdwn (chars_str (pre ++ str_chars "<" ++ scheme ++ rest ++ str_chars ">" ++ post))
                  users
   = chars_str (pre ++ scheme ++ rest ++ post))
  /\ (forall label,
        forallb is_inert label = true -> forallb not_gt label = true ->
        convert_mrkdwn
          (chars_str (pre ++ str_chars "<" ++ scheme ++ rest ++ str_chars "|" ++ label
                          ++ str_chars ">" ++ post))
          users
        = chars_str (pre ++ str_chars "[" ++ label ++ str_chars "](" ++ scheme ++ rest
                         ++ str_chars ")" ++ post)).
Proof.
  intros Hpre Hpost Hscheme Hrest Hgt Hbar.
  destruct (link_scheme_inert _ Hscheme) as [Hs Hsbar].
  destruct (Forall_inert _ Hrest) as (Hrest1 & _).
  split.
  - intros Hne.
    replace (pre ++ str_chars "<" ++ scheme ++ rest ++ str_chars ">" ++ post)
      with (pre ++ "<"%char :: ((scheme ++ rest) ++ [">"%char]) ++ post)
      by (norm_app; reflexivity).
    assert (replace_link (scheme ++ rest) = scheme ++ rest) as Hrepl.
    { apply split_pipe_none. apply Forall_app. by split. }
    rewrite convert_link; try done.
    + by rewrite Hrepl, <- !app_assoc.
    + rewrite Hrepl, forallb_app. by rewrite Hs, Hrest.
  - intros label Hlabel Hlgt.
    destruct (Forall_inert _ Hlabel) as (Hlabel1 & _).
    replace (pre ++ str_chars "<" ++ scheme ++ rest ++ str_chars "|" ++ label
                 ++ str_chars ">" ++ post)
      with (pre ++ "<"%char :: ((scheme ++ rest ++ "|"%char :: label) ++ [">"%char]) ++ post)
      by (norm_app; reflexivity).
    assert (replace_link (scheme ++ rest ++ "|"%char :: label)
            = str_chars "[" ++ label ++ str_chars "](" ++ (scheme ++ rest) ++ str_chars ")")
      as Hrepl.
    { rewrite (assoc_L (++)). apply split_pipe_some. apply Forall_app. by split. }
    rewrite convert_link; try done.
    + rewrite Hrepl. f_equal. norm_app. reflexivity.
    + by destruct rest.
    + rewrite forallb_app. simpl. by rewrite Hgt, Hlgt.
    + apply Forall_app. split; [done|]. by constructor.
    + rewrite Hrepl. rewrite !forallb_app. simpl. rewrite ?forallb_app.
      simpl. by rewrite Hlabel, Hs, Hrest.
Qed.

Lemma link_rewritten_witness :
  convert_mrkdwn "docs: <https://example.com/a?b=1>." sample_users
  = "docs: https://example.com/a?b=1."
  /\ convert_mrkdwn "see <http://example.com|the site>" sample_users
     = "see [the site](http://example.com)".
Proof.
  split.
  - assert (Forall (fun c => c <> "|"%char) (str_chars "example.com/a?b=1")) as Hbar
      by (repeat constructor; discriminate).
    exact (proj1 (link_rewritten sample_users (str_chars "docs: ") (str_chars "https://")
                    (str_chars "example.com/a?b=1") (str_chars ".")
                    eq_refl eq_refl (or_intror eq_refl) eq_refl eq_refl Hbar)
                 ltac:(discriminate)).
  - assert (Forall (fun c => c <> "|"%char) (str_chars "example.com")) as Hbar
      by (repeat constructor; discriminate).
    exact (proj2 (link_rewritten sample_users (str_chars "see ") (str_chars "http://")
                    (str_chars "example.com") []
                    eq_refl eq_refl (or_introl eq_refl) eq_refl eq_refl Hbar)
                 (str_chars "the site") eq_refl eq_refl).
Defined.

(** ** Emphasis *)

Lemma foldl_last (prev : option ascii) (l : chars) :
  foldl (fun _ c => Some c) prev l
  = match last l with Some c => Some c | None => prev end.
Proof.
  revert prev. induction l as [|c l IH]; intros prev; [done|].
  simpl foldl. rewrite IH, last_cons. by destruct (last l).
Qed.

Lemma last_Forall {A} (P : A -> Prop) (l : list A) :
  Forall P l -> from_option P True (last l).
Proof.
  intros H. destruct (last l) as [x|] eqn:Hl; [|done]. simpl.
  apply last_Some in Hl as [l' ->]. rewrite Forall_app, Forall_singleton in H.
  by destruct H.
Qed.

Section Span.
Variables (delim : ascii) (b1 a2 : ascii -> bool) (left right : chars).

Lemma find_close_body body : forall acc post,
  Forall (fun c => c <> delim /\ c <> newline) body ->
  Forall (fun c => c <> delim) acc ->
  acc <> [] \/ body <> [] ->
  next_not a2 post = true ->
  find_close delim (is_chr delim) a2 acc (body ++ delim :: post) = Some (rev acc ++ body).
Proof.
  induction body as [|c body IH]; intros acc post Hbody Hacc Hne Hnext.
  - destruct Hne as [Hne|Hne]; [|done]. destruct acc as [|x acc]; [done|].
    apply Forall_cons in Hacc as [Hx _]. apply chr_eqb_neq in Hx.
    simpl app. cbn [find_close]. unfold is_chr at 1. rewrite chr_eqb_refl, Hx, Hnext.
    simpl. by rewrite app_nil_r.
  - apply Forall_cons in Hbody as [[Hc Hnl] Hbody].
    simpl app. cbn [find_close].
    apply chr_eqb_neq in Hc as Hc', Hnl.
    rewrite Hc', Hnl. simpl.
    assert ((match acc with _ :: _ => false | [] => false end) = false) as ->
      by by destruct acc.
    rewrite IH; [|done|by constructor|by left|done].
    simpl. by rewrite <- app_assoc.
Qed.

Lemma match_emphasis_span prev body post :
  Forall (fun c => c <> delim /\ c <> newline) body -> body <> [] ->
  from_option (fun p => b1 p = false) True prev ->
  next_not a2 post = true ->
  match_emphasis delim b1 (is_chr delim) (is_chr delim) a2 left right prev
                 (delim :: body ++ delim :: post)
  = Some (left ++ body ++ right, 1 + length body + 1).
Proof.
  intros Hbody Hne Hprev Hnext. unfold match_emphasis. rewrite chr_eqb_refl.
  assert (match prev with Some p => negb (b1 p) | None => true end = true) as ->.
  { destruct prev as [p|]; [|done]. simpl in Hprev. by rewrite Hprev. }
  assert (next_not (is_chr delim) (body ++ delim :: post) = true) as ->.
  { destruct body as [|c body]; [done|]. apply Forall_cons in Hbody as [[Hc _] _].
    simpl. unfold is_chr. apply chr_eqb_neq in Hc. by rewrite Hc. }
  simpl. rewrite find_close_body; [done|done|constructor|by right|done].
Qed.

Lemma re_sub_emphasis_span pre body post :
  Forall (fun c => c <> delim) pre ->
  Forall (fun c => c <> delim /\ c <> newline) body -> body <> [] ->
  Forall (fun c => c <> delim) post ->
  from_option (fun p => b1 p = false) True (last pre) ->
  next_not a2 post = true ->
  re_sub (match_emphasis delim b1 (is_chr delim) (is_chr delim) a2 left right)
         (pre ++ delim :: body ++ delim :: post)
  = pre ++ left ++ body ++ right ++ post.
Proof.
  intros Hpre Hbody Hne Hpost Hprev Hnext. unfold re_sub.
  rewrite (re_sub_from_without _ delim); [|apply match_emphasis_head|done]. f_equal.
  rewrite foldl_last.
  erewrite re_sub_from_match; [|reflexivity|].
  2: { apply match_emphasis_span; try done. by destruct (last pre). }
  rewrite <- !app_assoc. do 3 f_equal.
  replace (1 + length body + 1 - 1) with (length (body ++ [delim]))
    by (rewrite length_app; simpl; lia).
  replace (body ++ delim :: post) with ((body ++ [delim]) ++ post)
    by (by rewrite <- app_assoc).
  rewrite re_sub_from_skip.
  rewrite <- (app_nil_r post) at 1.
  rewrite (re_sub_from_without _ delim); [|apply match_emphasis_head|done].
  simpl. by rewrite app_nil_r.
Qed.
End Span.

Lemma inert_span_body (body : chars) (d : ascii) :
  Forall (fun c => c <> d) body -> Forall (fun c => c <> newline) body ->
  Forall (fun c => c <> d /\ c <> newline) body.
Proof.
  intros H1 H2. apply Forall_forall. intros c Hc.
  rewrite Forall_forall in H1, H2. split; [by apply H1|by apply H2].
Qed.

Lemma next_not_Forall (d : ascii) (post : chars) :
  Forall (fun c => c <> d) post -> next_not (is_chr d) post = true.
Proof.
  intros H. destruct post as [|c post]; [done|]. apply Forall_cons in H as [Hc _].
  simpl. unfold is_chr. apply chr_eqb_neq in Hc. by rewrite Hc.
Qed.

Lemma last_not_chr (d : ascii) (pre : chars) :
  Forall (fun c => c <> d) pre ->
  from_option (fun p => is_chr d p = false) True (last pre).
Proof.
  intros H. apply last_Forall. eapply Forall_impl; [done|].
  intros c Hc. unfold is_chr. by apply chr_eqb_neq.
Qed.

Lemma Forall_span (d d' : ascii) (left right pre body post : chars) :
  Forall (fun c => c <> d) left -> Forall (fun c => c <> d) right ->
  Forall (fun c => c <> d) pre -> Forall (fun c => c <> d) body ->
  Forall (fun c => c <> d) post ->
  Forall (fun c => c <> d) (pre ++ left ++ body ++ right ++ post).
Proof. intros. rewrite !Forall_app. done. Qed.

(** X20.  Slack bold [*text*] becomes [**text**] and Slack strike [~text~]
    becomes [~~text~~], for a text of one line: where the text inside and
    around the delimiters holds no character that another rule reacts to,
    this is the result of [convert_mrkdwn]. *)
Theorem bold_and_strike_rewritten (users : gmap string User.t) (pre body post : chars) :
  forallb is_inert pre = true -> forallb is_inert body = true ->
  forallb is_inert post = true ->
  body <> [] -> Forall (fun c => c <> newline) body ->
  convert_mrkdwn (chars_str (pre ++ str_chars "*" ++ body ++ str_chars "*" ++ post)) users
  = chars_str (pre ++ str_chars "**" ++ body ++ str_chars "**" ++ post)
  /\ convert_mrkdwn (chars_str (pre ++ str_chars "~" ++ body ++ str_chars "~" ++ post)) users
     = chars_str (pre ++ str_chars "~~" ++ body ++ str_chars "~~" ++ post).
Proof.
  intros Hpre Hbody Hpost Hne Hnl.
  destruct (Forall_inert _ Hpre) as (Hpre1 & Hpre2 & Hpre3 & Hpre4 & Hpre5).
  destruct (Forall_inert _ Hbody) as (Hb1 & Hb2 & Hb3 & Hb4 & Hb5).
  destruct (Forall_inert _ Hpost) as (Hpost1 & Hpost2 & Hpost3 & Hpost4 & Hpost5).
  assert (forall d : ascii, d <> "<"%char -> d <> backtick ->
            Forall (fun c => c <> "<"%char) (pre ++ d :: body ++ d :: post)
            /\ no_backtick (pre ++ d :: body ++ d :: post)) as Htext.
  { intros d Hd1 Hd2. unfold no_backtick. rewrite !Forall_app, !Forall_cons, !Forall_app,
      !Forall_cons. done. }
  split.
  - change (pre ++ str_chars "*" ++ body ++ str_chars "*" ++ post)
      with (pre ++ "*"%char :: body ++ "*"%char :: post).
    destruct (Htext "*"%char) as [Hlt Hbt]; [done|done|].
    rewrite convert_mrkdwn_no_lt, convert_plain_part by done. f_equal.
    unfold rewrite_plain, sub_bold.
    rewrite re_sub_emphasis_span;
      [|done|by apply inert_span_body|done|done|by apply last_not_chr
       |by apply next_not_Forall].
    unfold sub_italic. rewrite (re_sub_without _ "_"); [|apply match_emphasis_head|].
    2: { apply Forall_span; try done; repeat constructor; discriminate. }
    unfold sub_strike. rewrite (re_sub_without _ "~"); [done|apply match_emphasis_head|].
    apply Forall_span; try done; repeat constructor; discriminate.
  - change (pre ++ str_chars "~" ++ body ++ str_chars "~" ++ post)
      with (pre ++ "~"%char :: body ++ "~"%char :: post).
    destruct (Htext "~"%char) as [Hlt Hbt]; [done|done|].
    rewrite convert_mrkdwn_no_lt, convert_plain_part by done. f_equal.
    unfold rewrite_plain, sub_bold.
    rewrite (re_sub_without _ "*"); [|apply match_emphasis_head|].
    2: { rewrite !Forall_app, !Forall_cons, !Forall_app, !Forall_cons. done. }
    unfold sub_italic. rewrite (re_sub_without _ "_"); [|apply match_emphasis_head|].
    2: { rewrite !Forall_app, !Forall_cons, !Forall_app, !Forall_cons. done. }
    unfold sub_strike.
    rewrite re_sub_emphasis_span;
      [done|done|by apply inert_span_body|done|done|by apply last_not_chr
       |by apply next_not_Forall].
Qed.

Lemma bold_and_strike_rewritten_witness :
  convert_mrkdwn "this is *very important* today" sample_users
  = "this is **very important** today"
  /\ convert_mrkdwn "price ~10 USD~ 8 USD" sample_users = "price ~~10 USD~~ 8 USD".
Proof.
  assert (Forall (fun c => c <> newline) (str_chars "very important")) as H1
    by (repeat constructor; discriminate).
  assert (Forall (fun c => c <> newline) (str_chars "10 USD")) as H2
    by (repeat constructor; discriminate).
  split.
  - exact (proj1 (bold_and_strike_rewritten sample_users (str_chars "this is ")
                    (str_chars "very important") (str_chars " today")
                    eq_refl eq_refl eq_refl ltac:(discriminate) H1)).
  - exact (proj2 (bold_and_strike_rewritten sample_users (str_chars "price ")
                    (str_chars "10 USD") (str_chars " 8 USD")
                    eq_refl eq_refl eq_refl ltac:(discriminate) H2)).
Defined.

(** X21.  Slack italic [_text_] becomes [*text*] where the opening
    underscore does not follow a word character and the closing one is not
    followed by one: for a text of one line whose parts hold no character
    that another rule reacts to, this is the result of [convert_mrkdwn]. *)
Theorem italic_rewritten (users : gmap string User.t) (pre body post : chars) :
  forallb is_inert pre = true -> forallb is_inert body = true ->
  forallb is_inert post = true ->
  body <> [] -> Forall (fun c => c <> newline) body ->
  from_option (fun p => is_word p = false) True (last pre) ->
  from_option (fun c => is_word c = false) True (head post) ->
  convert_mrkdwn (chars_str (pre ++ str_chars "_" ++ body ++ str_chars "_" ++ post)) users
  = chars_str (pre ++ str_chars "*" ++ body ++ str_chars "*" ++ post).
Proof.
  intros Hpre Hbody Hpost Hne Hnl Hlast Hhead.
  destruct (Forall_inert _ Hpre) as (Hpre1 & Hpre2 & Hpre3 & Hpre4 & Hpre5).
  destruct (Forall_inert _ Hbody) as (Hb1 & Hb2 & Hb3 & Hb4 & Hb5).
  destruct (Forall_inert _ Hpost) as (Hpost1 & Hpost2 & Hpost3 & Hpost4 & Hpost5).
  change (pre ++ str_chars "_" ++ body ++ str_chars "_" ++ post)
    with (pre ++ "_"%char :: body ++ "_"%char :: post).
  rewrite convert_mrkdwn_no_lt, convert_plain_part.
  2: { unfold no_backtick. rewrite !Forall_app, !Forall_cons, !Forall_app, !Forall_cons.
       done. }
  2: { rewrite !Forall_app, !Forall_cons, !Forall_app, !Forall_cons. done. }
  f_equal. unfold rewrite_plain, sub_bold.
  rewrite (re_sub_without _ "*"); [|apply match_emphasis_head|].
  2: { rewrite !Forall_app, !Forall_cons, !Forall_app, !Forall_cons. done. }
  unfold sub_italic.
  rewrite re_sub_emphasis_span; [|done|by apply inert_span_body|done|done|done|].
  2: { destruct post as [|c post]; [done|]. simpl in *. by rewrite Hhead. }
  unfold sub_strike. rewrite (re_sub_without _ "~"); [done|apply match_emphasis_head|].
  apply Forall_span; try done; repeat constructor; discriminate.
Qed.

Lemma italic_rewritten_witness :
  convert_mrkdwn "an _emphatic no_, really" sample_users = "an *emphatic no*, really".
Proof.
  assert (Forall (fun c => c <> newline) (str_chars "emphatic no")) as H1
    by (repeat constructor; discriminate).
  exact (italic_rewritten sample_users (str_chars "an ") (str_chars "emphatic no")
           (str_chars ", really") eq_refl eq_refl eq_refl ltac:(discriminate) H1
           eq_refl eq_refl).
Defined.

(** * Further properties of the formatters *)

Lemma fromtimestamp_utc_Raise x e :
  fromtimestamp_utc x = Raise e -> e = ValueError \/ e = OverflowError.
Proof.
  unfold fromtimestamp_utc. destruct x as [| |n].
  - intros [= <-]. by left.
  - intros [= <-]. by right.
  - destruct (to_timeval n) as [sec us].
    destruct ((sec <? - 2 ^ 63)%Z || (2 ^ 63 <? sec)%Z); [intros [= <-]; by right|].
    destruct (civil_from_days (sec / 86400)) as [[y m] d].
    destruct ((y <? 1)%Z || (9999 <? y)%Z); [intros [= <-]; by left|done].
Qed.

Lemma handler_Raise {A} (render : datetime -> A) (handler : A) (ts : string) e :
  except_ValueError (x ← py_float ts; dt ← fromtimestamp_utc x; Ok (render dt)) handler
  = Raise e ->
  e = OverflowError /\ overflows ts.
Proof.
  unfold overflows, py_float.
  destruct (float_of_chars (str_chars ts)) as [x|]; simpl; [|done].
  destruct (fromtimestamp_utc x) as [dt|e'] eqn:Hx; simpl; [done|].
  destruct (fromtimestamp_utc_Raise _ _ Hx) as [-> | ->]; simpl; [done|].
  intros [= <-]. split; [done|]. by exists x.
Qed.

Lemma format_message_Raise msg users indent e :
  format_message msg users indent = Raise e ->
  e = OverflowError /\ overflows (Message.ts msg).
Proof.
  unfold format_message.
  destruct (_format_timestamp (Message.ts msg)) as [s|e'] eqn:H; simpl; [done|].
  intros [= <-]. unfold _format_timestamp in H. by apply handler_Raise in H.
Qed.

Lemma format_message_Ok msg users indent :
  ~ overflows (Message.ts msg) -> exists out, format_message msg users indent = Ok out.
Proof.
  intros Hno. destruct (format_message msg users indent) as [out|e] eqn:H; [by exists out|].
  by apply format_message_Raise in H as [_ ?].
Qed.

(** X22.  [format_message] raises nothing but OverflowError, and raises it
    exactly for a timestamp that parses as a float too large for a
    datetime, such as "inf" or "1e19": the handler of ValueError and OSError
    in [_format_timestamp] does not catch it. *)
Theorem format_message_raises_on_overflow (msg : Message.t) (users : gmap string User.t)
    (indent : bool) :
  (forall e, format_message msg users indent = Raise e -> e = OverflowError)
  /\ (overflows (Message.ts msg)
      <-> format_message msg users indent = Raise OverflowError).
Proof.
  split; [intros e H; by apply format_message_Raise in H as [? _]|]. split.
  - intros (x & Hx & Hover). unfold format_message, _format_timestamp.
    by rewrite Hx; simpl; rewrite Hover.
  - intros H. by apply format_message_Raise in H as [_ ?].
Qed.

Lemma format_message_raises_on_overflow_witness :
  overflows "inf"
  /\ format_message (Message.mk "U001" "hi" "inf" EmptyString [] [] [] EmptyString)
                    sample_users false
     = Raise OverflowError.
Proof.
  assert (overflows "inf") as H by (exists (FInf false); split; reflexivity).
  split; [exact H|].
  exact (proj1 (proj2 (format_message_raises_on_overflow
                         (Message.mk "U001" "hi" "inf" EmptyString [] [] [] EmptyString)
                         sample_users false)) H).
Defined.

(** ** A whole channel *)

Lemma foldM_result_Raise {X S} (f : S -> X -> result S) xs : forall s e,
  foldM_result f s xs = Raise e -> exists s' x, x ∈ xs /\ f s' x = Raise e.
Proof.
  induction xs as [|x xs IH]; intros s e; simpl; [done|].
  destruct (f s x) as [s'|e'] eqn:Hx; simpl.
  - intros (s'' & y & Hy & H)%IH. exists s'', y. split; [by right|done].
  - intros [= ->]. exists s, x. split; [by left|done].
Qed.

Lemma foldM_result_filter {X S} (f : S -> X -> result S) (keep : X -> bool) xs :
  (forall s x, keep x = false -> f s x = Ok s) ->
  forall s, foldM_result f s (filter (fun x => keep x = true) xs) = foldM_result f s xs.
Proof.
  intros Hskip. induction xs as [|x xs IH]; intros s; [done|].
  rewrite filter_cons. destruct (decide (keep x = true)) as [Hk|Hk]; simpl.
  - destruct (f s x); simpl; [apply IH|done].
  - apply not_true_is_false in Hk. rewrite (Hskip s x Hk). simpl. apply IH.
Qed.

Lemma deref_filter_shown h refs :
  deref h (filter (fun r => shown h r = true) refs)
  = filter (fun msg => negb (is_skipped msg) = true) (deref h refs).
Proof.
  unfold deref. induction refs as [|r refs IH]; [done|].
  rewrite filter_cons. destruct (decide (shown h r = true)) as [Hs|Hs].
  - unfold shown in Hs. simpl. destruct (h !! r) as [msg|] eqn:Hr; [|done].
    rewrite filter_cons, decide_True by done. f_equal. apply IH.
  - unfold shown in Hs. simpl. destruct (h !! r) as [msg|] eqn:Hr; [|apply IH].
    rewrite filter_cons, decide_False by done. apply IH.
Qed.

Lemma channel_step_skipped h users st msg :
  negb (is_skipped msg) = false -> channel_step h users st msg = Ok st.
Proof.
  intros Hs%negb_false_iff. unfold channel_step. destruct st as [lines date].
  by rewrite Hs.
Qed.

Lemma elem_of_deref h refs msg : msg ∈ deref h refs -> msg ∈ h.
Proof.
  unfold deref. intros (r & _ & Hr)%list_elem_of_omap. by eapply list_elem_of_lookup_2.
Qed.

Lemma channel_step_Raise h users st msg e :
  channel_step h users st msg = Raise e ->
  e = OverflowError
  /\ is_skipped msg = false
  /\ (overflows (Message.ts msg)
      \/ exists reply, reply ∈ deref h (Message.replies msg)
                       /\ overflows (Message.ts reply)).
Proof.
  unfold channel_step. destruct st as [lines date].
  destruct (is_skipped msg); [done|].
  destruct (_format_date (Message.ts msg)) as [d|e'] eqn:Hd; simpl.
  2: { intros [= <-]. unfold _format_date in Hd. apply handler_Raise in Hd as [-> Hover].
       split_and!; [done|done|by left]. }
  destruct (if truthy d && negb (String.eqb d date) then _ else _) as [lines' date'].
  destruct (format_message msg users false) as [block|e'] eqn:Hm; simpl.
  2: { intros [= <-]. apply format_message_Raise in Hm as [-> Hover].
       split_and!; [done|done|by left]. }
  destruct (mapM_result _ (deref h (Message.replies msg))) as [replies|e'] eqn:Hr; simpl;
    [done|].
  intros [= <-]. apply mapM_result_Raise in Hr.
  apply Exists_exists in Hr as (reply & Hin & Hreply).
  apply format_message_Raise in Hreply as [-> Hover].
  split_and!; [done|done|]. right. by exists reply.
Qed.

(** X23.  [format_channel] leaves out the messages of the six skipped
    subtypes altogether, with their replies: the document is the one of the
    remaining messages, and a channel with such messages only gives the
    header alone.  A skipped message cannot make the call fail. *)
Theorem format_channel_skips_notices (channel : Channel.t) (h : list Message.t)
    (messages : list ref) (users : gmap string User.t) :
  format_channel channel h messages users
  = format_channel channel h (filter (fun r => shown h r = true) messages) users
  /\ (Forall (fun r => shown h r = false) messages ->
      format_channel channel h messages users
      = Ok (String.concat (String newline EmptyString) (channel_header channel))).
Proof.
  assert (format_channel channel h messages users
          = format_channel channel h (filter (fun r => shown h r = true) messages) users)
    as Heq.
  { unfold format_channel, channel_lines. rewrite deref_filter_shown.
    rewrite (foldM_result_filter (channel_step h users) (fun msg => negb (is_skipped msg)));
      [done|]. intros s x. apply channel_step_skipped. }
  split; [done|]. intros Hall. rewrite Heq.
  replace (filter (fun r => shown h r = true) messages) with (@nil nat); [done|].
  symmetry. clear Heq. induction Hall as [|r refs Hr _ IH]; [done|].
  rewrite filter_cons, decide_False; [done|]. by rewrite Hr.
Qed.

Lemma format_channel_skips_notices_witness :
  format_channel (Channel.mk "C1" "test" EmptyString EmptyString) notice_heap [0; 1]
                 sample_users
  = format_channel (Channel.mk "C1" "test" EmptyString EmptyString) notice_heap [1]
                   sample_users
  /\ format_channel (Channel.mk "C1" "test" EmptyString EmptyString) notice_heap [0]
                    sample_users
     = Ok ("# #test" +:+ String newline EmptyString).
Proof.
  split.
  - exact (proj1 (format_channel_skips_notices
                    (Channel.mk "C1" "test" EmptyString EmptyString) notice_heap [0; 1]
                    sample_users)).
  - apply (proj2 (format_channel_skips_notices
                    (Channel.mk "C1" "test" EmptyString EmptyString) notice_heap [0]
                    sample_users)).
    by repeat constructor.
Defined.

(** X24.  [format_channel] raises nothing but OverflowError, and only for a
    message that it shows, or a reply of one, whose timestamp overflows;
    where no message of the heap has such a timestamp it returns a
    document. *)
Theorem format_channel_raises_on_overflow (channel : Channel.t) (h : list Message.t)
    (messages : list ref) (users : gmap string User.t) :
  (forall e, format_channel channel h messages users = Raise e ->
     e = OverflowError
     /\ exists msg, msg ∈ deref h messages /\ is_skipped msg = false
          /\ (overflows (Message.ts msg)
              \/ exists reply, reply ∈ deref h (Message.replies msg)
                               /\ overflows (Message.ts reply)))
  /\ ((forall msg, msg ∈ h -> ~ overflows (Message.ts msg)) ->
      exists out, format_channel channel h messages users = Ok out).
Proof.
  assert (forall e, format_channel channel h messages users = Raise e ->
     e = OverflowError
     /\ exists msg, msg ∈ deref h messages /\ is_skipped msg = false
          /\ (overflows (Message.ts msg)
              \/ exists reply, reply ∈ deref h (Message.replies msg)
                               /\ overflows (Message.ts reply))) as Hraise.
  { intros e. unfold format_channel, channel_lines.
    destruct (foldM_result _ _ _) as [st|e'] eqn:Hfold; simpl; [done|].
    intros [= <-]. apply foldM_result_Raise in Hfold as (s & msg & Hin & Hstep).
    apply channel_step_Raise in Hstep as (-> & Hshown & Hover).
    split; [done|]. by exists msg. }
  split; [done|]. intros Hno.
  destruct (format_channel channel h messages users) as [out|e] eqn:H; [by exists out|].
  destruct (Hraise e eq_refl) as (_ & msg & Hin & _ & [Hover|(reply & Hr & Hover)]).
  - by apply elem_of_deref, Hno in Hin.
  - by apply elem_of_deref, Hno in Hr.
Qed.

Lemma format_channel_raises_on_overflow_witness :
  exists out,
    format_channel (Channel.mk "C1" "general" EmptyString EmptyString) thread_heap [0; 2]
                   sample_users = Ok out.
Proof.
  apply (proj2 (format_channel_raises_on_overflow
                  (Channel.mk "C1" "general" EmptyString EmptyString) thread_heap [0; 2]
                  sample_users)).
  intros msg Hmsg (x & Hx & Hover). unfold thread_heap in Hmsg.
  repeat (apply elem_of_cons in Hmsg as [->|Hmsg];
          [vm_compute in Hx; injection Hx as <-; vm_compute in Hover; discriminate Hover|]).
  by apply elem_of_nil in Hmsg.
Defined.

Lemma channel_step_grows h users lines date msg lines' date' :
  channel_step h users (lines, date) msg = Ok (lines', date') ->
  exists more, lines' = lines ++ more.
Proof.
  unfold channel_step. destruct (is_skipped msg).
  { intros [= <- <-]. exists []. by rewrite app_nil_r. }
  intros (d & _ & H)%bind_Ok.
  destruct (truthy d && negb (String.eqb d date)).
  - apply bind_Ok in H as (block & _ & (replies & _ & [= <- <-])%bind_Ok).
    eexists. by rewrite <- app_assoc.
  - apply bind_Ok in H as (block & _ & (replies & _ & [= <- <-])%bind_Ok).
    by eexists.
Qed.

Lemma foldM_channel_step_grows h users msgs : forall lines date lines' date',
  foldM_result (channel_step h users) (lines, date) msgs = Ok (lines', date') ->
  exists more, lines' = lines ++ more.
Proof.
  induction msgs as [|msg msgs IH]; intros lines date lines' date'; simpl.
  - intros [= <- <-]. exists []. by rewrite app_nil_r.
  - intros ([lines1 date1] & Hstep & Hrest)%bind_Ok.
    apply channel_step_grows in Hstep as [more1 ->].
    apply IH in Hrest as [more2 ->]. exists (more1 ++ more2). by rewrite <- app_assoc.
Qed.

Lemma truthy_false s : s = EmptyString -> truthy s = false.
Proof. by intros ->. Qed.

Lemma truthy_true s : s <> EmptyString -> truthy s = true.
Proof. by destruct s. Qed.

(** X25.  Every document starts with the header of its channel: the title
    line "# #" + name, an empty line and, where they are not empty, the
    line "**Topic:** " + topic and the line "**Purpose:** " + purpose
    followed by one empty line; the lines of the messages come behind it,
    and there are none where there are no messages.  The lines are joined
    by newlines. *)
Theorem format_channel_starts_with_header (channel : Channel.t) (h : list Message.t)
    (messages : list ref) (users : gmap string User.t) (out : string) :
  format_channel channel h messages users = Ok out ->
  exists body,
    (messages = [] -> body = [])
    /\ (Channel.topic channel = EmptyString -> Channel.purpose channel = EmptyString ->
        out = String.concat (String newline EmptyString)
                (["# #" +:+ Channel.name channel; EmptyString] ++ body))
    /\ (Channel.topic channel <> EmptyString -> Channel.purpose channel = EmptyString ->
        out = String.concat (String newline EmptyString)
                (["# #" +:+ Channel.name channel; EmptyString;
                  "**Topic:** " +:+ Channel.topic channel; EmptyString] ++ body))
    /\ (Channel.topic channel = EmptyString -> Channel.purpose channel <> EmptyString ->
        out = String.concat (String newline EmptyString)
                (["# #" +:+ Channel.name channel; EmptyString;
                  "**Purpose:** " +:+ Channel.purpose channel; EmptyString] ++ body))
    /\ (Channel.topic channel <> EmptyString -> Channel.purpose channel <> EmptyString ->
        out = String.concat (String newline EmptyString)
                (["# #" +:+ Channel.name channel; EmptyString;
                  "**Topic:** " +:+ Channel.topic channel;
                  "**Purpose:** " +:+ Channel.purpose channel; EmptyString] ++ body)).
Proof.
  unfold format_channel, channel_lines.
  intros (lines & (st & Hfold & [= <-])%bind_Ok & [= <-])%bind_Ok.
  destruct st as [lines date].
  pose proof Hfold as [body ->]%foldM_channel_step_grows.
  exists body. split_and!; [|unfold channel_header..].
  - intros ->. remember (channel_header channel) as hdr eqn:Hhdr. clear Hhdr.
    simpl in Hfold. injection Hfold as Hlines _.
    rewrite <- (app_nil_r hdr) in Hlines at 1.
    by apply app_inv_head in Hlines.
  - intros Ht Hp. by rewrite (truthy_false _ Ht), (truthy_false _ Hp).
  - intros Ht Hp. by rewrite (truthy_true _ Ht), (truthy_false _ Hp).
  - intros Ht Hp. by rewrite (truthy_false _ Ht), (truthy_true _ Hp).
  - intros Ht Hp. by rewrite (truthy_true _ Ht), (truthy_true _ Hp).
Qed.

Lemma format_channel_starts_with_header_witness :
  (exists out body,
     format_channel (Channel.mk "C1" "general" "Fun stuff" "Chat") thread_heap [0; 2]
                    sample_users = Ok out
     /\ out = String.concat (String newline EmptyString)
                (["# #general"; EmptyString; "**Topic:** Fun stuff"; "**Purpose:** Chat";
                  EmptyString] ++ body))
  /\ format_channel (Channel.mk "C1" "general" "Fun stuff" "Chat") thread_heap []
                    sample_users
     = Ok ("# #general" +:+ String newline (String newline "**Topic:** Fun stuff")
             +:+ String newline "**Purpose:** Chat" +:+ String newline EmptyString)
  /\ format_channel (Channel.mk "C2" "random" EmptyString EmptyString) thread_heap []
                    sample_users
     = Ok ("# #random" +:+ String newline EmptyString).
Proof.
  split_and!.
  - destruct (format_channel (Channel.mk "C1" "general" "Fun stuff" "Chat") thread_heap
                [0; 2] sample_users) as [out|e] eqn:H; [|vm_compute in H; discriminate].
    destruct (format_channel_starts_with_header _ _ _ _ _ H)
      as (body & _ & _ & _ & _ & Hout).
    exists out, body. split; [reflexivity|]. apply Hout; discriminate.
  - destruct (format_channel (Channel.mk "C1" "general" "Fun stuff" "Chat") thread_heap
                [] sample_users) as [out|e] eqn:H; [|vm_compute in H; discriminate].
    destruct (format_channel_starts_with_header _ _ _ _ _ H)
      as (body & Hbody & _ & _ & _ & Hout).
    rewrite Hout, Hbody by (reflexivity || discriminate). reflexivity.
  - destruct (format_channel (Channel.mk "C2" "random" EmptyString EmptyString) thread_heap
                [] sample_users) as [out|e] eqn:H; [|vm_compute in H; discriminate].
    destruct (format_channel_starts_with_header _ _ _ _ _ H)
      as (body & Hbody & Hout & _).
    rewrite Hout, Hbody by reflexivity. reflexivity.
Defined.

(** * Properties of the command line *)

Lemma elem_of_requested_names name names :
  name ∈ requested_names names <-> exists n, n ∈ names /\ name = py_strip n.
Proof.
  unfold requested_names. rewrite elem_of_list_to_set, list_elem_of_fmap.
  split; intros (n & H1 & H2); exists n; done.
Qed.

(** X26.  The channel filter of [main]: without a [--channel] option every
    channel is selected and none is missing; with names, the selected
    channels are the channels of the export whose name is one of the
    requested names stripped of surrounding whitespace, in the order of the
    export, and the missing names are the stripped names that no channel of
    the export carries. *)
Theorem select_channels_spec (all_channels : list Channel.t) (names : list string) :
  select_channels all_channels None = (all_channels, ∅)
  /\ (names <> [] ->
      let selected := (select_channels all_channels (Some names)).1 in
      let missing := (select_channels all_channels (Some names)).2 in
      selected `sublist_of` all_channels
      /\ (forall c, c ∈ selected
            <-> c ∈ all_channels /\ exists n, n ∈ names /\ Channel.name c = py_strip n)
      /\ (forall name, name ∈ missing
            <-> (exists n, n ∈ names /\ name = py_strip n)
                /\ forall c, c ∈ all_channels -> Channel.name c <> name)).
Proof.
  split; [done|]. intros Hne. destruct names as [|n0 names]; [done|]. simpl.
  set (requested := requested_names (n0 :: names)).
  split_and!.
  - apply sublist_filter.
  - intros c. rewrite list_elem_of_filter. unfold requested.
    rewrite elem_of_requested_names. tauto.
  - intros name. rewrite elem_of_difference, elem_of_list_to_set, list_elem_of_fmap.
    unfold requested. rewrite elem_of_requested_names. split.
    + intros [Hreq Hnot]. split; [done|]. intros c Hc Hname. apply Hnot.
      exists c. split; [done|]. apply list_elem_of_filter. split; [|done].
      rewrite Hname. by apply elem_of_requested_names.
    + intros [Hreq Hnone]. split; [done|].
      intros (c & Hname & Hc%list_elem_of_filter). destruct Hc as [_ Hc].
      by apply (Hnone c).
Qed.

Lemma select_channels_spec_witness :
  [" random "; "dev"] <> []
  /\ (select_channels [Channel.mk "C1" "general" EmptyString EmptyString;
                       Channel.mk "C2" "random" EmptyString EmptyString]
                      (Some [" random "; "dev"])).1
     = [Channel.mk "C2" "random" EmptyString EmptyString]
  /\ "dev" ∈ (select_channels [Channel.mk "C1" "general" EmptyString EmptyString;
                               Channel.mk "C2" "random" EmptyString EmptyString]
                              (Some [" random "; "dev"])).2.
Proof.
  assert ([" random "; "dev"] <> []) as Hne by discriminate.
  split; [exact Hne|]. split; [reflexivity|].
  destruct (proj2 (select_channels_spec
                     [Channel.mk "C1" "general" EmptyString EmptyString;
                      Channel.mk "C2" "random" EmptyString EmptyString]
                     [" random "; "dev"]) Hne) as (_ & _ & Hmissing).
  apply Hmissing. split.
  - exists "dev". split; [|reflexivity]. apply elem_of_cons. right. apply elem_of_cons. by left.
  - intros c Hc. repeat (apply elem_of_cons in Hc as [->|Hc]; [discriminate|]).
    by apply elem_of_nil in Hc.
Defined.

Lemma export_channel_Ok zf channel users users' doc :
  export_channel zf channel users = (users', Ok doc) ->
  exists h top markdown,
    load_channel_messages zf (Channel.name channel) users = (users', Ok (h, top))
    /\ format_channel channel h top users' = Ok markdown
    /\ doc = (document_name channel, markdown).
Proof.
  unfold export_channel.
  intros ([h top] & users1 & Hload & H)%loader_bind_Ok.
  apply loader_bind_Ok in H as (users2 & users3 & Hget & H).
  injection Hget as <- <-.
  apply loader_bind_Ok in H as (markdown & users4 & [-> Hfmt]%lift_Ok & H).
  injection H as <- <-. by exists h, top, markdown.
Qed.

Lemma export_channels_names zf selected : forall users users' docs,
  export_channels zf selected users = (users', Ok docs) ->
  docs.*1 = document_name <$> selected.
Proof.
  induction selected as [|channel selected IH]; intros users users' docs; simpl.
  - by intros [= _ <-].
  - intros (doc & users1 & Hdoc & H)%loader_bind_Ok.
    apply loader_bind_Ok in H as (rest & users2 & Hrest & H).
    injection H as _ <-.
    apply export_channel_Ok in Hdoc as (h & top & markdown & _ & _ & ->).
    simpl. f_equal. by eapply IH.
Qed.

Lemma extends_export_channel zf channel : extends_table (export_channel zf channel).
Proof.
  unfold export_channel.
  apply extends_bind; [apply extends_load_channel_messages|intros [h top]].
  apply extends_bind; [by intros users|intros users].
  apply extends_bind; [apply extends_lift|intros markdown]. apply extends_ret.
Qed.

Lemma extends_export_channels zf selected : extends_table (export_channels zf selected).
Proof.
  induction selected as [|channel selected IH]; simpl; [apply extends_ret|].
  apply extends_bind; [apply extends_export_channel|intros doc].
  apply extends_bind; [done|intros docs]. apply extends_ret.
Qed.

Lemma select_channels_nil args : (select_channels [] args).1 = [].
Proof. by destruct args as [[|name names]|]. Qed.



(** * Further properties, continued *)

(** X28.  The two timestamp formatters by cases.  A timestamp that float
    rejects, or that parses to NaN or to a value whose year lies outside
    1..9999: [_format_timestamp] returns the string unchanged and
    [_format_date] the empty string.  A timestamp that converts to a UTC
    datetime: [_format_timestamp] returns H:MM AM or H:MM PM, with the hour
    of the 12-hour clock in 1..12 and no leading zero, and [_format_date] a
    string of the form YYYY-MM-DD whose fields are the year, the month and
    the day.  A timestamp whose conversion raises OverflowError: both
    formatters raise OverflowError.  The conversion raises nothing else. *)
Theorem formatters_by_cases ts :
  (py_float ts = Raise ValueError ->
     _format_timestamp ts = Ok ts /\ _format_date ts = Ok EmptyString)
  /\ (forall x, py_float ts = Ok x -> fromtimestamp_utc x = Raise ValueError ->
        _format_timestamp ts = Ok ts /\ _format_date ts = Ok EmptyString)
  /\ (forall x dt, py_float ts = Ok x -> fromtimestamp_utc x = Ok dt ->
        _format_timestamp ts = Ok (chars_str (clock12 dt))
        /\ head (clock12 dt) <> Some "0"%char
        /\ _format_date ts = Ok (chars_str (strftime_Y_m_d dt))
        /\ is_date (strftime_Y_m_d dt) = true
        /\ date_fields (strftime_Y_m_d dt) = (year dt, month dt, day dt))
  /\ (forall x, py_float ts = Ok x -> fromtimestamp_utc x = Raise OverflowError ->
        _format_timestamp ts = Raise OverflowError
        /\ _format_date ts = Raise OverflowError)
  /\ (forall x e, py_float ts = Ok x -> fromtimestamp_utc x = Raise e ->
        e = ValueError \/ e = OverflowError).
Proof.
  unfold _format_timestamp, _format_date. split_and!.
  - intros ->. done.
  - intros x -> Hx. simpl. rewrite Hx. done.
  - intros x dt -> Hdt. simpl. rewrite Hdt. simpl.
    destruct (fromtimestamp_utc_range _ _ Hdt) as (Hy & Hm & Hd & Hh & Hmin).
    pose proof (hour12_range (hour dt)) as Hh12.
    split_and!.
    + unfold strftime_I_M_p, clock12. by rewrite lstrip0_hour.
    + unfold clock12. pose proof (hour_digits_head _ Hh12) as Hhead.
      by destruct (hour_digits (hour12 (hour dt))).
    + done.
    + unfold strftime_Y_m_d, pad4, pad2. simpl. by rewrite !is_digit_digit_chr.
    + unfold date_fields, strftime_Y_m_d. simpl.
      change [digit_chr (year dt / 1000); digit_chr (year dt / 100);
              digit_chr (year dt / 10); digit_chr (year dt)] with (pad4 (year dt)).
      change [digit_chr (month dt / 10); digit_chr (month dt)] with (pad2 (month dt)).
      change [digit_chr (day dt / 10); digit_chr (day dt)] with (pad2 (day dt)).
      rewrite digits_val_pad4, !digits_val_pad2 by lia. done.
  - intros x -> Hx. simpl. rewrite Hx. done.
  - intros x e _ Hx. by eapply fromtimestamp_utc_Raise.
Qed.

Lemma formatters_by_cases_witness :
  py_float "not-a-number" = Raise ValueError
  /\ _format_timestamp "not-a-number" = Ok "not-a-number"
  /\ _format_date "not-a-number" = Ok EmptyString
  /\ (exists x dt,
        py_float "1705307400.000100" = Ok x /\ fromtimestamp_utc x = Ok dt
        /\ _format_timestamp "1705307400.000100" = Ok "8:30 AM"
        /\ _format_date "1705307400.000100" = Ok "2024-01-15")
  /\ _format_timestamp "1e19" = Raise OverflowError.
Proof.
  destruct (formatters_by_cases "not-a-number") as (Hbad & _ & _ & _ & _).
  destruct (formatters_by_cases "1705307400.000100") as (_ & _ & Hgood & _ & _).
  destruct (formatters_by_cases "1e19") as (_ & _ & _ & Hover & _).
  split; [vm_compute; reflexivity|].
  destruct Hbad as [Ht Hd]; [vm_compute; reflexivity|].
  split; [exact Ht|]. split; [exact Hd|]. split.
  - eexists _, _. split; [vm_compute; reflexivity|]. split; [vm_compute; reflexivity|].
    edestruct Hgood as (Ht' & _ & Hd' & _);
      [vm_compute; reflexivity|vm_compute; reflexivity|].
    rewrite Ht', Hd'. split; vm_compute; reflexivity.
  - edestruct Hover as [Ho _]; [vm_compute; reflexivity|vm_compute; reflexivity|].
    exact Ho.
Defined.

(** X29.  For every input and every arrangement [algo] of the sort, the
    reply structure that a load returns is one level deep: no message in a
    replies list has replies of its own. *)
Theorem replies_one_level_deep (algo : list (pyfloat * ref) -> list (pyfloat * ref))
    zf channel_name users users' h top :
  rearranges algo ->
  load_channel_messages_by algo zf channel_name users = (users', Ok (h, top)) ->
  replies_depth_one h.
Proof.
  intros Halgo (all & order & Hscan & Hsort & Hperm & Hinv)%load_channel_messages_by_inv;
    [|done].
  destruct Hinv as [_ _ _ Hrep _ _ _ _ _]. simpl in *.
  intros t r Hr. destruct (Hrep _ _ Hr) as (_ & _ & (m & Hm & Hisr) & _).
  destruct (replies_of h r) as [|x l] eqn:Hl; [done|].
  destruct (Hrep r x) as (_ & _ & _ & (m' & Hm' & Hnr)); [rewrite Hl; by left|].
  congruence.
Qed.

Lemma replies_one_level_deep_witness :
  rearranges (py_sort (@fst pyfloat nat) float_lt)
  /\ load_channel_messages_by (py_sort fst float_lt) replies_archive "general" ∅
     = (∅, Ok (replies_heap, [2]))
  /\ replies_of replies_heap 2 = [1; 0]
  /\ replies_depth_one replies_heap.
Proof.
  split; [apply py_sort_rearranges|].
  assert (load_channel_messages_by (py_sort fst float_lt) replies_archive "general" ∅
          = (∅, Ok (replies_heap, [2]))) as H by (vm_compute; reflexivity).
  split; [exact H|]. split; [reflexivity|].
  apply (replies_one_level_deep _ _ _ _ _ _ _ (py_sort_rearranges fst float_lt) H).
Defined.

(** X30.  Where no timestamp parses as NaN, the replies of every message
    that a load returns stand in ascending order of the sort key (float of
    the timestamp, zero for the empty timestamp), whatever the order of the
    records in the day files. *)
Theorem replies_ascending_without_nan zf channel_name users users' h top :
  load_channel_messages zf channel_name users = (users', Ok (h, top)) ->
  (forall r m, h !! r = Some m -> sort_key m <> Ok FNaN) ->
  forall t, replies_ascending h t.
Proof.
  intros (all & order & Hscan & Hsort & Hperm & Hinv)%load_channel_messages_inv.
  destruct Hinv as [Hstatic _ _ Hrep _ _ _ Hsub _]. simpl in *.
  intros Hnan t i j ri rj mi mj ki kj Hij Hi Hj Hmi Hmj Hki Hkj.
  destruct (sort_messages_spec _ _ Hsort) as (_ & keys & Hkeys & Hsorted).
  assert (forall r m k, h !! r = Some m -> sort_key m = Ok k -> keys !! r = Some k) as Hkey.
  { intros r m k Hm Hk.
    destruct (Forall2_lookup_l _ _ _ _ _ Hstatic Hm) as (m0 & Hm0 & Hmm0).
    destruct (Forall2_lookup_l _ _ _ _ _ Hkeys Hm0) as (k0 & Hk0 & Hmk).
    rewrite (sort_key_static m m0) in Hk by done. congruence. }
  assert (Forall (fun k => k <> FNaN) keys) as Hgood.
  { apply Forall_forall. intros k [r Hr]%list_elem_of_lookup ->.
    destruct (Forall2_lookup_r _ _ _ _ _ Hkeys Hr) as (m0 & Hm0 & Hmk).
    destruct (Forall2_lookup_r _ _ _ _ _ Hstatic Hm0) as (m & Hm & Hmm0).
    apply (Hnan r m Hm). by rewrite (sort_key_static m m0). }
  pose proof (StronglySorted_sublist _ _ _ (Hsub t) (Hsorted Hgood)) as Hs.
  apply (StronglySorted_lookup _ _ _ _ _ _ Hs Hij Hi Hj); by eapply Hkey.
Qed.

Lemma replies_ascending_without_nan_witness :
  load_channel_messages replies_archive "general" ∅ = (∅, Ok (replies_heap, [2]))
  /\ Message.ts <$> deref replies_heap (replies_of replies_heap 2) = ["2"; "3"]
  /\ forall t, replies_ascending replies_heap t.
Proof.
  assert (load_channel_messages replies_archive "general" ∅
          = (∅, Ok (replies_heap, [2]))) as H by (vm_compute; reflexivity).
  split; [exact H|]. split; [reflexivity|].
  apply (replies_ascending_without_nan _ _ _ _ _ _ H).
  intros r m Hm%list_elem_of_lookup_2 Hk. unfold replies_heap in Hm.
  repeat (apply elem_of_cons in Hm as [->|Hm]; [vm_compute in Hk; discriminate Hk|]).
  by apply elem_of_nil in Hm.
Defined.

(** ** The tests of the repository, on the embedding *)

Example test_format_timestamp :
  _format_timestamp "1705307400.000100" = Ok "8:30 AM"
  /\ _format_timestamp "1705320000.000000" = Ok "12:00 PM"
  /\ _format_timestamp "not-a-number" = Ok "not-a-number".
Proof. split_and!; vm_compute; reflexivity. Qed.

Example test_format_date :
  _format_date "1705307400.000100" = Ok "2024-01-15"
  /\ _format_date "bad" = Ok EmptyString.
Proof. split_and!; vm_compute; reflexivity. Qed.

Example test_convert_mrkdwn :
  convert_mrkdwn "<@U001|alice>" sample_users = "**@alice**"
  /\ convert_mrkdwn "<#C123|general>" sample_users = "#general"
  /\ convert_mrkdwn "<!subteam^S123|@engineers>" sample_users = "@engineers"
  /\ convert_mrkdwn "<!here>" sample_users = "@here"
  /\ convert_mrkdwn "<!channel>" sample_users = "@channel"
  /\ convert_mrkdwn "<!everyone>" sample_users = "@everyone"
  /\ convert_mrkdwn "<https://example.com|Example>" sample_users
     = "[Example](https://example.com)"
  /\ convert_mrkdwn "<https://example.com>" sample_users = "https://example.com"
  /\ convert_mrkdwn "*bold* and _italic_ and ~strike~" sample_users
     = "**bold** and *italic* and ~~strike~~"
  /\ convert_mrkdwn "cc <@U001> and <@U002>" sample_users
     = "cc **@alice** and **@Bob Jones**".
Proof. split_and!; vm_compute; reflexivity. Qed.

Example test_convert_slack_formatting :
  _convert_slack_formatting "use `*not bold*` here" = "use `*not bold*` here"
  /\ _convert_slack_formatting "```*not bold*```" = "```*not bold*```"
  /\ _convert_slack_formatting "*bold* and `code`" = "**bold** and `code`"
  /\ _convert_slack_formatting "plain text" = "plain text"
  /\ _convert_slack_formatting "```unclosed" = "```unclosed".
Proof. split_and!; vm_compute; reflexivity. Qed.

Example test_assembles_threads :
  load_channel_messages thread_archive "general" ∅ = (∅, Ok (thread_heap, [0; 2]))
  /\ Message.text <$> thread_heap !! 0 = Some "parent"
  /\ replies_of thread_heap 0 = [1]
  /\ Message.text <$> thread_heap !! 1 = Some "reply"
  /\ Message.text <$> thread_heap !! 2 = Some "orphan"
  /\ replies_of thread_heap 2 = [].
Proof. split_and!; vm_compute; reflexivity. Qed.

(** The backfill of a load that raises afterwards stays in the table. *)
Example backfill_survives_the_exception :
  (load_channel_messages bad_ts_archive "general" ∅).1 !! "U999"
  = Some (User.mk "U999" "ext_user" EmptyString EmptyString).
Proof. vm_compute; reflexivity. Qed.
